(** * whisper-timestamped: word alignment and timestamp enforcement

    A shallow embedding of [whisper_timestamped/transcribe.py]:
    the timestamp consistency enforcer ([ensure_increasing_positions]),
    the word segmenter ([split_tokens_on_unicode], [split_tokens_on_spaces]),
    the forced alignment driver ([perform_word_alignment]) and the
    segment accumulator closures of [transcribe_timestamped]
    ([reset], [must_flush_segment], [may_flush_segment], the hooks).

    Conventions of the embedding.
    - Python floats are modelled by exact rationals ([Q]); [round(x, 2)] is
      round-half-to-even on hundredths.  Binary rounding error of IEEE
      doubles is outside the model.
    - A Python exception is a value [Raise e] of the [result] type; every
      call that can raise returns a [result].
    - Logging calls have no effect on control flow and are left out, except
      where evaluating the logged f-string itself can raise. *)

From Stdlib Require Import String Ascii.
From Stdlib Require Import ZArith QArith Qround Qabs List Bool Lia Lqa.
Import ListNotations.
Open Scope Q_scope.

(** ** Exceptions and the error monad *)

Inductive exn : Type :=
| AssertionError (msg : string)
| RuntimeError (msg : string)
| IndexError (msg : string)
| AttributeError (msg : string)
| TypeError (msg : string)
| ValueError (msg : string)
| UnboundLocalError (msg : string).

Inductive result (A : Type) : Type :=
| Ok (a : A)
| Raise (e : exn).
Arguments Ok {A} a.
Arguments Raise {A} e.

Definition bind {A B : Type} (r : result A) (k : A -> result B) : result B :=
  match r with
  | Ok a => k a
  | Raise e => Raise e
  end.

Notation "x <- r ;; k" := (bind r (fun x => k))
  (at level 61, r at next level, right associativity).
Notation "' p <- r ;; k" := (bind r (fun p => k))
  (at level 61, p pattern, r at next level, right associativity).

Definition py_assert (b : bool) (msg : string) : result unit :=
  if b then Ok tt else Raise (AssertionError msg).

(** ** Rational arithmetic standing for Python floats *)

Definition Qltb (a b : Q) : bool := negb (Qle_bool b a).
Definition Qleb (a b : Q) : bool := Qle_bool a b.

(** [round(x)] to an integer, ties to the even neighbour. *)
Definition round_half_even (q : Q) : Z :=
  let f := Qfloor q in
  match ((q - inject_Z f) ?= (1 # 2))%Q with
  | Lt => f
  | Gt => (f + 1)%Z
  | Eq => if Z.even f then f else (f + 1)%Z
  end.

(** [round(x, 2)] on the exact value: the nearest hundredth, ties to the
    even neighbour.  Python rounds the binary double, so a decimal tie
    such as 0.505, which no double holds exactly, can fall on the other
    side there. *)
Definition round2 (q : Q) : Q := inject_Z (round_half_even (q * 100)) / 100.

(** ** Words *)

(** Python [str]: a sequence of Unicode code points. *)
Definition pystr : Type := list N.

Record word : Type := mkWord {
  text : pystr;
  start : Q;
  end_ : Q;
  idx_segment : option nat
}.

Definition set_start (w : word) (s : Q) : word :=
  mkWord (text w) s (end_ w) (idx_segment w).
Definition set_end (w : word) (e : Q) : word :=
  mkWord (text w) (start w) e (idx_segment w).

(** ** Timestamp consistency enforcer *)

Module Enforcer.

(** Lines 764-765: [if seg["end"] <= seg["start"] + min_duration: ...]. *)
Definition stretch (min_duration : Q) (seg : word) : word :=
  if Qleb (end_ seg) (start seg + min_duration)
  then set_end seg (start seg + min_duration)
  else seg.

(** The first [for] loop (lines 754-766).  [done] holds [segments[:i]]
    in reverse order, so its head is [segments[i-1]] and [i > 0] reads
    [done <> []]; [todo] is [segments[i:]].  Each list element is a dict
    of its own, as [perform_word_alignment] builds them.  Sums and
    comparisons are exact; in binary64 [start + min_duration] can
    differ from the decimal sum in the last place, and a comparison
    against a value that close can then go the other way. *)
Fixpoint increasing_loop (min_duration : Q) (done : list word)
    (previous_end : Q) (has_modified_backward : bool) (todo : list word)
    : result (list word * bool) :=
  match todo with
  | [] => Ok (rev done, has_modified_backward)
  | seg :: rest =>
      if Qltb (start seg) previous_end then
        match done with
        | [] => Raise (AssertionError "i > 0")
        | prev :: before =>
            let new_start := round2 ((previous_end + start seg) / 2) in
            if Qltb new_start (start prev + min_duration) then
              let seg := stretch min_duration (set_start seg previous_end) in
              increasing_loop min_duration (seg :: prev :: before)
                (end_ seg) has_modified_backward rest
            else
              let prev := set_end prev new_start in
              let seg := stretch min_duration (set_start seg new_start) in
              increasing_loop min_duration (seg :: prev :: before)
                (end_ seg) true rest
        end
      else
        let seg := stretch min_duration seg in
        increasing_loop min_duration (seg :: done)
          (end_ seg) has_modified_backward rest
  end.

Definition increasing_pass (min_duration : Q) (segments : list word)
    : result (list word * bool) :=
  increasing_loop min_duration [] 0 false segments.

(** The second [for] loop (lines 770-776): rounding and the two
    assertions. *)
Fixpoint final_loop (previous_end : Q) (todo : list word)
    : result (list word) :=
  match todo with
  | [] => Ok []
  | seg :: rest =>
      let seg := set_start seg (round2 (start seg)) in
      let seg := set_end seg (round2 (end_ seg)) in
      _ <- py_assert (Qleb previous_end (start seg))
             "coming before the previous finishes" ;;
      _ <- py_assert (Qltb (start seg) (end_ seg)) "with end <= start" ;;
      rest' <- final_loop (end_ seg) rest ;;
      Ok (seg :: rest')
  end.

(** [ensure_increasing_positions(segments, min_duration)].  The recursive
    call of line 768 consumes one unit of [fuel]; [None] means the fuel
    ran out before the recursion stopped. *)
Fixpoint ensure_increasing_positions (fuel : nat) (segments : list word)
    (min_duration : Q) : option (result (list word)) :=
  match fuel with
  | O => None
  | S fuel' =>
      match increasing_pass min_duration segments with
      | Raise e => Some (Raise e)
      | Ok (segments', true) =>
          ensure_increasing_positions fuel' segments' min_duration
      | Ok (segments', false) => Some (final_loop 0 segments')
      end
  end.

End Enforcer.

(** ** Python strings and lists *)

Module Py.

(** Code points of an ASCII literal. *)
Fixpoint lit (s : string) : pystr :=
  match s with
  | EmptyString => []
  | String c s' => N_of_ascii c :: lit s'
  end.

(** [s.startswith(p)] *)
Fixpoint startswith (p s : pystr) : bool :=
  match p, s with
  | [], _ => true
  | _ :: _, [] => false
  | a :: p', b :: s' => N.eqb a b && startswith p' s'
  end.

(** [sub in s] for strings: [sub] occurs as a contiguous substring. *)
Fixpoint contains (sub s : pystr) : bool :=
  startswith sub s ||
  match s with
  | [] => false
  | _ :: s' => contains sub s'
  end.

(** The characters [str.strip()] removes: those with [str.isspace()]. *)
Definition isspace (c : N) : bool :=
  ((9 <=? c) && (c <=? 13) || (28 <=? c) && (c <=? 32) || (c =? 133)
   || (c =? 160) || (c =? 5760) || (8192 <=? c) && (c <=? 8202)
   || (c =? 8232) || (c =? 8233) || (c =? 8239) || (c =? 8287)
   || (c =? 12288))%N.

Fixpoint lstrip (s : pystr) : pystr :=
  match s with
  | [] => []
  | c :: s' => if isspace c then lstrip s' else s
  end.

Definition rstrip (s : pystr) : pystr := rev (lstrip (rev s)).

Definition strip (s : pystr) : pystr := rstrip (lstrip s).

(** [l[-1]] *)
Definition last_item {A : Type} (l : list A) : result A :=
  match rev l with
  | [] => Raise (IndexError "list index out of range")
  | x :: _ => Ok x
  end.

(** [l[0]] *)
Definition first_item {A : Type} (l : list A) : result A :=
  match l with
  | [] => Raise (IndexError "list index out of range")
  | x :: _ => Ok x
  end.

(** [l[-1] = f(l[-1])], an in-place update of the last element. *)
Fixpoint update_last {A : Type} (f : A -> A) (l : list A) : result (list A) :=
  match l with
  | [] => Raise (IndexError "list index out of range")
  | [x] => Ok [f x]
  | x :: l' => l'' <- update_last f l' ;; Ok (x :: l'')
  end.

(** [l[:-1]] *)
Definition but_last {A : Type} (l : list A) : list A := removelast l.

(** [l[-1:]] *)
Definition last_as_list {A : Type} (l : list A) : list A :=
  match rev l with
  | [] => []
  | x :: _ => [x]
  end.

(** Bound of a Python slice over a sequence of length [len]: negative
    values count from the end, everything is clipped to [0..len]. *)
Definition clamp_index (len : nat) (k : Z) : nat :=
  if (k <? 0)%Z then Z.to_nat (Z.max 0 (Z.of_nat len + k))
  else Nat.min len (Z.to_nat k).

(** [l[:k]] *)
Definition slice_to {A : Type} (k : Z) (l : list A) : list A :=
  firstn (clamp_index (length l) k) l.

(** [[f(x) for x in l]] where [f] can raise. *)
Fixpoint map_result {A B : Type} (f : A -> result B) (l : list A)
    : result (list B) :=
  match l with
  | [] => Ok []
  | x :: l' => y <- f x ;; ys <- map_result f l' ;; Ok (y :: ys)
  end.

End Py.

(** ** Tokenizer interface

    The tokenizer is an object of the [whisper] package; the code uses
    its decoding function and a few token ids. *)

Record Tokenizer : Type := mkTokenizer {
  decode_with_timestamps : list Z -> pystr;
  timestamp_begin : Z;
  eot : Z;
  sot : Z
}.

(** ** Word segmenter *)

Module Segmenter.

(** [string.punctuation] without the hyphen and the apostrophe (line 695),
    as code points: the ASCII punctuation characters 33-47, 58-64, 91-96
    and 123-126 except 39 and 45. *)
Definition _punctuation : pystr :=
  [33; 34; 35; 36; 37; 38; 40; 41; 42; 43; 44; 46; 47; 58; 59; 60; 61; 62;
   63; 64; 91; 92; 93; 94; 95; 96; 123; 124; 125; 126]%N.

(** U+FFFD, the replacement character. *)
Definition replacement_char : N := 65533%N.

(** An element of a per-word span.  With [tokens_as_string] the spans hold
    stripped strings; without it they hold token ids, and the punctuation
    branch of [split_tokens_on_unicode] appends the list [current_tokens]
    itself as one element. *)
Inductive item : Type :=
| IStr (s : pystr)
| ITok (t : Z)
| IToks (l : list Z).

Section WithTokenizer.

Variable tokenizer : Tokenizer.

(** Body of the [for token in tokens] loop of [split_tokens_on_unicode]
    (lines 702-719), threading [words], [word_tokens], [current_tokens]. *)
Fixpoint unicode_loop (tokens_as_string remove_punctuation_from_words
    isolate_punctuations : bool) (words : list pystr)
    (word_tokens : list (list item)) (current_tokens : list Z)
    (tokens : list Z) : result (list pystr * list (list item)) :=
  match tokens with
  | [] => Ok (words, word_tokens)
  | token :: rest =>
      let current_tokens := current_tokens ++ [token] in
      let decoded := decode_with_timestamps tokenizer current_tokens in
      if negb (existsb (N.eqb replacement_char) decoded) then
        let punctuation := negb isolate_punctuations
                           && Py.contains (Py.strip decoded) _punctuation in
        '(words, word_tokens) <-
          (if punctuation then
             let '(words, word_tokens) :=
               match words with
               | [] => ([[]], [[]])
               | _ :: _ => (words, word_tokens)
               end in
             words <- (if negb remove_punctuation_from_words
                       then Py.update_last (fun w => w ++ decoded) words
                       else Ok words) ;;
             word_tokens <-
               Py.update_last
                 (fun span => span ++ [if tokens_as_string
                                       then IStr (Py.strip decoded)
                                       else IToks current_tokens])
                 word_tokens ;;
             Ok (words, word_tokens)
           else
             Ok (words ++ [decoded],
                 word_tokens ++ [if tokens_as_string
                                 then [IStr (Py.strip decoded)]
                                 else map ITok current_tokens])) ;;
        unicode_loop tokens_as_string remove_punctuation_from_words
          isolate_punctuations words word_tokens [] rest
      else
        unicode_loop tokens_as_string remove_punctuation_from_words
          isolate_punctuations words word_tokens current_tokens rest
  end.

Definition split_tokens_on_unicode (tokens : list Z)
    (tokens_as_string remove_punctuation_from_words isolate_punctuations : bool)
    : result (list pystr * list (list item)) :=
  unicode_loop tokens_as_string remove_punctuation_from_words
    isolate_punctuations [] [] [] tokens.

(** [x.startswith("<|")] on a span element; only strings have the method. *)
Definition item_startswith_special (x : item) : result bool :=
  match x with
  | IStr s => Ok (Py.startswith (Py.lit "<|") s)
  | _ => Raise (AttributeError "startswith")
  end.

(** [x >= tokenizer.eot] on a span element. *)
Definition item_ge_eot (x : item) : result bool :=
  match x with
  | ITok t => Ok (eot tokenizer <=? t)%Z
  | IStr _ => Raise (TypeError "'>=' not supported between 'str' and 'int'")
  | IToks _ => Raise (TypeError "'>=' not supported between 'list' and 'int'")
  end.

(** [subword_tokens_list[i-1]], where index [-1] is the last element. *)
Definition previous_span (subword_tokens_list : list (list item)) (i : nat)
    : result (list item) :=
  match i with
  | O => Py.last_item subword_tokens_list
  | S j =>
      match nth_error subword_tokens_list j with
      | Some span => Ok span
      | None => Raise (IndexError "list index out of range")
      end
  end.

(** Body of the [for] loop of [split_tokens_on_spaces] (lines 730-740).
    [word_tokens.append(subword_tokens)] shares the span with
    [subword_tokens_list], and [extend] later grows it at its end; line 732
    reads only element [0] of a span that line 731 found non-empty one
    iteration earlier, so the read sees the same value in the unshared
    list used here. *)
Fixpoint spaces_loop (tokens_as_string : bool)
    (subword_tokens_list : list (list item)) (i : nat)
    (words : list pystr) (word_tokens : list (list item))
    (todo : list (pystr * list item))
    : result (list pystr * list (list item)) :=
  match todo with
  | [] => Ok (words, word_tokens)
  | (subword, subword_tokens) :: rest =>
      special <-
        (x <- Py.first_item subword_tokens ;;
         if tokens_as_string then item_startswith_special x
         else item_ge_eot x) ;;
      previous_special <-
        (if tokens_as_string then
           if (0 <? i)%nat then
             prev <- previous_span subword_tokens_list i ;;
             x <- Py.first_item prev ;;
             item_startswith_special x
           else Ok false
         else
           prev <- previous_span subword_tokens_list i ;;
           x <- Py.first_item prev ;;
           item_ge_eot x) ;;
      let with_space := Py.startswith (Py.lit " ") subword in
      let punctuation := Py.contains (Py.strip subword) _punctuation in
      '(words, word_tokens) <-
        (if special || (with_space && negb punctuation) || previous_special
         then Ok (words ++ [Py.strip subword], word_tokens ++ [subword_tokens])
         else
           words <- Py.update_last (fun w => w ++ Py.strip subword) words ;;
           word_tokens <-
             Py.update_last (fun span => span ++ subword_tokens) word_tokens ;;
           Ok (words, word_tokens)) ;;
      spaces_loop tokens_as_string subword_tokens_list (S i)
        words word_tokens rest
  end.

Definition split_tokens_on_spaces (tokens : list Z)
    (tokens_as_string remove_punctuation_from_words : bool)
    : result (list pystr * list (list item)) :=
  '(subwords, subword_tokens_list) <-
    split_tokens_on_unicode tokens tokens_as_string
      remove_punctuation_from_words false ;;
  spaces_loop tokens_as_string subword_tokens_list 0 [] []
    (combine subwords subword_tokens_list).

End WithTokenizer.

(** Concatenation of the per-word spans, every element flattened to the
    token ids it stands for; a string element stands for no token id. *)
Definition item_tokens (x : item) : list Z :=
  match x with
  | IStr _ => []
  | ITok t => [t]
  | IToks l => l
  end.

Definition span_tokens (word_tokens : list (list item)) : list Z :=
  flat_map item_tokens (concat word_tokens).

End Segmenter.

(** ** Attention tensors

    A [torch] tensor of rank 4, laid out as (layer or batch, head, query
    position, audio frame): its shape and its entries. *)

Record tensor : Type := mkTensor {
  n_batch : nat;
  n_head : nat;
  n_query : nat;     (* [shape[-2]] *)
  n_frame : nat;     (* [shape[-1]] *)
  at_ : nat -> nat -> nat -> nat -> Q
}.

Module Torch.

(** [w[:, :, -1:, :]] *)
Definition last_query (w : tensor) : tensor :=
  mkTensor (n_batch w) (n_head w) (Nat.min 1 (n_query w)) (n_frame w)
    (fun b h q f => at_ w b h (n_query w - 1 + q) f).

(** [w[:, :, :k, :]] *)
Definition queries_to (k : Z) (w : tensor) : tensor :=
  mkTensor (n_batch w) (n_head w) (Py.clamp_index (n_query w) k) (n_frame w)
    (at_ w).

(** [w[:, :, :, a:b]] *)
Definition frames_between (a b : Z) (w : tensor) : tensor :=
  let lo := Py.clamp_index (n_frame w) a in
  let hi := Py.clamp_index (n_frame w) b in
  mkTensor (n_batch w) (n_head w) (n_query w) (hi - lo)
    (fun bt h q f => at_ w bt h q (lo + f)%nat).

(** [torch.cat([a, b], dim=-2)] *)
Definition cat2_query (a b : tensor) : result tensor :=
  if (n_batch a =? n_batch b)%nat && (n_head a =? n_head b)%nat
     && (n_frame a =? n_frame b)%nat
  then Ok (mkTensor (n_batch a) (n_head a) (n_query a + n_query b) (n_frame a)
             (fun bt h q f => if (q <? n_query a)%nat then at_ a bt h q f
                              else at_ b bt h (q - n_query a) f))
  else Raise (RuntimeError "Sizes of tensors must match except in dimension 2").

(** [torch.cat(ws, dim=-2)].  On an empty list torch raises; the class
    of that exception, [RuntimeError] here, is [ValueError] in later
    releases of torch. *)
Definition cat_query (ws : list tensor) : result tensor :=
  match ws with
  | [] => Raise (RuntimeError "torch.cat(): expected a non-empty list of Tensors")
  | w :: rest =>
      fold_left (fun acc x => a <- acc ;; cat2_query a x) rest (Ok w)
  end.

(** [torch.cat([a, b])], along dimension 0 *)
Definition cat2_batch (a b : tensor) : result tensor :=
  if (n_head a =? n_head b)%nat && (n_query a =? n_query b)%nat
     && (n_frame a =? n_frame b)%nat
  then Ok (mkTensor (n_batch a + n_batch b) (n_head a) (n_query a) (n_frame a)
             (fun bt h q f => if (bt <? n_batch a)%nat then at_ a bt h q f
                              else at_ b (bt - n_batch a) h q f))
  else Raise (RuntimeError "Sizes of tensors must match except in dimension 0").

End Torch.

(** ** Forced alignment *)

Module Aligner.

(** 3000, [whisper.audio.N_FRAMES] *)
Definition N_FRAMES : Z := 3000.
(** 0.02, [HOP_LENGTH * 2 / SAMPLE_RATE] *)
Definition AUDIO_TIME_PER_TOKEN : Q := 320 # 16000.

(** An element of the [attention_weights] argument: a tensor, or the
    two-element Python list the recursive call of line 525 builds. *)
Inductive attention : Type :=
| ATensor (w : tensor)
| AList (ws : list tensor).

(** [w.shape[-2]] *)
Definition shape_query (a : attention) : result nat :=
  match a with
  | ATensor w => Ok (n_query w)
  | AList _ => Raise (AttributeError "'list' object has no attribute 'shape'")
  end.

(** Lines 483-484: the shape assertion over all layers. *)
Fixpoint check_shapes (len_tokens : nat) (attention_weights : list attention)
    : result unit :=
  match attention_weights with
  | [] => Ok tt
  | a :: rest =>
      q <- shape_query a ;;
      _ <- py_assert (q =? len_tokens)%nat "Attention weights have wrong shape" ;;
      check_shapes len_tokens rest
  end.

(** [torch.cat(attention_weights)] (line 517); the exception on an empty
    list is that of [Torch.cat_query]. *)
Definition cat_layers (attention_weights : list attention) : result tensor :=
  match attention_weights with
  | [] => Raise (RuntimeError "torch.cat(): expected a non-empty list of Tensors")
  | a :: rest =>
      fold_left
        (fun acc x =>
           t <- acc ;;
           match x with
           | ATensor w => Torch.cat2_batch t w
           | AList _ => Raise (TypeError "expected Tensor as element of cat")
           end)
        rest
        (match a with
         | ATensor w => Ok w
         | AList _ => Raise (TypeError "expected Tensor as element of cat")
         end)
  end.

(** Line 525: [[w[:, :, :num_frames-1, :], w[:, :, -1:, :]]] for one layer. *)
Definition collapse_layer (num_frames : Z) (a : attention) : result attention :=
  match a with
  | ATensor w =>
      Ok (AList [Torch.queries_to (num_frames - 1) w; Torch.last_query w])
  | AList _ => Raise (TypeError "list indices must be integers or slices, not tuple")
  end.

Definition collapse_layers (num_frames : Z)
    (attention_weights : list attention) : result (list attention) :=
  Py.map_result (collapse_layer num_frames) attention_weights.

(** Lines 639-642: the second coordinates of the path at the steps where
    the first coordinate moves; the first step always counts. *)
Fixpoint jumps_from (previous : Z) (path : list (Z * Z)) : list Z :=
  match path with
  | [] => []
  | (i1, i2) :: rest =>
      if (i1 - previous =? 0)%Z then jumps_from i1 rest
      else i2 :: jumps_from i1 rest
  end.

Definition jumps_of (path : list (Z * Z)) : result (list Z) :=
  match path with
  | [] => Raise (IndexError "boolean index did not match indexed array")
  | (i1, i2) :: rest => Ok (i2 :: jumps_from i1 rest)
  end.

(** [np.cumsum(lens)] *)
Fixpoint cumsum (acc : nat) (lens : list nat) : list nat :=
  match lens with
  | [] => []
  | n :: rest => (acc + n)%nat :: cumsum (acc + n)%nat rest
  end.

(** [a[idx]] for an array [a] and an array of non-negative indices. *)
Fixpoint take (a : list Q) (idx : list nat) : result (list Q) :=
  match idx with
  | [] => Ok []
  | i :: rest =>
      match nth_error a i with
      | None => Raise (IndexError "index out of bounds")
      | Some x => xs <- take a rest ;; Ok (x :: xs)
      end
  end.

(** [a[1] = a[0]] *)
Definition copy_first_to_second (a : list Q) : result (list Q) :=
  match a with
  | x :: _ :: rest => Ok (x :: x :: rest)
  | _ => Raise (IndexError "index 1 is out of bounds")
  end.

(** [a[-2] = a[-1]] *)
Definition copy_last_to_before (a : list Q) : result (list Q) :=
  match rev a with
  | x :: _ :: rest => Ok (rev (x :: x :: rest))
  | _ => Raise (IndexError "index -2 is out of bounds")
  end.

(** [a[1:-1]] *)
Definition inner {A : Type} (a : list A) : list A := removelast (tl a).

(** Lines 687-692: the returned list of word dicts. *)
Fixpoint word_dicts (start_time : Q) (words : list pystr)
    (begin_times end_times : list Q) : list word :=
  match words, begin_times, end_times with
  | w :: words', b :: begin_times', e :: end_times' =>
      let rest := word_dicts start_time words' begin_times' end_times' in
      if negb (Py.startswith (Py.lit "<|") w)
      then mkWord w (round2 (b + start_time)) (round2 (e + start_time)) None
           :: rest
      else rest
  | _, _, _ => []
  end.

(** Lines 639-692: from the warping path to the word dicts.  An empty
    [word_tokens] makes [np.cumsum] a float array, which cannot index. *)
Definition words_from_path (path : list (Z * Z)) (words : list pystr)
    (word_tokens : list (list Segmenter.item))
    (refine_whisper_precision_nsamples : Z) (start_time end_time : Q)
    : result (list word) :=
  jumps <- jumps_of path ;;
  let jump_times :=
    map (fun j => inject_Z j * AUDIO_TIME_PER_TOKEN) jumps
    ++ [end_time - start_time] in
  _ <- match word_tokens with
       | [] => Raise (IndexError
                 "arrays used as indices must be of integer type")
       | _ :: _ => Ok tt
       end ;;
  let word_boundaries :=
    O :: cumsum 0 (map (@length Segmenter.item) word_tokens) in
  begin_times <- take jump_times (Py.but_last word_boundaries) ;;
  end_times <- take jump_times (tl word_boundaries) ;;
  let no_refine := (refine_whisper_precision_nsamples =? 0)%Z in
  begin_times <- (if no_refine then copy_first_to_second begin_times
                  else Ok begin_times) ;;
  end_times <- (if no_refine then copy_last_to_before end_times
                else Ok end_times) ;;
  Ok (word_dicts start_time (inner words) (inner begin_times)
        (inner end_times)).

Section WithAlignment.

(** Lines 544-571, the floating-point part: median filter, softmax,
    normalisation, mean over layers and heads, and [dtw.dtw] with the
    step pattern of the source.  It is taken as a function from the
    frame-restricted weights to the warping path, the list of
    [(index1s[k], index2s[k])]. *)
Variable alignment :
  tensor -> forall (medfilt_width : nat) (qk_scale : Q)
                   (most_top_layers : option nat), result (list (Z * Z)).

Variable tokenizer : Tokenizer.

(** [perform_word_alignment] with [plot=False].  The recursive call of
    line 523 consumes one unit of [fuel]. *)
Fixpoint perform_word_alignment (fuel : nat) (tokens : list Z)
    (attention_weights : list attention) (use_space : bool)
    (refine_whisper_precision_nsamples : Z)
    (add_even_if_missing_end_token : bool) (medfilt_width : nat)
    (qk_scale : Q) (most_top_layers : option nat)
    (remove_punctuation_from_words : bool) : option (result (list word)) :=
  match fuel with
  | O => None
  | S fuel' =>
    match check_shapes (length tokens) attention_weights with
    | Raise e => Some (Raise e)
    | Ok _ =>
    match tokens, Py.last_item tokens with
    | first :: _, Ok last =>
      let start_token := (first - timestamp_begin tokenizer)%Z in
      let end_token := (last - timestamp_begin tokenizer)%Z in
      if (start_token <? 0)%Z then
        Some (Raise (RuntimeError "Missing start token"))
      else if (length tokens =? 1)%nat || (end_token <? 0)%Z then
        if add_even_if_missing_end_token then
          Some (Ok [mkWord []
                      (round2 (inject_Z start_token * AUDIO_TIME_PER_TOKEN))
                      (round2 (inject_Z end_token * AUDIO_TIME_PER_TOKEN))
                      None])
        else Some (Ok [])
      else if (end_token =? start_token)%Z
              && (refine_whisper_precision_nsamples =? 0)%Z then
        Some (Ok [])
      else
        let refine := (0 <? refine_whisper_precision_nsamples)%Z in
        let start_token :=
          if refine
          then Z.max (start_token - refine_whisper_precision_nsamples) 0
          else start_token in
        let end_token :=
          if refine
          then Z.min (end_token + refine_whisper_precision_nsamples)
                     (N_FRAMES / 2)
          else end_token in
        if (end_token <=? start_token)%Z then
          Some (Raise (RuntimeError "Got segment with null or negative duration"))
        else
          let start_time := inject_Z start_token * AUDIO_TIME_PER_TOKEN in
          let end_time := inject_Z end_token * AUDIO_TIME_PER_TOKEN in
          match (if use_space
                 then Segmenter.split_tokens_on_spaces tokenizer tokens true
                        remove_punctuation_from_words
                 else Segmenter.split_tokens_on_unicode tokenizer tokens true
                        remove_punctuation_from_words false) with
          | Raise e => Some (Raise e)
          | Ok (words, word_tokens) =>
          match cat_layers attention_weights with
          | Raise e => Some (Raise e)
          | Ok weights =>
            let num_tokens := n_query weights in
            let num_frames := (end_token - start_token)%Z in
            if (num_frames <? Z.of_nat num_tokens)%Z then
              match collapse_layers num_frames attention_weights with
              | Raise e => Some (Raise e)
              | Ok collapsed =>
                  perform_word_alignment fuel'
                    (Py.slice_to (num_frames - 1) tokens ++ [last])
                    collapsed use_space refine_whisper_precision_nsamples
                    true medfilt_width qk_scale most_top_layers
                    remove_punctuation_from_words
              end
            else Some (
              _ <- py_assert (end_token <=? Z.of_nat (n_frame weights))%Z
                     "end_token <= weights.shape[-1]" ;;
              _ <- py_assert (length tokens =? num_tokens)%nat
                     "len(tokens) == num_tokens" ;;
              let weights := Torch.frames_between start_token end_token weights in
              path <- alignment weights medfilt_width qk_scale most_top_layers ;;
              words_from_path path words word_tokens
                refine_whisper_precision_nsamples start_time end_time)
          end
          end
    | _, _ => Some (Raise (AssertionError "Got unexpected empty sequence of tokens"))
    end
    end
  end.

End WithAlignment.

End Aligner.

(** ** Segment accumulator

    The variables and closures of [transcribe_timestamped] (lines 172-335),
    as a state record and state-passing functions. *)

Module Accumulator.

(** One entry of [chunk_logprobs]: the log-probabilities over the
    vocabulary after one step; [None] stands for a non-finite value. *)
Definition logprob_vector : Type := list (option Q).

Record state : Type := mkState {
  timestamped_word_segments : list (list word);
  tok_indices : list (list Z);
  tok_attweights : list (list tensor);         (* one list per decoder layer *)
  sot_index : option nat;
  no_speech_prob : option Q;
  chunk_logprobs : list logprob_vector;
  chunk_tokens : list (list Z);
  chunk_tokens_nosot : list Z;
  has_started : bool;
  saw_consecutive_timestamps : bool;
  index_begin_30sec_chunck : Z
}.

(** Lines 173-187 and 208, 227, for a decoder of [n_layers] blocks. *)
Definition initial (n_layers : nat) : state :=
  mkState [] [[]] (repeat [] n_layers) None None [] [] [] false true 0.

Definition with_tok (s : state) (ti : list (list Z))
    (aw : list (list tensor)) : state :=
  mkState (timestamped_word_segments s) ti aw (sot_index s)
    (no_speech_prob s) (chunk_logprobs s) (chunk_tokens s)
    (chunk_tokens_nosot s) (has_started s) (saw_consecutive_timestamps s)
    (index_begin_30sec_chunck s).

Definition with_saw (s : state) (b : bool) : state :=
  mkState (timestamped_word_segments s) (tok_indices s) (tok_attweights s)
    (sot_index s) (no_speech_prob s) (chunk_logprobs s) (chunk_tokens s)
    (chunk_tokens_nosot s) (has_started s) b (index_begin_30sec_chunck s).

Definition with_segments (s : state) (ws : list (list word)) : state :=
  mkState ws (tok_indices s) (tok_attweights s) (sot_index s)
    (no_speech_prob s) (chunk_logprobs s) (chunk_tokens s)
    (chunk_tokens_nosot s) (has_started s) (saw_consecutive_timestamps s)
    (index_begin_30sec_chunck s).

Definition with_index_begin (s : state) (i : Z) : state :=
  mkState (timestamped_word_segments s) (tok_indices s) (tok_attweights s)
    (sot_index s) (no_speech_prob s) (chunk_logprobs s) (chunk_tokens s)
    (chunk_tokens_nosot s) (has_started s) (saw_consecutive_timestamps s) i.

(** Lines 292-295 *)
Definition reset_counters (s : state) : state :=
  mkState (timestamped_word_segments s) (tok_indices s) (tok_attweights s)
    (sot_index s) None [] [] [] (has_started s)
    (saw_consecutive_timestamps s) (index_begin_30sec_chunck s).

(** [l.pop(0)], keeping the rest *)
Definition pop_front {A : Type} (l : list A) : result (list A) :=
  match l with
  | [] => Raise (IndexError "pop from empty list")
  | _ :: l' => Ok l'
  end.

(** [l[-2] = f(l[-2])] where [f] can raise *)
Definition update_before_last {A : Type} (f : A -> result A) (l : list A)
    : result (list A) :=
  match rev l with
  | x :: y :: rest => y' <- f y ;; Ok (rev (x :: y' :: rest))
  | _ => Raise (IndexError "list index out of range")
  end.

(** [reset(add_segment, keep_last_token)] (lines 189-206) *)
Definition reset (s : state) (add_segment keep_last_token : bool)
    : result state :=
  if add_segment then
    '(ti, aw) <-
      (if keep_last_token then
         cur <- Py.last_item (tok_indices s) ;;
         t <- Py.last_item cur ;;
         Ok (tok_indices s ++ [[t]], map Py.last_as_list (tok_attweights s))
       else
         Ok (tok_indices s ++ [[]], map (fun _ => []) (tok_attweights s))) ;;
    ti <- update_before_last pop_front ti ;;
    Ok (with_tok s ti aw)
  else
    cur <- Py.last_item (tok_indices s) ;;
    if (0 <? length cur)%nat then
      ti <- Py.update_last (fun _ => []) (tok_indices s) ;;
      Ok (with_tok s ti (map (fun _ => []) (tok_attweights s)))
    else Ok s.

(** Lines 270-289 on the statistics of the finished window.  The message
    of line 287 is built before the segments are dropped and reads
    [avg_logprob], a local variable bound only on line 281. *)
Definition index_logprob (v : logprob_vector) (i : Z) : result (option Q) :=
  let len := Z.of_nat (length v) in
  let j := if (i <? 0)%Z then (len + i)%Z else i in
  if (j <? 0)%Z || (len <=? j)%Z then
    Raise (IndexError "index out of range")
  else
    match nth_error v (Z.to_nat j) with
    | Some x => Ok x
    | None => Raise (IndexError "index out of range")
    end.

Fixpoint sum_finite (ps : list (option Q)) : option Q :=
  match ps with
  | [] => Some 0
  | None :: _ => None
  | Some p :: rest =>
      match sum_finite rest with
      | Some t => Some (p + t)
      | None => None
      end
  end.

Section WithModel.

Variable alignment :
  tensor -> forall (medfilt_width : nat) (qk_scale : Q)
                   (most_top_layers : option nat), result (list (Z * Z)).
Variable tokenizer : Tokenizer.

(** Options of [transcribe_timestamped] the closures read. *)
Variable use_space : bool.
Variable refine_whisper_precision_nsamples : Z.
Variable remove_punctuation_from_words : bool.
Variable no_speech_threshold : option Q.
Variable logprob_threshold : option Q.

(** [must_flush_segment(curr_tokens)] (lines 209-225); [None] is the
    Python [None] of the final call. *)
Definition must_flush_segment (s : state) (curr_tokens : option (list Z))
    : result (state * bool) :=
  match curr_tokens with
  | Some [t] =>
      cur <- Py.last_item (tok_indices s) ;;
      let last_token := match rev cur with [] => 0%Z | x :: _ => x end in
      let consecutive_timestamps :=
        (timestamp_begin tokenizer <=? t)%Z
        && (timestamp_begin tokenizer <=? last_token)%Z in
      Ok (if consecutive_timestamps then with_saw s true else s,
          consecutive_timestamps)
  | _ =>
      let must_flush := negb (saw_consecutive_timestamps s) in
      s <- (if negb must_flush then reset s false true else Ok s) ;;
      Ok (with_saw s false, must_flush)
  end.

(** [get_index_begin_30sec_chunck(curr_tokens)] (lines 228-234) *)
Definition get_index_begin_30sec_chunck (s : state)
    (curr_tokens : option (list Z)) : state * option Z :=
  let is_prompt :=
    match curr_tokens with
    | None => true
    | Some l => (1 <? length l)%nat
    end in
  if is_prompt then
    (with_index_begin s (Z.of_nat (length (tok_indices s)) - 1),
     Some (index_begin_30sec_chunck s))
  else (s, None).

(** Lines 276-284: the average log-probability of the chosen tokens of
    the window and of the end-of-text token. *)
Definition average_logprob (s : state) : result Q :=
  let chunck_indices := chunk_tokens_nosot s ++ [eot tokenizer] in
  _ <- py_assert (length (chunk_logprobs s) =? length chunck_indices)%nat
         "len(chunk_logprobs) != len(chunck_indices)" ;;
  logprobs <- Py.map_result (fun '(v, i) => index_logprob v i)
                (combine (chunk_logprobs s) chunck_indices) ;;
  match sum_finite logprobs with
  | None => Raise (AssertionError "Got infinite logprob")
  | Some sum_logprob =>
      Ok (sum_logprob / inject_Z (Z.of_nat (length logprobs)))
  end.

(** Lines 266-295 *)
Definition filter_window (s : state) (i_start : Z) : result state :=
  s <-
    match no_speech_threshold with
    | None => Ok s
    | Some threshold =>
        p <- match no_speech_prob s with
             | Some p => Ok p
             | None => Raise (TypeError
                 "'>' not supported between 'NoneType' and 'float'")
             end ;;
        let should_skip := Qltb threshold p in
        '(should_skip, avg_logprob) <-
          match logprob_threshold with
          | Some lp_threshold =>
              if should_skip then
                avg_logprob <- average_logprob s ;;
                Ok (if Qltb lp_threshold avg_logprob then false
                    else should_skip, Some avg_logprob)
              else Ok (should_skip, None)
          | None => Ok (should_skip, None)
          end ;;
        if should_skip then
          match avg_logprob with
          | None => Raise (UnboundLocalError "avg_logprob")
          | Some _ =>
              cur <- Py.last_item (tok_indices s) ;;
              Ok (with_segments
                    (with_tok s (Py.slice_to i_start (tok_indices s) ++ [cur])
                       (tok_attweights s))
                    (Py.slice_to i_start (timestamped_word_segments s)))
          end
        else Ok s
    end ;;
  Ok (reset_counters s).

(** [may_flush_segment(curr_tokens)] (lines 236-295); [fuel] bounds the
    recursion of [perform_word_alignment], [None] when it runs out. *)
Definition may_flush_segment (fuel : nat) (s : state)
    (curr_tokens : option (list Z)) : option (result state) :=
  match must_flush_segment s curr_tokens with
  | Raise e => Some (Raise e)
  | Ok (s, flush) =>
    let flushed : option (result state) :=
      if flush then
        match (cur <- Py.last_item (tok_indices s) ;;
               aw <- Py.map_result (fun w => Torch.cat_query (Py.but_last w))
                       (tok_attweights s) ;;
               Ok (cur, aw)) with
        | Raise e => Some (Raise e)
        | Ok (cur, aw) =>
            match Aligner.perform_word_alignment alignment tokenizer fuel
                    (tl cur) (map Aligner.ATensor aw) use_space
                    refine_whisper_precision_nsamples true 9 1 None
                    remove_punctuation_from_words with
            | None => None
            | Some (Raise e) => Some (Raise e)
            | Some (Ok ws) =>
                let add_segment := (0 <? length ws)%nat in
                let s := if add_segment
                         then with_segments s
                                (timestamped_word_segments s ++ [ws])
                         else s in
                Some (reset s add_segment
                        match curr_tokens with
                        | Some l => (length l =? 1)%nat
                        | None => false
                        end)
            end
        end
      else Some (Ok s) in
    match flushed with
    | None => None
    | Some (Raise e) => Some (Raise e)
    | Some (Ok s) =>
        let '(s, i_start) := get_index_begin_30sec_chunck s curr_tokens in
        match i_start with
        | Some i_start =>
            if has_started s then Some (filter_window s i_start)
            else Some (Ok s)
        | None => Some (Ok s)
        end
    end
  end.

(** [hook_attention_weights] (lines 297-305) for layer [index] *)
Definition hook_attention_weights (s : state) (index : nat) (w : tensor)
    : result state :=
  let w := if (1 <? n_query w)%nat then Torch.last_query w else w in
  match nth_error (tok_attweights s) index with
  | None => Raise (IndexError "list index out of range")
  | Some ws =>
      Ok (with_tok s (tok_indices s)
            (firstn index (tok_attweights s) ++ [ws ++ [w]]
             ++ skipn (S index) (tok_attweights s)))
  end.

(** Index of the first occurrence, [l.index(x)] *)
Fixpoint index_of (x : Z) (l : list Z) : result nat :=
  match l with
  | [] => Raise (ValueError "is not in list")
  | y :: l' => if (y =? x)%Z then Ok O else i <- index_of x l' ;; Ok (S i)
  end.

(** [hook_input_tokens] (lines 307-335).  The language and logit-filter
    bookkeeping of lines 312-316 feeds only the decoder and is left out. *)
Definition hook_input_tokens (fuel : nat) (s : state) (curr_tokens : list Z)
    : option (result state) :=
  match may_flush_segment fuel s (Some curr_tokens) with
  | None => None
  | Some r => Some (
      s <- r ;;
      t <- Py.last_item curr_tokens ;;
      ti <- Py.update_last (fun cur => cur ++ [t]) (tok_indices s) ;;
      let s := with_tok s ti (tok_attweights s) in
      let prompt := (1 <? length curr_tokens)%nat in
      sot_idx <-
        (if prompt then
           match no_speech_threshold with
           | Some _ => i <- index_of (sot tokenizer) curr_tokens ;; Ok (Some i)
           | None => Ok (sot_index s)
           end
         else Ok None) ;;
      let started := has_started s || prompt in
      Ok (mkState (timestamped_word_segments s) (tok_indices s)
            (tok_attweights s) sot_idx (no_speech_prob s) (chunk_logprobs s)
            (if started then chunk_tokens s ++ [curr_tokens]
             else chunk_tokens s)
            (if started && (length curr_tokens =? 1)%nat
             then chunk_tokens_nosot s ++ [t] else chunk_tokens_nosot s)
            started (saw_consecutive_timestamps s)
            (index_begin_30sec_chunck s)))
  end.

(** [hook_output_logits] (lines 350-369), registered only when
    [no_speech_threshold] is set.  The softmax over the tied output
    embedding is floating point; the hook is given its results: the
    no-speech probability at the start-of-transcript position and the
    filtered log-probabilities of the last position. *)
Definition hook_output_logits (s : state) (p_no_speech : Q)
    (logprobs : logprob_vector) : state :=
  match no_speech_threshold with
  | None => s
  | Some _ =>
      mkState (timestamped_word_segments s) (tok_indices s)
        (tok_attweights s) (sot_index s)
        (match sot_index s with
         | Some _ => Some p_no_speech
         | None => no_speech_prob s
         end)
        (if has_started s then chunk_logprobs s ++ [logprobs]
         else chunk_logprobs s)
        (chunk_tokens s) (chunk_tokens_nosot s) (has_started s)
        (saw_consecutive_timestamps s) (index_begin_30sec_chunck s)
  end.

End WithModel.

End Accumulator.

(** ** The decoding loop as a sequence of hook calls

    [model.transcribe] (line 373) drives the hooks: at every decoder step
    the token embedding calls [hook_input_tokens], every block's
    cross-attention calls [hook_attention_weights] and the final layer
    norm calls [hook_output_logits]; lines 391-392 make the last call of
    [may_flush_segment]. *)

Module Decoding.
Import Accumulator.

Inductive event : Type :=
| Tokens (curr_tokens : list Z)
| Attention (index : nat) (w : tensor)
| Logits (p_no_speech : Q) (logprobs : logprob_vector)
| Finish.

Section WithModel.

Variable alignment :
  tensor -> forall (medfilt_width : nat) (qk_scale : Q)
                   (most_top_layers : option nat), result (list (Z * Z)).
Variable tokenizer : Tokenizer.
Variable use_space : bool.
Variable refine_whisper_precision_nsamples : Z.
Variable remove_punctuation_from_words : bool.
Variable no_speech_threshold : option Q.
Variable logprob_threshold : option Q.
Variable fuel : nat.

Definition step (s : state) (e : event) : option (result state) :=
  match e with
  | Tokens curr_tokens =>
      hook_input_tokens alignment tokenizer use_space
        refine_whisper_precision_nsamples remove_punctuation_from_words
        no_speech_threshold logprob_threshold fuel s curr_tokens
  | Attention index w => Some (hook_attention_weights s index w)
  | Logits p logprobs =>
      Some (Ok (hook_output_logits no_speech_threshold s p logprobs))
  | Finish =>
      may_flush_segment alignment tokenizer use_space
        refine_whisper_precision_nsamples remove_punctuation_from_words
        no_speech_threshold logprob_threshold fuel s None
  end.

Fixpoint run (s : state) (events : list event) : option (result state) :=
  match events with
  | [] => Some (Ok s)
  | e :: rest =>
      match step s e with
      | Some (Ok s') => run s' rest
      | other => other
      end
  end.

End WithModel.

End Decoding.

(** ** A small tokenizer, tensors and warping path for running the model *)

Module Toy.

(** Vocabulary: 0 " Hello", 1 " world", 2 ",", 3 "!", 4 " ,", 7 "Hi";
    5 and 6 are the two halves of one character (U+00E9), each of which
    decodes on its own to the replacement character; 50 and 51 are the
    end-of-text and start-of-transcript markers; ids from 100 on are
    timestamps, rendered by their frame number. *)
Definition piece (t : Z) : pystr :=
  if (100 <=? t)%Z then
    let k := Z.to_N (t - 100) in
    Py.lit "<|" ++ [48 + (k / 100) mod 10; 48 + (k / 10) mod 10; 48 + k mod 10]%N
    ++ Py.lit "|>"
  else if (t =? 0)%Z then Py.lit " Hello"
  else if (t =? 1)%Z then Py.lit " world"
  else if (t =? 2)%Z then Py.lit ","
  else if (t =? 3)%Z then Py.lit "!"
  else if (t =? 4)%Z then Py.lit " ,"
  else if (t =? 7)%Z then Py.lit "Hi"
  else if (t =? 50)%Z then Py.lit "<|endoftext|>"
  else if (t =? 51)%Z then Py.lit "<|startoftranscript|>"
  else if (t =? 5)%Z || (t =? 6)%Z then [Segmenter.replacement_char]
  else [].

Fixpoint decode (tokens : list Z) : pystr :=
  match tokens with
  | [] => []
  | t :: rest =>
      match rest with
      | u :: rest' =>
          if (t =? 5)%Z && (u =? 6)%Z then 233%N :: decode rest'
          else piece t ++ decode rest
      | [] => piece t
      end
  end.

Definition tokenizer : Tokenizer := mkTokenizer decode 100 50 51.

(** A tensor of the given shape with constant entries. *)
Definition uniform (heads queries frames : nat) : tensor :=
  mkTensor 1 heads queries frames (fun _ _ _ _ => 1).

(** A warping path over a [queries] by [frames] matrix: down the
    diagonal, then along the last row; none when there are more rows
    than columns. *)
Definition alignment (w : tensor) (medfilt_width : nat) (qk_scale : Q)
    (most_top_layers : option nat) : result (list (Z * Z)) :=
  if (n_frame w <? n_query w)%nat then
    Raise (ValueError "No warping path found")
  else
    Ok (map (fun i => (Z.of_nat i, Z.of_nat i)) (seq 0 (n_query w))
        ++ map (fun j => (Z.of_nat (n_query w) - 1, Z.of_nat j)%Z)
             (seq (n_query w) (n_frame w - n_query w))).

(** Two decoding runs of a one-layer decoder.  Both start with the
    prompt [51; 60; 61] and decode [<|0.00|> Hello world <|0.20|>]; the
    first one goes on with a second [<|0.20|>], so that its output ends
    on two consecutive timestamps. *)
Definition one_step (t : Z) : list Decoding.event :=
  [Decoding.Tokens [t]; Decoding.Attention 0 (uniform 6 1 1500)].

Definition prompt : list Z := [51; 60; 61]%Z.

Definition prompt_step : list Decoding.event :=
  [Decoding.Tokens prompt; Decoding.Attention 0 (uniform 6 3 1500)].

Definition run_single_timestamp : list Decoding.event :=
  prompt_step ++ one_step 100 ++ one_step 0 ++ one_step 1 ++ one_step 110.

Definition run_consecutive_timestamps : list Decoding.event :=
  run_single_timestamp ++ one_step 110.

(** The same first run with the statistics the silence filter reads: a
    no-speech probability of 0.9 and log-probability vectors over a
    vocabulary of 111 ids in which every id has log-probability -2. *)
Definition flat_logprobs : Accumulator.logprob_vector :=
  repeat (Some (-2)) 111.

Definition one_step_logits (t : Z) : list Decoding.event :=
  one_step t ++ [Decoding.Logits (9 # 10) flat_logprobs].

Definition run_silent_window : list Decoding.event :=
  prompt_step ++ [Decoding.Logits (9 # 10) flat_logprobs]
  ++ one_step_logits 100 ++ one_step_logits 0 ++ one_step_logits 1
  ++ one_step_logits 110.

End Toy.


(** ** Predicates used to state the properties of the enforcer *)

(** Times that are a whole number of hundredths. *)
Definition on_grid (q : Q) : Prop := exists z : Z, q == inject_Z z / 100.

(** A word whose times are whole hundredths. *)
Definition grid_word (w : word) : Prop := on_grid (start w) /\ on_grid (end_ w).

(** The end of [segments[i-1]], or the initial [previous_end]. *)
Definition last_end (done : list word) : Q :=
  match done with
  | [] => 0
  | d :: _ => end_ d
  end.

(** What one pass establishes, read from the front of a list ... *)
Fixpoint settled (m : Q) (previous_end : Q) (l : list word) : Prop :=
  match l with
  | [] => True
  | w :: rest =>
      previous_end <= start w /\ start w + m <= end_ w /\ settled m (end_ w) rest
  end.

(** ... and from the back of the part already visited. *)
Fixpoint rsettled (m : Q) (done : list word) : Prop :=
  match done with
  | [] => True
  | d :: before =>
      last_end before <= start d /\ start d + m <= end_ d /\ rsettled m before
  end.

(** The second loop: what its assertions leave true. *)
Fixpoint chain (previous_end : Q) (l : list word) : Prop :=
  match l with
  | [] => True
  | w :: rest =>
      previous_end <= start w /\ start w < end_ w /\ chain (end_ w) rest
  end.


(** ** Decoded units, used to state the properties of the segmenter *)

Module Units.

Definition complete (tokenizer : Tokenizer) (current_tokens : list Z) : bool :=
  negb (existsb (N.eqb Segmenter.replacement_char)
          (decode_with_timestamps tokenizer current_tokens)).

(** The token groups [split_tokens_on_unicode] decodes as one unit: each
    is the shortest run of tokens, from the end of the previous unit, whose
    decoding has no replacement character. *)
Fixpoint units_loop (tokenizer : Tokenizer) (current_tokens tokens : list Z)
    : list (list Z) :=
  match tokens with
  | [] => []
  | token :: rest =>
      let current_tokens := current_tokens ++ [token] in
      if complete tokenizer current_tokens
      then current_tokens :: units_loop tokenizer [] rest
      else units_loop tokenizer current_tokens rest
  end.

Definition units (tokenizer : Tokenizer) (tokens : list Z) : list (list Z) :=
  units_loop tokenizer [] tokens.

(** The tokens after the last unit, still in [current_tokens] when the
    loop ends. *)
Fixpoint pending_loop (tokenizer : Tokenizer) (current_tokens tokens : list Z)
    : list Z :=
  match tokens with
  | [] => current_tokens
  | token :: rest =>
      let current_tokens := current_tokens ++ [token] in
      if complete tokenizer current_tokens
      then pending_loop tokenizer [] rest
      else pending_loop tokenizer current_tokens rest
  end.

Definition pending (tokenizer : Tokenizer) (tokens : list Z) : list Z :=
  pending_loop tokenizer [] tokens.

(** The text of the first decoded unit, if there is one. *)
Definition first_unit (tokenizer : Tokenizer) (tokens : list Z)
    : option pystr :=
  match units tokenizer tokens with
  | [] => None
  | u :: _ => Some (decode_with_timestamps tokenizer u)
  end.

(** The element a decoded unit adds to a span of a punctuation unit. *)
Definition punctuation_item (tokenizer : Tokenizer) (tokens_as_string : bool)
    (current_tokens : list Z)
    : Segmenter.item :=
  if tokens_as_string
  then Segmenter.IStr (Py.strip (decode_with_timestamps tokenizer current_tokens))
  else Segmenter.IToks current_tokens.

(** The span a decoded unit opens otherwise. *)
Definition fresh_span (tokenizer : Tokenizer) (tokens_as_string : bool)
    (current_tokens : list Z)
    : list Segmenter.item :=
  if tokens_as_string
  then [Segmenter.IStr (Py.strip (decode_with_timestamps tokenizer current_tokens))]
  else map Segmenter.ITok current_tokens.

(** A span whose first element is a string. *)
Definition first_is_str (span : list Segmenter.item) : Prop :=
  exists s rest, span = Segmenter.IStr s :: rest.

(** The first word and the first span open with the unit of text [d]. *)
Definition opens_with (d : pystr) (words : list pystr)
    (word_tokens : list (list Segmenter.item)) : Prop :=
  exists x wrest s srest,
    words = (d ++ x) :: wrest
    /\ word_tokens = (Segmenter.IStr (Py.strip d) :: s) :: srest.

(** [text.strip() in _punctuation] *)
Definition is_punctuation (text : pystr) : bool :=
  Py.contains (Py.strip text) Segmenter._punctuation.

End Units.

(** ** List helpers used in the proofs *)

(** The list [update_last f l] returns when [l] is not empty. *)
Fixpoint map_last {A : Type} (f : A -> A) (l : list A) : list A :=
  match l with
  | [] => []
  | [x] => [f x]
  | x :: l' => x :: map_last f l'
  end.

(** [l], or the one-element list [[x]] when [l] is empty (lines 708-710). *)
Definition or_single {A : Type} (x : A) (l : list A) : list A :=
  match l with
  | [] => [x]
  | _ :: _ => l
  end.

(** ** Warping paths, used to state what the alignment is assumed to return *)

(** [l] never decreases, starts at or above [lo] and stays at or below [hi]. *)
Fixpoint ascending_within (lo hi : Z) (l : list Z) : Prop :=
  match l with
  | [] => (lo <= hi)%Z
  | x :: rest => (lo <= x)%Z /\ ascending_within x hi rest
  end.

(** A path whose frame coordinate never goes back and stays within the
    [frames] columns of the matrix. *)
Definition frames_ascend (frames : nat) (path : list (Z * Z)) : Prop :=
  ascending_within 0 (Z.of_nat frames) (map snd path).

(** [l] never decreases and starts at or above [lo]. *)
Fixpoint ascending (lo : Q) (l : list Q) : Prop :=
  match l with
  | [] => True
  | x :: rest => lo <= x /\ ascending x rest
  end.

Fixpoint ascending_nat (lo : nat) (l : list nat) : Prop :=
  match l with
  | [] => True
  | x :: rest => (lo <= x)%nat /\ ascending_nat x rest
  end.

(** ** Folding the words back onto the transcript (lines 395-456) *)

Module Merge.

(** 160 and 16000, [whisper.audio.HOP_LENGTH] and [SAMPLE_RATE] *)
Definition HOP_LENGTH : Q := 160.
Definition SAMPLE_RATE : Q := 16000.

(** One element of [transcription["segments"]]: the keys the code reads
    or writes.  [seg_words] is [None] while the dict has no ["words"]
    key. *)
Record segment : Type := mkSegment {
  seek : Z;
  seg_start : Q;
  seg_end : Q;
  seg_text : pystr;
  seg_tokens : list Z;
  seg_words : option (list word)
}.

(** First loop of [filter_tokens] (lines 398-399) *)
Fixpoint drop_special_front (token_special_idx : Z) (tokens : list Z)
    : list Z :=
  match tokens with
  | [] => []
  | t :: rest =>
      if (token_special_idx <=? t)%Z
      then drop_special_front token_special_idx rest
      else tokens
  end.

(** [filter_tokens(tokens)] (lines 397-402); the second loop works from
    the end of the list. *)
Definition filter_tokens (token_special_idx : Z) (tokens : list Z) : list Z :=
  rev (drop_special_front token_special_idx
         (rev (drop_special_front token_special_idx tokens))).

Fixpoint tokens_eqb (a b : list Z) : bool :=
  match a, b with
  | [], [] => true
  | x :: a', y :: b' => (x =? y)%Z && tokens_eqb a' b'
  | _, _ => false
  end.

(** Lines 415-419: the tokens collected for a segment against the
    tokens the decoding loop reports for it. *)
Definition check_tokens (token_special_idx : Z) (token : list Z)
    (seg : segment) : result unit :=
  let timestamped_tokens := filter_tokens token_special_idx token in
  let whisper_tokens := filter_tokens token_special_idx (seg_tokens seg) in
  if negb (tokens_eqb timestamped_tokens whisper_tokens) then
    py_assert
      ((length timestamped_tokens <? length whisper_tokens)%nat
       && tokens_eqb timestamped_tokens
            (Py.slice_to (Z.of_nat (length timestamped_tokens)) whisper_tokens))
      "Got inconsistent segments"
  else Ok tt.

(** Lines 421-425 for one word of segment [i] *)
Definition shift_and_tag (offset : Q) (i : nat) (w : word) : word :=
  mkWord (text w) (start w + offset) (end_ w + offset) (Some i).

(** The loop of lines 414-438 over the zipped lists, from index [i]. *)
Fixpoint collect_words (token_special_idx : Z) (i : nat)
    (whisper_segments : list segment)
    (timestamped_word_segments : list (list word))
    (tok_indices : list (list Z)) : result (list word) :=
  match whisper_segments, timestamped_word_segments, tok_indices with
  | seg :: segs, timestamped_words :: tws, token :: toks =>
      _ <- check_tokens token_special_idx token seg ;;
      let offset := inject_Z (seek seg) * HOP_LENGTH / SAMPLE_RATE in
      rest <- collect_words token_special_idx (S i) segs tws toks ;;
      Ok (map (shift_and_tag offset i) timestamped_words ++ rest)
  | _, _, _ => Ok []
  end.

(** [l[i] = x] *)
Fixpoint set_nth {A : Type} (i : nat) (x : A) (l : list A) : list A :=
  match l, i with
  | [], _ => []
  | _ :: l', O => x :: l'
  | y :: l', S j => y :: set_nth j x l'
  end.

(** Lines 447-454 for one word: the word leaves its [idx_segment] key
    and joins the segment of that index. *)
Definition attach_to (seg : segment) (w : word) : segment :=
  let w' := mkWord (text w) (start w) (end_ w) None in
  match seg_words seg with
  | Some ws =>
      mkSegment (seek seg) (seg_start seg) (end_ w) (seg_text seg)
        (seg_tokens seg) (Some (ws ++ [w']))
  | None =>
      mkSegment (seek seg) (start w) (end_ w) (seg_text seg)
        (seg_tokens seg) (Some [w'])
  end.

(** The loop of lines 444-454.  [word.pop] on a word without the key
    raises [KeyError], which the exception type renders as an
    [IndexError] with that name in its message; every word the merge
    passes here carries the key. *)
Fixpoint attach_words (whisper_segments : list segment) (words : list word)
    : result (list segment) :=
  match words with
  | [] => Ok whisper_segments
  | w :: rest =>
      match idx_segment w with
      | None => Raise (IndexError "KeyError: 'idx_segment'")
      | Some i =>
          match nth_error whisper_segments i with
          | None => Raise (IndexError "list index out of range")
          | Some seg =>
              attach_words (set_nth i (attach_to seg w) whisper_segments) rest
          end
      end
  end.

(** Lines 404-456: from the lists the hooks collected (after the
    [tok_indices.pop(-1)] of line 393) and the segments of the decoding
    loop to the segments with their words.  [fuel] bounds the recursion
    of [ensure_increasing_positions]. *)
Definition merge_words (token_special_idx : Z) (min_word_duration : Q)
    (fuel : nat) (whisper_segments : list segment)
    (timestamped_word_segments : list (list word))
    (tok_indices : list (list Z)) : option (result (list segment)) :=
  match
    (_ <- py_assert (length tok_indices =? length timestamped_word_segments)%nat
            "Inconsistent number of segments: tokens" ;;
     _ <- py_assert
            ((length whisper_segments =? length timestamped_word_segments)%nat
             || (length whisper_segments =? 0)%nat)
            "Inconsistent number of segments: whisper_segments" ;;
     collect_words token_special_idx 0 whisper_segments
       timestamped_word_segments tok_indices)
  with
  | Raise e => Some (Raise e)
  | Ok words =>
      match Enforcer.ensure_increasing_positions fuel words
              min_word_duration with
      | None => None
      | Some (Raise e) => Some (Raise e)
      | Some (Ok words) => Some (attach_words whisper_segments words)
      end
  end.

(** The words of [words] tagged with segment [i]. *)
Definition tagged (i : nat) (words : list word) : list word :=
  filter (fun w => match idx_segment w with
                   | Some j => (j =? i)%nat
                   | None => false
                   end) words.

End Merge.

(** ** Predicates used to state further properties *)

(** Two words with the same text, segment tag and (equal) times. *)
Definition same_word (a b : word) : Prop :=
  text a = text b /\ idx_segment a = idx_segment b
  /\ start a == start b /\ end_ a == end_ b.

(** The text a decoded unit adds to the words of
    [split_tokens_on_unicode]: its decoding, or nothing when it is
    punctuation and punctuation is removed. *)
Definition unit_text (tokenizer : Tokenizer) (remove isolate : bool)
    (u : list Z) : pystr :=
  let decoded := decode_with_timestamps tokenizer u in
  if remove && negb isolate && Units.is_punctuation decoded
  then [] else decoded.

(** The bounds of the alignment window in frames, after the refinement
    of lines 504-506 of [perform_word_alignment]. *)
Definition window_start (tokenizer : Tokenizer) (refine : Z) (first : Z) : Z :=
  let start_token := (first - timestamp_begin tokenizer)%Z in
  if (0 <? refine)%Z then Z.max (start_token - refine) 0 else start_token.

Definition window_end (tokenizer : Tokenizer) (refine : Z) (last : Z) : Z :=
  let end_token := (last - timestamp_begin tokenizer)%Z in
  if (0 <? refine)%Z then Z.min (end_token + refine) (Aligner.N_FRAMES / 2)
  else end_token.

(** Words that come one after the other from [previous_end] on: none
    starts before the one before it ends, none ends before it starts. *)
Fixpoint in_sequence (previous_end : Q) (l : list word) : Prop :=
  match l with
  | [] => True
  | w :: rest =>
      previous_end <= start w /\ start w <= end_ w /\ in_sequence (end_ w) rest
  end.

(** The same for a list of begin times and a list of end times. *)
Fixpoint stair (lo : Q) (begin_times end_times : list Q) : Prop :=
  match begin_times, end_times with
  | b :: bs, e :: es => lo <= b /\ b <= e /\ stair e bs es
  | _, _ => True
  end.

(** ** Invariants of the state the hooks accumulate *)

(** A tensor with one query row, as [hook_attention_weights] stores
    them, of the given other dimensions. *)
Definition one_row (b h f : nat) (w : tensor) : Prop :=
  n_batch w = b /\ n_head w = h /\ n_query w = 1%nat /\ n_frame w = f.

(** Every layer holds one-row tensors, [k] less of them than the open
    buffer [tok_indices[-1]] holds tokens. *)
Definition balanced_but (k b h f : nat) (s : Accumulator.state) : Prop :=
  exists before cur,
    Accumulator.tok_indices s = before ++ [cur]
    /\ Forall (fun layer => (length layer + k)%nat = length cur
                            /\ Forall (one_row b h f) layer)
         (Accumulator.tok_attweights s).

Definition balanced (b h f : nat) (s : Accumulator.state) : Prop :=
  balanced_but 0 b h f s.

(** The hooks one call of the decoder fires, in order: the token
    embedding, the cross attention of every block, the final layer
    norm. *)
Definition attention_events (first : nat) (ws : list tensor)
    : list Decoding.event :=
  map (fun '(i, w) => Decoding.Attention i w)
    (combine (seq first (length ws)) ws).

Definition decoder_call (curr_tokens : list Z) (ws : list tensor)
    (p_no_speech : Q) (logprobs : Accumulator.logprob_vector)
    : list Decoding.event :=
  Decoding.Tokens curr_tokens
  :: attention_events 0 ws ++ [Decoding.Logits p_no_speech logprobs].

(** The statistics of the window in progress hold one vector of
    log-probabilities per decoder call since the prompt. *)
Definition counted (s : Accumulator.state) : Prop :=
  if Accumulator.has_started s
  then length (Accumulator.chunk_logprobs s)
       = S (length (Accumulator.chunk_tokens_nosot s))
  else Accumulator.chunk_logprobs s = []
       /\ Accumulator.chunk_tokens_nosot s = [].

(** One token list more than there are word lists: the open buffer. *)
Definition one_open (s : Accumulator.state) : Prop :=
  length (Accumulator.tok_indices s)
  = S (length (Accumulator.timestamped_word_segments s)).

(** Two states with the same window statistics and flags. *)
Definition same_window (s s' : Accumulator.state) : Prop :=
  Accumulator.sot_index s' = Accumulator.sot_index s
  /\ Accumulator.no_speech_prob s' = Accumulator.no_speech_prob s
  /\ Accumulator.chunk_logprobs s' = Accumulator.chunk_logprobs s
  /\ Accumulator.chunk_tokens s' = Accumulator.chunk_tokens s
  /\ Accumulator.chunk_tokens_nosot s' = Accumulator.chunk_tokens_nosot s
  /\ Accumulator.has_started s' = Accumulator.has_started s.

(** [curr_tokens is None or len(curr_tokens) > 1] *)
Definition is_prompt (curr_tokens : option (list Z)) : bool :=
  match curr_tokens with
  | None => true
  | Some l => (1 <? length l)%nat
  end.
(** * Properties *)

(** ** Comparisons and rounding *)

Lemma Qltb_lt (a b : Q) : Qltb a b = true <-> a < b.
Proof.
  unfold Qltb. rewrite negb_true_iff.
  split; intro H.
  - apply Qnot_le_lt. intro Hle. apply Qle_bool_iff in Hle. congruence.
  - destruct (Qle_bool b a) eqn:E; [|reflexivity].
    apply Qle_bool_iff in E. exfalso. apply (Qlt_not_le _ _ H E).
Qed.

Lemma Qltb_ge (a b : Q) : Qltb a b = false <-> b <= a.
Proof.
  unfold Qltb. rewrite negb_false_iff. apply Qle_bool_iff.
Qed.

Lemma Qleb_le (a b : Q) : Qleb a b = true <-> a <= b.
Proof. apply Qle_bool_iff. Qed.

Lemma Qleb_gt (a b : Q) : Qleb a b = false <-> b < a.
Proof.
  unfold Qleb. split; intro H.
  - apply Qnot_le_lt. intro Hle. apply Qle_bool_iff in Hle. congruence.
  - destruct (Qle_bool a b) eqn:E; [|reflexivity].
    apply Qle_bool_iff in E. exfalso. apply (Qlt_not_le _ _ H E).
Qed.

Lemma round_half_even_Z (z : Z) : round_half_even (inject_Z z) = z.
Proof.
  unfold round_half_even. rewrite Qfloor_Z.
  assert (E : (inject_Z z - inject_Z z ?= 1 # 2) = Lt).
  { rewrite <- Qlt_alt.
    setoid_replace (inject_Z z - inject_Z z) with 0 by ring. reflexivity. }
  rewrite E. reflexivity.
Qed.

Lemma round_half_even_comp (a b : Q) :
  a == b -> round_half_even a = round_half_even b.
Proof.
  intro H. unfold round_half_even.
  rewrite (Qfloor_comp _ _ H).
  assert (E : (a - inject_Z (Qfloor b) ?= 1 # 2)
              = (b - inject_Z (Qfloor b) ?= 1 # 2)).
  { apply Qcompare_comp; [rewrite H|]; reflexivity. }
  rewrite E. reflexivity.
Qed.

Lemma round2_on_grid (q : Q) : on_grid q -> round2 q == q.
Proof.
  intros [z Hz]. unfold round2.
  rewrite (round_half_even_comp (q * 100) (inject_Z z)).
  - rewrite round_half_even_Z, Hz. reflexivity.
  - rewrite Hz. field.
Qed.

Lemma on_grid_round2 (q : Q) : on_grid (round2 q).
Proof. exists (round_half_even (q * 100)). reflexivity. Qed.

Lemma on_grid_plus (a b : Q) : on_grid a -> on_grid b -> on_grid (a + b).
Proof.
  intros [x Hx] [y Hy]. exists (x + y)%Z.
  rewrite Hx, Hy, inject_Z_plus. field.
Qed.

Lemma on_grid_0 : on_grid 0.
Proof. exists 0%Z. reflexivity. Qed.

(** [round(x, 2)] is monotone. *)
Lemma round_half_even_bounds (q : Q) :
  (Qfloor q <= round_half_even q <= Qfloor q + 1)%Z.
Proof.
  unfold round_half_even.
  destruct (q - inject_Z (Qfloor q) ?= 1 # 2); [destruct (Z.even _)| |]; lia.
Qed.

Lemma round_half_even_le (a b : Q) :
  a <= b -> (round_half_even a <= round_half_even b)%Z.
Proof.
  intro H. assert (Hf := Qfloor_resp_le _ _ H).
  destruct (Z.eq_dec (Qfloor a) (Qfloor b)) as [E|N].
  - unfold round_half_even. rewrite <- E.
    destruct (a - inject_Z (Qfloor a) ?= 1 # 2) eqn:Ca;
      destruct (b - inject_Z (Qfloor a) ?= 1 # 2) eqn:Cb;
      try (destruct (Z.even (Qfloor a))); try lia; exfalso;
      first [apply <- Qeq_alt in Ca | apply <- Qlt_alt in Ca
            | apply <- Qgt_alt in Ca];
      first [apply <- Qeq_alt in Cb | apply <- Qlt_alt in Cb
            | apply <- Qgt_alt in Cb];
      lra.
  - assert (Ha := round_half_even_bounds a).
    assert (Hb := round_half_even_bounds b). lia.
Qed.

Lemma round2_le (a b : Q) : a <= b -> round2 a <= round2 b.
Proof.
  intro H. unfold round2.
  assert (Hz : (round_half_even (a * 100) <= round_half_even (b * 100))%Z).
  { apply round_half_even_le. lra. }
  apply (Qmult_le_compat_r _ _ (/ 100)); [|discriminate].
  rewrite <- Zle_Qle. exact Hz.
Qed.

(** ** The enforcer *)

Module EnforcerFacts.
Import Enforcer.

Section Pass.

Variable m : Q.




Lemma stretch_start (w : word) : start (stretch m w) = start w.
Proof. unfold stretch. destruct (Qleb _ _); reflexivity. Qed.

Lemma stretch_text (w : word) : text (stretch m w) = text w.
Proof. unfold stretch. destruct (Qleb _ _); reflexivity. Qed.

Lemma stretch_long (w : word) : start w + m <= end_ (stretch m w).
Proof.
  unfold stretch. destruct (Qleb _ _) eqn:E; simpl.
  - apply Qle_refl.
  - apply Qleb_gt in E. apply Qlt_le_weak, E.
Qed.

Lemma stretch_settled_end (w : word) :
  start w + m <= end_ w -> end_ (stretch m w) == end_ w.
Proof.
  intro H. unfold stretch. destruct (Qleb _ _) eqn:E; simpl.
  - apply Qleb_le in E. apply Qle_antisym; assumption.
  - reflexivity.
Qed.

Lemma rsettled_rev (done l : list word) :
  rsettled m done -> settled m (last_end done) l -> settled m 0 (rev done ++ l).
Proof.
  revert l. induction done as [|d before IH]; intros l Hd Hl; simpl in *.
  - exact Hl.
  - destruct Hd as (H1 & H2 & H3).
    rewrite <- app_assoc. simpl. apply IH; [exact H3|].
    simpl. auto.
Qed.

(** Every pass that runs to its end leaves the list settled. *)
Lemma increasing_loop_settled (todo done : list word) (flag : bool)
    (out : list word) (flag' : bool) :
  rsettled m done ->
  increasing_loop m done (last_end done) flag todo = Ok (out, flag') ->
  settled m 0 out.
Proof.
  revert done flag. induction todo as [|seg rest IH]; intros done flag Hd H.
  - simpl in H. injection H as <- _.
    rewrite <- (app_nil_r (rev done)). apply rsettled_rev; simpl; auto.
  - simpl in H.
    destruct (Qltb (start seg) (last_end done)) eqn:E.
    + destruct done as [|prev before]; [discriminate|].
      simpl in Hd. destruct Hd as (H1 & H2 & H3). simpl last_end in *.
      destruct (Qltb _ (start prev + m)) eqn:E2.
      * refine (IH (_ :: prev :: before) flag _ H).
        simpl. rewrite stretch_start. simpl.
        repeat split; auto using Qle_refl.
        apply (stretch_long (set_start seg (end_ prev))).
      * apply Qltb_ge in E2.
        refine (IH (_ :: set_end prev _ :: before) true _ H).
        simpl. rewrite stretch_start. simpl.
        repeat split; auto using Qle_refl.
        apply (stretch_long (set_start seg _)).
    + apply Qltb_ge in E.
      refine (IH (_ :: done) flag _ H).
      simpl. rewrite stretch_start.
      repeat split; auto. apply stretch_long.
Qed.

Lemma increasing_pass_settled (segments out : list word) (flag : bool) :
  increasing_pass m segments = Ok (out, flag) -> settled m 0 out.
Proof.
  intro H. apply (increasing_loop_settled segments [] false out flag); simpl; auto.
Qed.

(** On a settled m list a pass changes nothing backward. *)
Lemma increasing_loop_stable (todo done : list word) (pe pe' : Q)
    (flag : bool) :
  pe' <= pe -> settled m pe todo ->
  exists out, increasing_loop m done pe' flag todo = Ok (out, flag).
Proof.
  revert done pe pe'. induction todo as [|seg rest IH];
    intros done pe pe' Hle Hs; simpl.
  - eauto.
  - simpl in Hs. destruct Hs as (H1 & H2 & H3).
    assert (E : Qltb (start seg) pe' = false).
    { apply Qltb_ge. eapply Qle_trans; eassumption. }
    rewrite E. apply (IH _ (end_ seg)); [|exact H3].
    rewrite (stretch_settled_end seg H2). apply Qle_refl.
Qed.

(** The first assertion can only fail on the first word. *)
Lemma increasing_loop_visited (todo done : list word) (pe : Q) (flag : bool) :
  done <> [] -> exists r, increasing_loop m done pe flag todo = Ok r.
Proof.
  revert done pe flag. induction todo as [|seg rest IH];
    intros done pe flag Hd; simpl.
  - eauto.
  - destruct (Qltb (start seg) pe).
    + destruct done as [|prev before]; [congruence|].
      destruct (Qltb _ (start prev + m)); apply IH; discriminate.
    + apply IH. discriminate.
Qed.

Lemma increasing_pass_first (w : word) (rest : list word) :
  0 <= start w -> exists r, increasing_pass m (w :: rest) = Ok r.
Proof.
  intro H. unfold increasing_pass. simpl.
  apply Qltb_ge in H. rewrite H.
  apply increasing_loop_visited. discriminate.
Qed.

Lemma increasing_pass_negative (w : word) (rest : list word) :
  start w < 0 ->
  increasing_pass m (w :: rest) = Raise (AssertionError "i > 0").
Proof.
  intro H. unfold increasing_pass. simpl.
  apply Qltb_lt in H. rewrite H. reflexivity.
Qed.


Lemma stretch_grid (w : word) : on_grid m -> grid_word w -> grid_word (stretch m w).
Proof.
  intros Hm [Hs He]. unfold stretch.
  destruct (Qleb _ _); split; simpl; auto using on_grid_plus.
Qed.

Lemma increasing_loop_grid (todo done : list word) (pe : Q) (flag : bool)
    (out : list word) (flag' : bool) :
  on_grid m -> on_grid pe -> Forall grid_word done -> Forall grid_word todo ->
  increasing_loop m done pe flag todo = Ok (out, flag') ->
  Forall grid_word out.
Proof.
  intro Hm. revert done pe flag.
  induction todo as [|seg rest IH]; intros done pe flag Hpe Hd Ht H.
  - simpl in H. injection H as <- _. apply Forall_rev, Hd.
  - simpl in H. inversion Ht as [|? ? Hseg Hrest]; subst.
    destruct (Qltb (start seg) pe).
    + destruct done as [|prev before]; [discriminate|].
      inversion Hd as [|? ? Hprev Hbefore]; subst.
      destruct (Qltb _ (start prev + m)).
      * assert (G : grid_word (stretch m (set_start seg pe))).
        { apply stretch_grid; [exact Hm|]. split; simpl; [exact Hpe|apply Hseg]. }
        apply (IH _ _ _ (proj2 G) (Forall_cons _ G Hd) Hrest H).
      * assert (G : grid_word (stretch m (set_start seg
                       (round2 ((pe + start seg) / 2))))).
        { apply stretch_grid; [exact Hm|].
          split; simpl; [apply on_grid_round2|apply Hseg]. }
        refine (IH _ _ _ (proj2 G) _ Hrest H).
        constructor; [exact G|]. constructor; [|exact Hbefore].
        split; simpl; [apply Hprev|apply on_grid_round2].
    + assert (G : grid_word (stretch m seg)) by (apply stretch_grid; auto).
      apply (IH _ _ _ (proj2 G) (Forall_cons _ G Hd) Hrest H).
Qed.

End Pass.


Lemma final_loop_chain (l : list word) (pe : Q) (out : list word) :
  final_loop pe l = Ok out -> chain pe out.
Proof.
  revert pe out. induction l as [|w l IH]; intros pe out H; simpl in H.
  - injection H as <-. exact I.
  - destruct (Qleb pe _) eqn:E1; [|discriminate]. simpl in H.
    destruct (Qltb _ _) eqn:E2; [|discriminate]. simpl in H.
    destruct (final_loop _ l) as [out'|] eqn:E3; [|discriminate]. simpl in H.
    injection H as <-. simpl.
    apply Qleb_le in E1. apply Qltb_lt in E2. simpl in E1, E2.
    split; [exact E1|]. split; [exact E2|]. apply (IH _ _ E3).
Qed.

(** The second loop never fails the assertion of the first one. *)
Lemma final_loop_other_assertions (l : list word) (pe : Q) :
  final_loop pe l <> Raise (AssertionError "i > 0").
Proof.
  revert pe. induction l as [|w l IH]; intro pe; simpl; [discriminate|].
  unfold py_assert.
  destruct (Qleb _ _); simpl; [|discriminate].
  destruct (Qltb _ _); simpl; [|discriminate].
  specialize (IH (round2 (end_ w))).
  destruct (final_loop _ l); simpl; [discriminate|].
  intro H. apply IH. exact H.
Qed.

Lemma chain_adjacent (l : list word) (pe : Q) (i : nat) (a b : word) :
  chain pe l -> nth_error l i = Some a -> nth_error l (S i) = Some b ->
  end_ a <= start b.
Proof.
  revert pe i. induction l as [|w l IH]; intros pe i Hc Ha Hb.
  - destruct i; discriminate.
  - destruct i as [|i].
    + simpl in Ha. injection Ha as ->.
      destruct l as [|w' l]; [discriminate|]. simpl in Hb. injection Hb as ->.
      apply Hc.
    + simpl in Ha. apply (IH (end_ w) i); [apply Hc|exact Ha|exact Hb].
Qed.

Lemma chain_nonneg (l : list word) (pe : Q) :
  0 <= pe -> chain pe l -> Forall (fun w => 0 <= start w /\ 0 <= end_ w) l.
Proof.
  revert pe. induction l as [|w l IH]; intros pe Hpe Hc; constructor.
  - destruct Hc as (H1 & H2 & _). split; lra.
  - destruct Hc as (H1 & H2 & H3). apply (IH (end_ w)); [lra|exact H3].
Qed.

Lemma chain_positive (l : list word) (pe : Q) :
  chain pe l -> Forall (fun w => start w < end_ w) l.
Proof.
  revert pe. induction l as [|w l IH]; intros pe Hc; constructor.
  - apply Hc.
  - apply (IH (end_ w)), Hc.
Qed.

(** The list handed to the second loop. *)
Lemma ensure_reaches_final (fuel : nat) (segments : list word) (m : Q)
    (r : result (list word)) :
  ensure_increasing_positions fuel segments m = Some r ->
  (exists e, r = Raise e) \/
  exists segments',
    r = final_loop 0 segments' /\ settled m 0 segments'
    /\ (on_grid m -> Forall grid_word segments -> Forall grid_word segments').
Proof.
  revert segments. induction fuel as [|fuel IH]; intros segments H; simpl in H.
  - discriminate.
  - destruct (increasing_pass m segments) as [[out flag]|e] eqn:E.
    + assert (Hs := increasing_pass_settled m _ _ _ E).
      assert (Hg : on_grid m -> Forall grid_word segments -> Forall grid_word out).
      { intros Hm Hg.
        apply (increasing_loop_grid m segments [] 0 false out flag);
          auto using on_grid_0. }
      destruct flag.
      * destruct (IH _ H) as [?|(s' & -> & Hs' & Hg')]; [left; assumption|].
        right. exists s'. repeat split; auto.
      * injection H as <-. right. exists out. auto.
    + injection H as <-. left. eauto.
Qed.

End EnforcerFacts.

(** ** Claims about the enforcer *)

Section EnforcerClaims.
Import Enforcer EnforcerFacts.

(** C7.  [ensure_increasing_positions] terminates on every word list:
    two passes always suffice, because the list a pass returns is one on
    which the next pass makes no backward adjustment.  Whatever the number
    of recursive calls allowed beyond one, the function delivers the same
    outcome (a list or a failed assertion), and a pass run on the output
    of a pass ends with [has_modified_backward] false. *)
Theorem ensure_increasing_positions_terminates (segments : list word) (m : Q) :
  (exists r, forall k,
      ensure_increasing_positions (S (S k)) segments m = Some r)
  /\ (forall out flag,
        increasing_pass m segments = Ok (out, flag) ->
        exists out', increasing_pass m out = Ok (out', false)).
Proof.
  assert (Fix : forall out flag,
             increasing_pass m segments = Ok (out, flag) ->
             exists out', increasing_pass m out = Ok (out', false)).
  { intros out flag E.
    apply (increasing_loop_stable m out [] 0 0 false); [apply Qle_refl|].
    apply (increasing_pass_settled m _ _ _ E). }
  split; [|exact Fix].
  destruct (increasing_pass m segments) as [[out flag]|e] eqn:E.
  - destruct (Fix out flag eq_refl) as [out' E'].
    destruct flag.
    + exists (final_loop 0 out'). intro k. simpl. rewrite E. simpl.
      rewrite E'. reflexivity.
    + exists (final_loop 0 out). intro k. simpl. rewrite E. reflexivity.
  - exists (Raise e). intro k. simpl. rewrite E. reflexivity.
Qed.

Lemma ensure_increasing_positions_terminates_witness :
  exists r, forall k,
    ensure_increasing_positions (S (S k))
      [mkWord (Py.lit "a") 0 2 None; mkWord (Py.lit "b") (3 # 2) 3 None]
      (1 # 10) = Some r.
Proof.
  exact (proj1 (ensure_increasing_positions_terminates
                  [mkWord (Py.lit "a") 0 2 None;
                   mkWord (Py.lit "b") (3 # 2) 3 None] (1 # 10))).
Defined.

(** C10.  The first loop compares the first word's start with an initial
    [previous_end] of 0 and asserts [i > 0] in the repair branch.  When the
    first word starts at a non-negative time the assertion never fails,
    in any pass; when it starts at a negative time the function fails
    that assertion at once; and such a list exists. *)
Theorem ensure_increasing_positions_first_start (w : word)
    (rest : list word) (m : Q) :
  (0 <= start w ->
   forall fuel,
     ensure_increasing_positions fuel (w :: rest) m
     <> Some (Raise (AssertionError "i > 0")))
  /\ (start w < 0 ->
      forall fuel,
        ensure_increasing_positions (S fuel) (w :: rest) m
        = Some (Raise (AssertionError "i > 0")))
  /\ (exists w' rest',
        start w' < 0 /\
        forall fuel,
          ensure_increasing_positions (S fuel) (w' :: rest') m
          = Some (Raise (AssertionError "i > 0"))).
Proof.
  assert (Neg : forall (v : word) (l : list word), start v < 0 ->
            forall fuel, ensure_increasing_positions (S fuel) (v :: l) m
                         = Some (Raise (AssertionError "i > 0"))).
  { intros v l Hv fuel. simpl.
    rewrite (increasing_pass_negative m v l Hv). reflexivity. }
  split; [|split].
  - intros Hw fuel.
    assert (G : forall segments,
               match segments with [] => True | v :: _ => 0 <= start v end ->
               ensure_increasing_positions fuel segments m
               <> Some (Raise (AssertionError "i > 0"))).
    { induction fuel as [|fuel IH]; intros segments Hs; simpl; [discriminate|].
      destruct (increasing_pass m segments) as [[out flag]|e] eqn:E.
      - destruct flag.
        + apply IH. apply increasing_pass_settled in E.
          destruct out as [|v out]; [exact I|apply E].
        + intro F. injection F as F.
          apply (final_loop_other_assertions _ _ F).
      - destruct segments as [|v l]; [discriminate|].
        destruct (increasing_pass_first m v l Hs) as [r Hr]. congruence. }
    apply G. exact Hw.
  - intro Hw. apply Neg, Hw.
  - exists (mkWord [] (-1) 0 None), []. split; [reflexivity|].
    apply Neg. reflexivity.
Qed.

Lemma ensure_increasing_positions_first_start_witness :
  ensure_increasing_positions 3
    [mkWord (Py.lit "a") 0 (1 # 2) None; mkWord (Py.lit "b") (1 # 4) 1 None]
    (1 # 10)
  <> Some (Raise (AssertionError "i > 0"))
  /\ ensure_increasing_positions 1
       [mkWord (Py.lit "a") (-1 # 2) (1 # 2) None] (1 # 10)
     = Some (Raise (AssertionError "i > 0")).
Proof.
  split.
  - apply (proj1 (ensure_increasing_positions_first_start
                    (mkWord (Py.lit "a") 0 (1 # 2) None)
                    [mkWord (Py.lit "b") (1 # 4) 1 None] (1 # 10))).
    discriminate.
  - apply (proj1 (proj2 (ensure_increasing_positions_first_start
                    (mkWord (Py.lit "a") (-1 # 2) (1 # 2) None) [] (1 # 10)))).
    reflexivity.
Defined.

(** C3, the failing input: the one-word list [{start: 0, end: 0}] with
    [min_duration = 0.014].  The first loop stretches the word to the
    minimum duration, [end = 0.014]; the second loop then rounds to
    hundredths and returns [{start: 0, end: 0.01}], a word shorter than
    [min_duration].  Both assertions of the second loop pass, so the
    function returns this list. *)
Theorem ensure_increasing_positions_rounds_below_min_duration :
  exists w,
    ensure_increasing_positions 1 [mkWord [] 0 0 None] (14 # 1000)
    = Some (Ok [w])
    /\ increasing_pass (14 # 1000) [mkWord [] 0 0 None]
       = Ok ([mkWord [] 0 (0 + (14 # 1000)) None], false)
    /\ start w == 0 /\ end_ w == 1 # 100
    /\ ~ 14 # 1000 <= end_ w - start w.
Proof.
  eexists. split; [vm_compute; reflexivity|].
  split; [reflexivity|]. split; [reflexivity|]. split; [reflexivity|].
  intro H. vm_compute in H. apply H. reflexivity.
Qed.

End EnforcerClaims.

(** ** Strings and lists *)

Module PyFacts.
Import Py.

Lemma update_last_ok {A : Type} (f : A -> A) (l : list A) :
  l <> [] -> exists l', update_last f l = Ok l' /\ length l' = length l.
Proof.
  induction l as [|x l IH]; intro H; [congruence|].
  destruct l as [|y l].
  - exists [f x]. auto.
  - destruct IH as (l' & E & Hlen); [discriminate|].
    exists (x :: l'). split.
    + change (update_last f (x :: y :: l))
        with (l'' <- update_last f (y :: l) ;; Ok (x :: l'')).
      rewrite E. reflexivity.
    + simpl. simpl in Hlen. rewrite Hlen. reflexivity.
Qed.

Lemma update_last_app {A : Type} (f : A -> A) (l : list A) (x : A) :
  update_last f (l ++ [x]) = Ok (l ++ [f x]).
Proof.
  induction l as [|y l IH]; [reflexivity|].
  change ((y :: l) ++ [x]) with (y :: (l ++ [x])).
  destruct (l ++ [x]) as [|z l0] eqn:E.
  - destruct l; discriminate.
  - change (update_last f (y :: z :: l0))
      with (l'' <- update_last f (z :: l0) ;; Ok (y :: l'')).
    rewrite IH. reflexivity.
Qed.

Lemma nonempty_snoc {A : Type} (l : list A) :
  l <> [] -> exists l0 x, l = l0 ++ [x].
Proof.
  intro H. destruct (exists_last H) as (l0 & x & E). eauto.
Qed.

Lemma update_last_concat {A : Type} (x : list A) (l l' : list (list A)) :
  update_last (fun span => span ++ x) l = Ok l' ->
  concat l' = concat l ++ x.
Proof.
  intro H. destruct l as [|y l0]; [discriminate|].
  destruct (nonempty_snoc (y :: l0)) as (l1 & z & E); [discriminate|].
  rewrite E in *. rewrite update_last_app in H. injection H as <-.
  rewrite !concat_app. simpl. rewrite !app_nil_r, app_assoc. reflexivity.
Qed.

Lemma startswith_app (p s x : pystr) :
  startswith p s = true -> startswith p (s ++ x) = true.
Proof.
  revert s. induction p as [|a p IH]; intros s H; [reflexivity|].
  destruct s as [|b s]; [discriminate|]. simpl in *.
  apply andb_true_iff in H. destruct H as [H1 H2].
  rewrite H1, (IH _ H2). reflexivity.
Qed.

Lemma startswith_prefix (a y s : pystr) :
  startswith (a ++ y) s = true -> startswith a s = true.
Proof.
  revert s. induction a as [|c a IH]; intros s H; [reflexivity|].
  destruct s as [|b s]; [discriminate|]. simpl in *.
  apply andb_true_iff in H. destruct H as [H1 H2].
  rewrite H1, (IH _ H2). reflexivity.
Qed.

Lemma contains_prefix (a y s : pystr) :
  contains (a ++ y) s = true -> contains a s = true.
Proof.
  induction s as [|b s IH]; simpl; intro H.
  - rewrite orb_false_r in *. apply (startswith_prefix a y), H.
  - apply orb_true_iff in H. apply orb_true_iff.
    destruct H as [H|H]; [left; apply (startswith_prefix a y), H|right; auto].
Qed.

Lemma lstrip_suffix (s : pystr) : exists p, s = p ++ lstrip s.
Proof.
  induction s as [|c s [p IH]]; simpl.
  - exists []. reflexivity.
  - destruct (isspace c).
    + exists (c :: p). simpl. rewrite <- IH. reflexivity.
    + exists []. reflexivity.
Qed.

Lemma lstrip_app (a b : pystr) : exists z, lstrip (a ++ b) = z ++ lstrip b.
Proof.
  induction a as [|c a [z IH]]; simpl.
  - exists []. reflexivity.
  - destruct (isspace c).
    + exists z. exact IH.
    + destruct (lstrip_suffix b) as [p Hp].
      exists (c :: a ++ p). simpl. rewrite <- app_assoc, <- Hp. reflexivity.
Qed.

Lemma lstrip_app_nonempty (a b : pystr) :
  lstrip a <> [] -> lstrip (a ++ b) = lstrip a ++ b.
Proof.
  induction a as [|c a IH]; simpl; intro H; [congruence|].
  destruct (isspace c); [apply IH, H|reflexivity].
Qed.

Lemma rstrip_app (a b : pystr) : exists y, rstrip (a ++ b) = rstrip a ++ y.
Proof.
  unfold rstrip. rewrite rev_app_distr.
  destruct (lstrip_app (rev b) (rev a)) as [z Hz].
  exists (rev z). rewrite Hz, rev_app_distr. reflexivity.
Qed.

Lemma strip_app (d x : pystr) :
  strip d <> [] -> exists y, strip (d ++ x) = strip d ++ y.
Proof.
  intro H. unfold strip in *.
  assert (Hl : lstrip d <> []).
  { intro E. rewrite E in H. apply H. reflexivity. }
  rewrite (lstrip_app_nonempty d x Hl). apply rstrip_app.
Qed.

Lemma lstrip_nonspace (c : N) (s : pystr) :
  isspace c = false -> lstrip (c :: s) = c :: s.
Proof. intro H. simpl. rewrite H. reflexivity. Qed.

Lemma lstrip_snoc_nonspace (l : pystr) (c : N) :
  isspace c = false -> lstrip (l ++ [c]) = lstrip l ++ [c].
Proof.
  intro H. induction l as [|b l IH]; simpl.
  - rewrite H. reflexivity.
  - destruct (isspace b); [exact IH|reflexivity].
Qed.

Lemma rstrip_cons_nonspace (c : N) (s : pystr) :
  isspace c = false -> rstrip (c :: s) = c :: rstrip s.
Proof.
  intro H. unfold rstrip. simpl.
  rewrite (lstrip_snoc_nonspace _ _ H), rev_app_distr. reflexivity.
Qed.

(** Text that starts with ["<|"] still does after stripping. *)
Lemma strip_special (s : pystr) :
  startswith (lit "<|") s = true -> startswith (lit "<|") (strip s) = true.
Proof.
  change (lit "<|") with [60%N; 124%N]. intro H.
  destruct s as [|a s]; [discriminate|].
  cbn [startswith] in H. apply andb_true_iff in H. destruct H as [Ha H].
  destruct s as [|b s]; [discriminate|].
  cbn [startswith] in H. apply andb_true_iff in H. destruct H as [Hb _].
  apply N.eqb_eq in Ha, Hb. subst a b.
  unfold strip. rewrite lstrip_nonspace by reflexivity.
  rewrite !rstrip_cons_nonspace by reflexivity. reflexivity.
Qed.

End PyFacts.

(** ** The word segmenter *)

Module SegmenterFacts.
Import Py PyFacts Segmenter Units.

Lemma update_last_map_last {A : Type} (f : A -> A) (l : list A) :
  l <> [] -> update_last f l = Ok (map_last f l).
Proof.
  induction l as [|x l IH]; intro H; [congruence|].
  destruct l as [|y l]; [reflexivity|].
  change (update_last f (x :: y :: l))
    with (l'' <- update_last f (y :: l) ;; Ok (x :: l'')).
  rewrite IH by discriminate. reflexivity.
Qed.

Lemma map_last_length {A : Type} (f : A -> A) (l : list A) :
  length (map_last f l) = length l.
Proof.
  induction l as [|x l IH]; [reflexivity|].
  destruct l as [|y l]; [reflexivity|].
  change (map_last f (x :: y :: l)) with (x :: map_last f (y :: l)).
  cbn [length]. rewrite IH. reflexivity.
Qed.

Lemma map_last_snoc {A : Type} (f : A -> A) (l : list A) (x : A) :
  map_last f (l ++ [x]) = l ++ [f x].
Proof.
  induction l as [|y l IH]; [reflexivity|].
  change ((y :: l) ++ [x]) with (y :: (l ++ [x])).
  destruct (l ++ [x]) as [|z l0] eqn:E.
  - destruct l; discriminate.
  - change (map_last f (y :: z :: l0)) with (y :: map_last f (z :: l0)).
    rewrite IH. reflexivity.
Qed.

Lemma map_last_concat {A : Type} (x : list A) (l : list (list A)) :
  l <> [] -> concat (map_last (fun span => span ++ x) l) = concat l ++ x.
Proof.
  intro H. destruct (nonempty_snoc l H) as (l0 & y & ->).
  rewrite map_last_snoc, !concat_app. simpl.
  rewrite !app_nil_r, app_assoc. reflexivity.
Qed.

Lemma map_last_Forall {A : Type} (P : A -> Prop) (f : A -> A) (l : list A) :
  (forall a, P a -> P (f a)) -> Forall P l -> Forall P (map_last f l).
Proof.
  intros Hf H. induction H as [|x l Hx Hl IH]; [constructor|].
  destruct l as [|y l]; [constructor; auto|].
  change (map_last f (x :: y :: l)) with (x :: map_last f (y :: l)).
  constructor; assumption.
Qed.

Lemma or_single_nonempty {A : Type} (x : A) (l : list A) : or_single x l <> [].
Proof. destruct l; discriminate. Qed.

Lemma or_single_length {A B : Type} (x : A) (y : B) (l : list A) (l' : list B) :
  length l = length l' -> length (or_single x l) = length (or_single y l').
Proof. destruct l, l'; simpl; congruence. Qed.

(** Text that starts with ["<|"] is not a substring of [_punctuation]. *)
Lemma special_not_punctuation (s : pystr) :
  startswith (lit "<|") s = true -> contains s _punctuation = false.
Proof.
  change (lit "<|") with [60%N; 124%N]. intro H.
  destruct s as [|a s]; [discriminate|].
  cbn [startswith] in H. apply andb_true_iff in H. destruct H as [Ha H].
  destruct s as [|b s]; [discriminate|].
  cbn [startswith] in H. apply andb_true_iff in H. destruct H as [Hb _].
  apply N.eqb_eq in Ha, Hb. subst a b. reflexivity.
Qed.

Section WithTokenizer.

Variable tokenizer : Tokenizer.

(** One iteration of the loop of [split_tokens_on_unicode], on lists of
    equal length. *)
Lemma unicode_loop_cons (as_string remove isolate : bool)
    (words : list pystr) (word_tokens : list (list item))
    (current_tokens : list Z) (token : Z) (rest : list Z) :
  length words = length word_tokens ->
  unicode_loop tokenizer as_string remove isolate words word_tokens
    current_tokens (token :: rest)
  = let cur := current_tokens ++ [token] in
    let decoded := decode_with_timestamps tokenizer cur in
    if complete tokenizer cur then
      if negb isolate && is_punctuation decoded then
        unicode_loop tokenizer as_string remove isolate
          (if remove then or_single [] words
           else map_last (fun w => w ++ decoded) (or_single [] words))
          (map_last (fun span => span ++ [punctuation_item tokenizer as_string cur])
             (or_single [] word_tokens))
          [] rest
      else
        unicode_loop tokenizer as_string remove isolate
          (words ++ [decoded]) (word_tokens ++ [fresh_span tokenizer as_string cur])
          [] rest
    else
      unicode_loop tokenizer as_string remove isolate words word_tokens
        cur rest.
Proof.
  intro Hlen. cbn [unicode_loop]. unfold complete, is_punctuation. cbv zeta.
  destruct (negb (existsb _ _)); [|reflexivity].
  destruct (negb isolate && _).
  - destruct words as [|w words], word_tokens as [|s word_tokens];
      try discriminate.
    + destruct remove; reflexivity.
    + cbn [or_single].
      rewrite (update_last_map_last _ (s :: word_tokens)) by discriminate.
      destruct remove; cbn [negb].
      * reflexivity.
      * rewrite (update_last_map_last _ (w :: words)) by discriminate.
        reflexivity.
  - reflexivity.
Qed.

(** An invariant of the two lists that each kind of iteration keeps is
    kept by the whole loop, which never fails. *)
Lemma unicode_loop_invariant (as_string remove isolate : bool)
    (P : list pystr -> list (list item) -> Prop) :
  (forall words word_tokens cur,
      P words word_tokens -> length words = length word_tokens ->
      complete tokenizer cur = true ->
      negb isolate
      && is_punctuation (decode_with_timestamps tokenizer cur) = true ->
      P (if remove then or_single [] words
         else map_last (fun w => w ++ decode_with_timestamps tokenizer cur)
                (or_single [] words))
        (map_last (fun span => span ++ [punctuation_item tokenizer as_string cur])
           (or_single [] word_tokens))) ->
  (forall words word_tokens cur,
      P words word_tokens -> length words = length word_tokens ->
      complete tokenizer cur = true ->
      negb isolate
      && is_punctuation (decode_with_timestamps tokenizer cur) = false ->
      P (words ++ [decode_with_timestamps tokenizer cur])
        (word_tokens ++ [fresh_span tokenizer as_string cur])) ->
  forall tokens words word_tokens cur,
    P words word_tokens -> length words = length word_tokens ->
    exists words' word_tokens',
      unicode_loop tokenizer as_string remove isolate words word_tokens
        cur tokens = Ok (words', word_tokens')
      /\ P words' word_tokens' /\ length words' = length word_tokens'.
Proof.
  intros Hpunct Hfresh.
  induction tokens as [|token rest IH]; intros words word_tokens cur HP Hlen.
  - exists words, word_tokens. auto.
  - rewrite unicode_loop_cons by exact Hlen. cbv zeta.
    destruct (complete tokenizer (cur ++ [token])) eqn:Ec.
    + destruct (negb isolate && _) eqn:Ep.
      * apply IH.
        -- apply Hpunct; assumption.
        -- rewrite map_last_length.
           destruct remove; [|rewrite map_last_length];
             apply or_single_length, Hlen.
      * apply IH.
        -- apply Hfresh; assumption.
        -- rewrite !length_app, Hlen. reflexivity.
    + apply IH; assumption.
Qed.

Lemma unicode_loop_total (as_string remove isolate : bool) (tokens : list Z)
    (words : list pystr) (word_tokens : list (list item)) (cur : list Z) :
  length words = length word_tokens ->
  exists words' word_tokens',
    unicode_loop tokenizer as_string remove isolate words word_tokens
      cur tokens = Ok (words', word_tokens')
    /\ length words' = length word_tokens'.
Proof.
  intro Hlen.
  destruct (unicode_loop_invariant as_string remove isolate (fun _ _ => True))
    with (tokens := tokens) (words := words) (word_tokens := word_tokens)
         (cur := cur) as (ws & wts & E & _ & L); auto.
  exists ws, wts. auto.
Qed.

(** Units and pending tokens partition the tokens. *)
Lemma units_pending_loop (tokens cur : list Z) :
  concat (units_loop tokenizer cur tokens) ++ pending_loop tokenizer cur tokens
  = cur ++ tokens.
Proof.
  revert cur. induction tokens as [|token rest IH]; intro cur; simpl.
  - rewrite app_nil_r. reflexivity.
  - destruct (complete tokenizer (cur ++ [token])).
    + simpl. rewrite <- app_assoc, IH, <- app_assoc. reflexivity.
    + rewrite IH, <- app_assoc. reflexivity.
Qed.

Lemma span_tokens_app (a b : list (list item)) :
  span_tokens (a ++ b) = span_tokens a ++ span_tokens b.
Proof. unfold span_tokens. rewrite concat_app, flat_map_app. reflexivity. Qed.

Lemma span_tokens_map_last (x : item) (l : list (list item)) :
  l <> [] ->
  span_tokens (map_last (fun span => span ++ [x]) l)
  = span_tokens l ++ item_tokens x.
Proof.
  intro H. unfold span_tokens. rewrite map_last_concat by exact H.
  rewrite flat_map_app. simpl. rewrite app_nil_r. reflexivity.
Qed.

Lemma flat_map_ITok (l : list Z) : flat_map item_tokens (map ITok l) = l.
Proof. induction l as [|x l IH]; simpl; congruence. Qed.

(** What the spans of [split_tokens_on_unicode] hold, in both
    representations. *)
Lemma unicode_loop_spans (as_string remove isolate : bool) (tokens : list Z)
    (words : list pystr) (word_tokens : list (list item)) (cur : list Z)
    (words' : list pystr) (word_tokens' : list (list item)) :
  length words = length word_tokens ->
  unicode_loop tokenizer as_string remove isolate words word_tokens
    cur tokens = Ok (words', word_tokens') ->
  if as_string then
    concat word_tokens'
    = concat word_tokens
      ++ map (fun u => IStr (strip (decode_with_timestamps tokenizer u)))
           (units_loop tokenizer cur tokens)
  else
    span_tokens word_tokens'
    = span_tokens word_tokens ++ concat (units_loop tokenizer cur tokens).
Proof.
  revert words word_tokens cur.
  induction tokens as [|token rest IH]; intros words word_tokens cur Hlen H.
  - simpl in H. injection H as <- <-. simpl.
    destruct as_string; rewrite app_nil_r; reflexivity.
  - rewrite unicode_loop_cons in H by exact Hlen. cbv zeta in H.
    cbn [units_loop]. cbv zeta.
    destruct (complete tokenizer (cur ++ [token])) eqn:Ec.
    + destruct (negb isolate && _) eqn:Ep.
      * apply IH in H.
        -- destruct as_string.
           ++ rewrite H, map_last_concat by apply or_single_nonempty.
              unfold punctuation_item. simpl.
              replace (concat (or_single [] word_tokens))
                with (concat word_tokens)
                by (destruct word_tokens; reflexivity).
              rewrite <- app_assoc. reflexivity.
           ++ rewrite H, span_tokens_map_last by apply or_single_nonempty.
              unfold punctuation_item. simpl.
              replace (span_tokens (or_single [] word_tokens))
                with (span_tokens word_tokens)
                by (destruct word_tokens; reflexivity).
              rewrite <- app_assoc. reflexivity.
        -- rewrite map_last_length.
           destruct remove; [|rewrite map_last_length];
             apply or_single_length, Hlen.
      * apply IH in H.
        -- destruct as_string.
           ++ rewrite H, concat_app. unfold fresh_span. simpl.
              rewrite <- app_assoc. reflexivity.
           ++ rewrite H, span_tokens_app. unfold fresh_span, span_tokens at 2.
              simpl. rewrite app_nil_r, flat_map_ITok, <- app_assoc.
              reflexivity.
        -- rewrite !length_app, Hlen. reflexivity.
    + apply IH in H; assumption.
Qed.

(** Every span of the string representation starts with a string. *)
Lemma unicode_loop_str_spans (remove isolate : bool) (tokens : list Z)
    (words : list pystr) (word_tokens : list (list item)) (cur : list Z) :
  length words = length word_tokens -> Forall first_is_str word_tokens ->
  exists words' word_tokens',
    unicode_loop tokenizer true remove isolate words word_tokens cur tokens
    = Ok (words', word_tokens')
    /\ Forall first_is_str word_tokens'
    /\ length words' = length word_tokens'.
Proof.
  intros Hlen HP.
  apply (unicode_loop_invariant true remove isolate
           (fun _ wts => Forall first_is_str wts)); auto.
  - intros ws wts c Hw _ _ _. destruct wts as [|s wts].
    + simpl. constructor; [|constructor]. red. eauto.
    + apply map_last_Forall; [|exact Hw].
      intros a (s0 & r & ->). red. simpl. eauto.
  - intros ws wts c Hw _ _ _. apply Forall_app. split; [exact Hw|].
    constructor; [|constructor]. red. simpl. eauto.
Qed.

(** [spaces_loop] moves every span element of its input to its output. *)
Lemma spaces_loop_concat (as_string : bool) (swtl : list (list item))
    (todo : list (pystr * list item)) (i : nat) (words : list pystr)
    (word_tokens : list (list item)) (words' : list pystr)
    (word_tokens' : list (list item)) :
  spaces_loop tokenizer as_string swtl i words word_tokens todo
  = Ok (words', word_tokens') ->
  concat word_tokens' = concat word_tokens ++ concat (map snd todo).
Proof.
  revert i words word_tokens.
  induction todo as [|[sw swt] rest IH]; intros i words word_tokens H.
  - simpl in H. injection H as <- <-. simpl. rewrite app_nil_r. reflexivity.
  - cbn [spaces_loop] in H.
    destruct (x <- first_item swt ;; _) as [special|]; [|discriminate].
    cbn [bind] in H.
    match type of H with
    | bind ?c _ = _ => destruct c as [previous_special|]; [|discriminate]
    end.
    cbn [bind] in H.
    destruct (special || _ || previous_special).
    + cbn [bind] in H. apply IH in H. rewrite H, concat_app. simpl.
      rewrite app_nil_r, <- app_assoc. reflexivity.
    + destruct (update_last (fun w => w ++ strip sw) words) as [ws|];
        [|discriminate].
      cbn [bind] in H.
      destruct (update_last (fun span => span ++ swt) word_tokens)
        as [wts|] eqn:E; [|discriminate].
      cbn [bind] in H. apply IH in H.
      rewrite H, (update_last_concat _ _ _ E). simpl.
      rewrite <- app_assoc. reflexivity.
Qed.

Lemma map_snd_combine {A B : Type} (l : list A) (l' : list B) :
  length l = length l' -> map snd (combine l l') = l'.
Proof.
  revert l'. induction l as [|x l IH]; intros [|y l'] H; try discriminate.
  - reflexivity.
  - simpl. rewrite IH; [reflexivity|]. simpl in H. congruence.
Qed.

(** The first unit that is not punctuation opens the first word. *)
Lemma first_unit_fresh (as_string remove isolate : bool) (tokens cur u : list Z)
    (us : list (list Z)) :
  units_loop tokenizer cur tokens = u :: us ->
  negb isolate && is_punctuation (decode_with_timestamps tokenizer u) = false ->
  exists rest,
    unicode_loop tokenizer as_string remove isolate [] [] cur tokens
    = unicode_loop tokenizer as_string remove isolate
        [decode_with_timestamps tokenizer u] [fresh_span tokenizer as_string u]
        [] rest.
Proof.
  revert cur. induction tokens as [|token rest IH]; intros cur Hu Hp.
  - discriminate.
  - rewrite unicode_loop_cons by reflexivity. cbv zeta.
    cbn [units_loop] in Hu. cbv zeta in Hu.
    destruct (complete tokenizer (cur ++ [token])).
    + injection Hu as <- _. rewrite Hp. exists rest. reflexivity.
    + apply IH; assumption.
Qed.

Lemma map_last_head {A : Type} (f : A -> A) (a : A) (l : list A) :
  exists l', map_last f (a :: l) = (match l with [] => f a | _ => a end) :: l'.
Proof. destruct l; simpl; eauto. Qed.

Lemma unicode_loop_opens_with (remove isolate : bool) (d : pystr)
    (tokens : list Z) (words : list pystr) (word_tokens : list (list item))
    (cur : list Z) :
  length words = length word_tokens -> Forall first_is_str word_tokens ->
  opens_with d words word_tokens ->
  exists words' word_tokens',
    unicode_loop tokenizer true remove isolate words word_tokens cur tokens
    = Ok (words', word_tokens')
    /\ (Forall first_is_str word_tokens' /\ opens_with d words' word_tokens')
    /\ length words' = length word_tokens'.
Proof.
  intros Hlen HF HO.
  apply (unicode_loop_invariant true remove isolate
           (fun ws wts => Forall first_is_str wts /\ opens_with d ws wts));
    auto.
  - intros ws wts c [Hw (x & wrest & s & srest & -> & ->)] _ _ _. split.
    + apply map_last_Forall; [|exact Hw].
      intros a (s0 & r & ->). red. simpl. eauto.
    + cbn [or_single].
      destruct (map_last_head
                  (fun span => span ++ [punctuation_item tokenizer true c])
                  (IStr (strip d) :: s) srest) as [l2 E2].
      rewrite E2.
      destruct remove.
      * exists x, wrest. destruct srest; simpl; do 2 eexists; split; reflexivity.
      * destruct (map_last_head
                    (fun w => w ++ decode_with_timestamps tokenizer c)
                    (d ++ x) wrest) as [l1 E1].
        rewrite E1. destruct wrest, srest; simpl; try rewrite <- app_assoc;
          do 4 eexists; split; reflexivity.
  - intros ws wts c [Hw (x & wrest & s & srest & -> & ->)] _ _ _. split.
    + apply Forall_app. split; [exact Hw|].
      constructor; [|constructor]. red. simpl. eauto.
    + red. simpl. do 4 eexists; split; reflexivity.
Qed.

(** After the first word, [split_tokens_on_spaces] cannot fail. *)
Lemma spaces_loop_visited (swtl : list (list item))
    (todo : list (pystr * list item)) (i : nat) (words : list pystr)
    (word_tokens : list (list item)) :
  words <> [] -> word_tokens <> [] ->
  Forall first_is_str swtl -> Forall (fun p => first_is_str (snd p)) todo ->
  (1 <= i)%nat -> (i + length todo <= length swtl)%nat ->
  exists r, spaces_loop tokenizer true swtl i words word_tokens todo = Ok r.
Proof.
  intros Hw Hs HF. revert i words word_tokens Hw Hs.
  induction todo as [|[sw swt] rest IH]; intros i words word_tokens Hw Hs Ht Hi Hl.
  - simpl. eauto.
  - inversion Ht as [|? ? (s0 & r0 & E0) Ht']; subst. simpl in E0. subst swt.
    cbn [spaces_loop first_item bind item_startswith_special].
    destruct i as [|j]; [lia|].
    change (0 <? S j)%nat with true. cbn [previous_span].
    simpl in Hl.
    destruct (nth_error swtl j) as [span|] eqn:En.
    2:{ apply nth_error_None in En. lia. }
    assert (Hspan : first_is_str span).
    { rewrite Forall_forall in HF. apply HF. eapply nth_error_In, En. }
    destruct Hspan as (s1 & r1 & ->).
    cbn [first_item bind item_startswith_special].
    destruct (_ || _ || _).
    + cbn [bind]. apply IH; auto; try lia; destruct words, word_tokens; discriminate.
    + destruct (update_last_ok (fun w => w ++ strip sw) words Hw)
        as (ws & -> & Lw).
      destruct (update_last_ok (fun span => span ++ IStr s0 :: r0)
                  word_tokens Hs) as (wts & -> & Ls).
      cbn [bind]. apply IH; auto; try lia.
      * destruct ws; [|discriminate]. destruct words; [congruence|discriminate].
      * destruct wts; [|discriminate].
        destruct word_tokens; [congruence|discriminate].
Qed.

(** The space mode returns when the first decoded unit opens a word. *)
Lemma split_tokens_on_spaces_returns (tokens : list Z) (remove : bool)
    (d : pystr) :
  first_unit tokenizer tokens = Some d ->
  startswith (lit "<|") d = true
  \/ (startswith (lit " ") d = true /\ is_punctuation d = false) ->
  exists r, split_tokens_on_spaces tokenizer tokens true remove = Ok r.
Proof.
  intros Hd H. unfold first_unit, units in Hd.
  destruct (units_loop tokenizer [] tokens) as [|u us] eqn:Eu; [discriminate|].
  injection Hd as <-.
  remember (decode_with_timestamps tokenizer u) as d eqn:Ed.
  assert (Hp : is_punctuation d = false).
  { destruct H as [H|[_ H]]; [|exact H].
    apply special_not_punctuation, strip_special, H. }
  destruct (first_unit_fresh true remove false tokens [] u us Eu)
    as [rest Er]; [rewrite <- Ed; exact Hp|].
  rewrite <- Ed in Er.
  destruct (unicode_loop_opens_with remove false d rest [d]
              [fresh_span tokenizer true u] [])
    as (sws & swtl & E & (HF & x & wrest & s & srest & -> & ->) & Hlen).
  { reflexivity. }
  { constructor; [|constructor]. red. simpl. eauto. }
  { exists [], [], [], []. rewrite app_nil_r, Ed. split; reflexivity. }
  unfold split_tokens_on_spaces, split_tokens_on_unicode.
  rewrite Er, E. cbn [bind combine spaces_loop first_item
                      item_startswith_special].
  change (0 <? 0)%nat with false. cbn [bind].
  assert (Hc : startswith (lit "<|") (strip d)
               || startswith (lit " ") (d ++ x)
                  && negb (contains (strip (d ++ x)) _punctuation)
               || false = true).
  { rewrite orb_false_r. destruct H as [H|[H1 H2]].
    - rewrite (strip_special _ H). reflexivity.
    - rewrite (startswith_app _ _ x H1).
      destruct (contains (strip (d ++ x)) _punctuation) eqn:Ec;
        [|apply orb_true_r].
      exfalso. unfold is_punctuation in H2.
      assert (Hne : strip d <> []).
      { intro E0. rewrite E0 in H2. discriminate. }
      destruct (strip_app d x Hne) as [y Hy]. rewrite Hy in Ec.
      apply contains_prefix in Ec. congruence. }
  rewrite Hc. cbn [bind app].
  inversion HF as [|? ? _ HF']; subst.
  apply spaces_loop_visited; try discriminate.
  - exact HF.
  - rewrite <- (map_snd_combine wrest srest) in HF'.
    + rewrite Forall_map in HF'. exact HF'.
    + simpl in Hlen. injection Hlen as Hlen. exact Hlen.
  - lia.
  - rewrite length_combine. simpl in Hlen. simpl. lia.
Qed.

End WithTokenizer.
End SegmenterFacts.

(** ** Claims about the word segmenter *)

Section SegmenterClaims.
Import Py Segmenter Units SegmenterFacts.

(** C8, as stated, fails: a token whose decoding still contains the
    replacement character when the sequence ends stays in
    [current_tokens] and reaches no span, in either mode. *)
Lemma split_tokens_drops_pending_tokens :
  (exists words word_tokens,
      split_tokens_on_unicode Toy.tokenizer [100; 0; 5]%Z false false false
      = Ok (words, word_tokens)
      /\ span_tokens word_tokens <> [100; 0; 5]%Z)
  /\ (exists words word_tokens,
        split_tokens_on_spaces Toy.tokenizer [100; 0; 5]%Z false false
        = Ok (words, word_tokens)
        /\ span_tokens word_tokens <> [100; 0; 5]%Z).
Proof.
  split; do 2 eexists; (split; [vm_compute; reflexivity|]);
    vm_compute; discriminate.
Qed.

(** C8, amended.  For every token sequence, with or without punctuation
    removal: the decoded units followed by the tokens still pending at the
    end are the token sequence; [split_tokens_on_unicode] always returns,
    and [split_tokens_on_spaces], whenever it returns, has the same span
    elements.  With [tokens_as_string=False] the spans, concatenated and
    flattened, followed by the pending tokens are the token sequence;
    with [tokens_as_string=True] the spans, concatenated, are the stripped
    texts of the decoded units in order. *)
Theorem split_tokens_spans (tokenizer : Tokenizer) (tokens : list Z)
    (remove : bool) :
  concat (units tokenizer tokens) ++ pending tokenizer tokens = tokens
  /\ (forall isolate, exists words word_tokens,
        split_tokens_on_unicode tokenizer tokens false remove isolate
        = Ok (words, word_tokens)
        /\ span_tokens word_tokens ++ pending tokenizer tokens = tokens)
  /\ (forall isolate, exists words word_tokens,
        split_tokens_on_unicode tokenizer tokens true remove isolate
        = Ok (words, word_tokens)
        /\ concat word_tokens
           = map (fun u => IStr (strip (decode_with_timestamps tokenizer u)))
               (units tokenizer tokens))
  /\ (forall words word_tokens,
        split_tokens_on_spaces tokenizer tokens false remove
        = Ok (words, word_tokens) ->
        span_tokens word_tokens ++ pending tokenizer tokens = tokens)
  /\ (forall words word_tokens,
        split_tokens_on_spaces tokenizer tokens true remove
        = Ok (words, word_tokens) ->
        concat word_tokens
        = map (fun u => IStr (strip (decode_with_timestamps tokenizer u)))
            (units tokenizer tokens)).
Proof.
  assert (Part : concat (units tokenizer tokens) ++ pending tokenizer tokens
                 = tokens).
  { apply (units_pending_loop tokenizer tokens []). }
  assert (Uni : forall as_string isolate, exists words word_tokens,
             split_tokens_on_unicode tokenizer tokens as_string remove isolate
             = Ok (words, word_tokens)
             /\ length words = length word_tokens
             /\ if as_string
                then concat word_tokens
                     = map (fun u => IStr (strip
                                       (decode_with_timestamps tokenizer u)))
                         (units tokenizer tokens)
                else span_tokens word_tokens = concat (units tokenizer tokens)).
  { intros as_string isolate. unfold split_tokens_on_unicode.
    destruct (unicode_loop_total tokenizer as_string remove isolate tokens
                [] [] []) as (ws & wts & E & L); [reflexivity|].
    exists ws, wts. split; [exact E|]. split; [exact L|].
    apply (unicode_loop_spans tokenizer as_string remove isolate tokens
             [] [] [] ws wts eq_refl E). }
  assert (Spa : forall as_string words word_tokens,
             split_tokens_on_spaces tokenizer tokens as_string remove
             = Ok (words, word_tokens) ->
             exists sw swtl,
               split_tokens_on_unicode tokenizer tokens as_string remove false
               = Ok (sw, swtl)
               /\ concat word_tokens = concat swtl).
  { intros as_string words word_tokens H. unfold split_tokens_on_spaces in H.
    destruct (Uni as_string false) as (sw & swtl & E & L & _).
    rewrite E in H. cbn [bind] in H.
    apply spaces_loop_concat in H. rewrite (map_snd_combine _ _ L) in H.
    exists sw, swtl. auto. }
  split; [exact Part|]. split; [|split; [|split]].
  - intro isolate. destruct (Uni false isolate) as (ws & wts & E & _ & R).
    exists ws, wts. split; [exact E|]. rewrite R. exact Part.
  - intro isolate. destruct (Uni true isolate) as (ws & wts & E & _ & R).
    exists ws, wts. auto.
  - intros words word_tokens H.
    destruct (Spa false _ _ H) as (sw & swtl & E & C).
    destruct (Uni false false) as (ws & wts & E' & _ & R).
    rewrite E in E'. injection E' as <- <-.
    unfold span_tokens in *. rewrite C, R. exact Part.
  - intros words word_tokens H.
    destruct (Spa true _ _ H) as (sw & swtl & E & C).
    destruct (Uni true false) as (ws & wts & E' & _ & R).
    rewrite E in E'. injection E' as <- <-.
    rewrite C. exact R.
Qed.

Lemma split_tokens_spans_witness :
  exists words word_tokens,
    split_tokens_on_spaces Toy.tokenizer [100; 0; 2; 5; 6; 1; 3; 101]%Z
      false false = Ok (words, word_tokens)
    /\ span_tokens word_tokens ++ pending Toy.tokenizer
                                    [100; 0; 2; 5; 6; 1; 3; 101]%Z
       = [100; 0; 2; 5; 6; 1; 3; 101]%Z.
Proof.
  do 2 eexists. split; [vm_compute; reflexivity|].
  eapply (proj1 (proj2 (proj2 (proj2
            (split_tokens_spans Toy.tokenizer [100; 0; 2; 5; 6; 1; 3; 101]%Z
               false))))).
  vm_compute. reflexivity.
Defined.

(** C9, as stated, fails: a first decoded unit that starts with a space
    but is punctuation once stripped (here [" ,"]) does not open a word,
    and the merge branch indexes the empty [words]. *)
Lemma split_tokens_on_spaces_space_punctuation_fails :
  exists d,
    first_unit Toy.tokenizer [4%Z] = Some d
    /\ startswith (lit " ") d = true
    /\ split_tokens_on_spaces Toy.tokenizer [4%Z] true false
       = Raise (IndexError "list index out of range").
Proof.
  eexists. split; [vm_compute; reflexivity|]. split; vm_compute; reflexivity.
Qed.

(** C9, amended.  [split_tokens_on_spaces] returns for every token list
    whose first decoded unit starts with ["<|"], or starts with a space
    and is not punctuation once stripped; and for some token list whose
    first decoded unit is bare text (neither special nor space-prefixed)
    the merge branch indexes the empty [words] and the function fails. *)
Theorem split_tokens_on_spaces_first_unit (tokenizer : Tokenizer)
    (tokens : list Z) (remove : bool) (d : pystr) :
  (first_unit tokenizer tokens = Some d ->
   startswith (lit "<|") d = true
   \/ (startswith (lit " ") d = true /\ is_punctuation d = false) ->
   exists r, split_tokens_on_spaces tokenizer tokens true remove = Ok r)
  /\ (exists tk toks d',
        first_unit tk toks = Some d'
        /\ startswith (lit "<|") d' = false
        /\ startswith (lit " ") d' = false
        /\ split_tokens_on_spaces tk toks true remove
           = Raise (IndexError "list index out of range")).
Proof.
  split.
  - apply split_tokens_on_spaces_returns.
  - exists Toy.tokenizer, [2%Z]. eexists.
    split; [vm_compute; reflexivity|].
    split; [vm_compute; reflexivity|].
    split; [vm_compute; reflexivity|].
    destruct remove; vm_compute; reflexivity.
Qed.

Lemma split_tokens_on_spaces_first_unit_witness :
  exists r,
    split_tokens_on_spaces Toy.tokenizer [100; 0; 2; 1; 101]%Z true false
    = Ok r.
Proof.
  apply (proj1 (split_tokens_on_spaces_first_unit Toy.tokenizer
                  [100; 0; 2; 1; 101]%Z false (Toy.piece 100))).
  - vm_compute. reflexivity.
  - left. vm_compute. reflexivity.
Defined.

End SegmenterClaims.

(** ** The forced alignment driver *)

Module AlignerFacts.
Import Aligner.

Lemma check_shapes_tensors (n : nat) (attention_weights : list attention) :
  Forall (fun a => exists w, a = ATensor w /\ n_query w = n) attention_weights ->
  check_shapes n attention_weights = Ok tt.
Proof.
  induction 1 as [|a l (w & -> & Hw) _ IH]; simpl; [reflexivity|].
  rewrite Hw, Nat.eqb_refl. simpl. exact IH.
Qed.

(** The shape check fails on a layer that is a Python list. *)
Lemma check_shapes_list (n : nat) (ws : list tensor) (rest : list attention) :
  check_shapes n (AList ws :: rest)
  = Raise (AttributeError "'list' object has no attribute 'shape'").
Proof. reflexivity. Qed.

(** Line 525 turns every layer into a Python list. *)
Lemma collapse_layers_lists (num_frames : Z) (a : attention)
    (rest collapsed : list attention) :
  collapse_layers num_frames (a :: rest) = Ok collapsed ->
  exists ws rest', collapsed = AList ws :: rest'.
Proof.
  unfold collapse_layers. simpl. destruct a as [w|ws]; simpl; [|discriminate].
  destruct (Py.map_result _ rest) as [rest'|]; simpl; [|discriminate].
  intro H. injection H as <-. eauto.
Qed.

Lemma timestamp_on_grid (k : Z) : on_grid (inject_Z k * AUDIO_TIME_PER_TOKEN).
Proof.
  exists (2 * k)%Z. unfold AUDIO_TIME_PER_TOKEN.
  rewrite inject_Z_mult. change (inject_Z 2) with 2. field.
Qed.


(** *** The path of the normal case *)

Lemma ascending_within_weaken (lo lo' hi : Z) (l : list Z) :
  (lo' <= lo)%Z -> ascending_within lo hi l -> ascending_within lo' hi l.
Proof. destruct l; simpl; intros; intuition lia. Qed.

Lemma ascending_within_bound (lo hi : Z) (l : list Z) :
  ascending_within lo hi l -> (lo <= hi)%Z.
Proof.
  revert lo. induction l as [|x l IH]; simpl; intros lo H; [exact H|].
  destruct H as [H1 H2]. apply IH in H2. lia.
Qed.

Lemma jumps_from_ascending (path : list (Z * Z)) (previous lo hi : Z) :
  ascending_within lo hi (map snd path) ->
  ascending_within lo hi (jumps_from previous path).
Proof.
  revert previous lo. induction path as [|[i1 i2] path IH];
    intros previous lo H; simpl in *; [exact H|].
  destruct H as [H1 H2].
  destruct (i1 - previous =? 0)%Z.
  - apply IH. apply (ascending_within_weaken i2); assumption.
  - simpl. split; [exact H1|]. apply IH, H2.
Qed.

Lemma jumps_of_ascending (path : list (Z * Z)) (hi : Z) (jumps : list Z) :
  ascending_within 0 hi (map snd path) -> jumps_of path = Ok jumps ->
  ascending_within 0 hi jumps.
Proof.
  destruct path as [|[i1 i2] path]; simpl; [discriminate|].
  intros [H1 H2] E. injection E as <-. simpl. split; [exact H1|].
  apply jumps_from_ascending, H2.
Qed.

Lemma ascending_weaken (lo lo' : Q) (l : list Q) :
  lo' <= lo -> ascending lo l -> ascending lo' l.
Proof. destruct l; simpl; [auto|]. intros H [H1 H2]. split; [lra|exact H2]. Qed.

(** The jump times, with the closing boundary, never decrease. *)
Lemma jump_times_ascending (jumps : list Z) (lo hi : Z) (closing : Q) :
  ascending_within lo hi jumps ->
  inject_Z hi * AUDIO_TIME_PER_TOKEN <= closing ->
  ascending (inject_Z lo * AUDIO_TIME_PER_TOKEN)
    (map (fun j => inject_Z j * AUDIO_TIME_PER_TOKEN) jumps ++ [closing]).
Proof.
  intros H Hc. revert lo H. induction jumps as [|j jumps IH]; intros lo H.
  - simpl in *. split; [|exact I].
    assert (Hq : inject_Z lo <= inject_Z hi) by (rewrite <- Zle_Qle; exact H).
    unfold AUDIO_TIME_PER_TOKEN in *. lra.
  - simpl in *. destruct H as [H1 H2]. split; [|apply IH, H2].
    assert (Hq : inject_Z lo <= inject_Z j) by (rewrite <- Zle_Qle; exact H1).
    unfold AUDIO_TIME_PER_TOKEN. lra.
Qed.

Lemma ascending_head_le (l : list Q) (lo : Q) (j : nat) (y : Q) :
  ascending lo l -> nth_error l j = Some y -> lo <= y.
Proof.
  revert lo j. induction l as [|b l IH]; intros lo j H Hy.
  - destruct j; discriminate.
  - destruct H as [H1 H2]. destruct j as [|j]; simpl in Hy.
    + injection Hy as <-. exact H1.
    + apply (Qle_trans _ b); [exact H1|apply (IH b j H2 Hy)].
Qed.

Lemma ascending_nth (l : list Q) (lo : Q) (i j : nat) (x y : Q) :
  ascending lo l -> (i <= j)%nat ->
  nth_error l i = Some x -> nth_error l j = Some y -> x <= y.
Proof.
  revert lo i j. induction l as [|a l IH]; intros lo i j H Hij Hx Hy.
  - destruct i; discriminate.
  - destruct H as [H1 H2]. destruct i as [|i], j as [|j]; simpl in *.
    + injection Hx as <-. injection Hy as <-. apply Qle_refl.
    + injection Hx as <-. apply (ascending_head_le l a j y H2 Hy).
    + lia.
    + apply (IH a i j); auto. lia.
Qed.

Lemma take_ascending (jt : list Q) (lo : Q) (idx : list nat) (i0 : nat)
    (x0 : Q) (vals : list Q) :
  ascending lo jt -> nth_error jt i0 = Some x0 -> ascending_nat i0 idx ->
  take jt idx = Ok vals -> ascending x0 vals.
Proof.
  intros Hjt. revert i0 x0 vals.
  induction idx as [|i idx IH]; intros i0 x0 vals H0 Hidx E; simpl in E.
  - injection E as <-. exact I.
  - destruct (nth_error jt i) as [x|] eqn:En; [|discriminate].
    destruct (take jt idx) as [xs|] eqn:Et; [|discriminate].
    simpl in E. injection E as <-. destruct Hidx as [H1 H2]. simpl. split.
    + apply (ascending_nth jt lo i0 i); assumption.
    + apply (IH i x xs); auto.
Qed.

Lemma cumsum_ascending (lens : list nat) (acc : nat) :
  ascending_nat acc (cumsum acc lens).
Proof.
  revert acc. induction lens as [|n lens IH]; intro acc; simpl; [exact I|].
  split; [lia|apply IH].
Qed.

Lemma take_but_last (jt : list Q) (idx : list nat) (vals : list Q) :
  take jt idx = Ok vals -> take jt (Py.but_last idx) = Ok (removelast vals).
Proof.
  revert vals. induction idx as [|i idx IH]; intros vals E; simpl in E.
  - injection E as <-. reflexivity.
  - destruct (nth_error jt i) as [x|] eqn:En; [|discriminate].
    destruct (take jt idx) as [xs|] eqn:Et; [|discriminate].
    simpl in E. injection E as <-.
    destruct idx as [|i' idx].
    + simpl in Et. injection Et as <-. reflexivity.
    + unfold Py.but_last in *.
      change (removelast (i :: i' :: idx)) with (i :: removelast (i' :: idx)).
      cbn [take]. rewrite En, (IH xs eq_refl). simpl.
      destruct xs as [|x' xs]; [|reflexivity].
      simpl in Et. destruct (nth_error jt i'); [|discriminate].
      destruct (take jt idx); discriminate.
Qed.

Lemma take_shifted (jt : list Q) (i : nat) (idx : list nat)
    (begin_times end_times : list Q) :
  idx <> [] ->
  take jt (Py.but_last (i :: idx)) = Ok begin_times ->
  take jt idx = Ok end_times ->
  exists x, nth_error jt i = Some x
            /\ begin_times = x :: removelast end_times.
Proof.
  intros Hne Hb He. destruct idx as [|i' idx]; [congruence|].
  unfold Py.but_last in Hb.
  change (removelast (i :: i' :: idx)) with (i :: removelast (i' :: idx)) in Hb.
  cbn [take] in Hb.
  destruct (nth_error jt i) as [x|]; [|discriminate].
  exists x. split; [reflexivity|].
  apply take_but_last in He. unfold Py.but_last in He. rewrite He in Hb.
  simpl in Hb. injection Hb as <-. reflexivity.
Qed.

Lemma take_length (jt : list Q) (idx : list nat) (vals : list Q) :
  take jt idx = Ok vals -> length vals = length idx.
Proof.
  revert vals. induction idx as [|i idx IH]; intros vals E; simpl in E.
  - injection E as <-. reflexivity.
  - destruct (nth_error jt i); [|discriminate].
    destruct (take jt idx) as [xs|]; [|discriminate].
    simpl in E. injection E as <-. simpl. rewrite (IH xs eq_refl). reflexivity.
Qed.

Lemma Forall2_Qle_refl (l : list Q) : Forall2 Qle l l.
Proof. induction l; constructor; auto using Qle_refl. Qed.

Lemma Forall2_Qle_trans (a b c : list Q) :
  Forall2 Qle a b -> Forall2 Qle b c -> Forall2 Qle a c.
Proof.
  intro H. revert c. induction H as [|x y a b Hxy _ IH]; intros c Hc;
    inversion Hc; subst; constructor.
  - eapply Qle_trans; eassumption.
  - apply IH. assumption.
Qed.

Lemma ascending_shift (x : Q) (l : list Q) :
  ascending x l -> l <> [] -> Forall2 Qle (x :: removelast l) l.
Proof.
  revert x. induction l as [|y l IH]; intros x H Hne; [congruence|].
  destruct H as [H1 H2]. destruct l as [|z l].
  - simpl. constructor; [exact H1|constructor].
  - change (removelast (y :: z :: l)) with (y :: removelast (z :: l)).
    constructor; [exact H1|]. apply IH; [exact H2|discriminate].
Qed.

Lemma ascending_removelast (x : Q) (l : list Q) :
  ascending x l -> ascending x (removelast l).
Proof.
  revert x. induction l as [|y l IH]; intros x H; [exact I|].
  destruct H as [H1 H2]. destruct l as [|z l]; [exact I|].
  change (removelast (y :: z :: l)) with (y :: removelast (z :: l)).
  split; [exact H1|]. apply IH, H2.
Qed.

Lemma ascending_last_two (lo y x : Q) (l : list Q) :
  ascending lo (l ++ [y; x]) -> y <= x.
Proof.
  revert lo. induction l as [|a l IH]; intros lo H.
  - simpl in H. apply H.
  - simpl in H. apply (IH a), H.
Qed.

Lemma copy_first_to_second_le (lo : Q) (a a' : list Q) :
  ascending lo a -> copy_first_to_second a = Ok a' -> Forall2 Qle a' a.
Proof.
  intros H E. destruct a as [|x [|y a]]; try discriminate.
  simpl in E. injection E as <-.
  constructor; [apply Qle_refl|]. constructor; [apply H|].
  apply Forall2_Qle_refl.
Qed.

Lemma copy_last_to_before_le (lo : Q) (a a' : list Q) :
  ascending lo a -> copy_last_to_before a = Ok a' -> Forall2 Qle a a'.
Proof.
  intros H E. unfold copy_last_to_before in E.
  destruct (rev a) as [|x [|y r]] eqn:Er; try discriminate.
  injection E as <-.
  assert (Ea : a = rev r ++ [y; x]).
  { rewrite <- (rev_involutive a), Er. simpl. rewrite <- app_assoc. reflexivity. }
  rewrite Ea in *. simpl. rewrite <- app_assoc. simpl.
  apply Forall2_app; [apply Forall2_Qle_refl|].
  constructor; [apply (ascending_last_two _ _ _ _ H)|].
  constructor; [apply Qle_refl|constructor].
Qed.

Lemma Forall2_removelast {A : Type} (R : A -> A -> Prop) (l l' : list A) :
  Forall2 R l l' -> Forall2 R (removelast l) (removelast l').
Proof.
  induction 1 as [|x y l l' Hxy Hl IH]; [constructor|].
  destruct Hl as [|x' y' l l' Hxy' Hl].
  - constructor.
  - change (Forall2 R (x :: removelast (x' :: l)) (y :: removelast (y' :: l'))).
    constructor; assumption.
Qed.

Lemma Forall2_inner {A : Type} (R : A -> A -> Prop) (l l' : list A) :
  Forall2 R l l' -> Forall2 R (inner l) (inner l').
Proof.
  intro H. unfold inner. apply Forall2_removelast.
  destruct H; [constructor|assumption].
Qed.

Lemma word_dicts_ordered (start_time : Q) (words : list pystr)
    (begin_times end_times : list Q) :
  Forall2 Qle begin_times end_times ->
  Forall (fun w => start w <= end_ w)
    (word_dicts start_time words begin_times end_times).
Proof.
  intro H. revert words. induction H as [|b e bs es Hbe _ IH]; intros words.
  - destruct words; constructor.
  - destruct words as [|w words]; [constructor|]. simpl.
    destruct (negb _); [|apply IH].
    constructor; [|apply IH]. simpl. apply round2_le. lra.
Qed.

(** From a path whose frame coordinate never goes back, every word gets
    a start no later than its end. *)
Lemma words_from_path_ordered (path : list (Z * Z)) (words : list pystr)
    (word_tokens : list (list Segmenter.item)) (refine : Z)
    (start_time end_time : Q) (frames : nat) (ws : list word) :
  frames_ascend frames path ->
  words_from_path path words word_tokens refine start_time end_time = Ok ws ->
  inject_Z (Z.of_nat frames) * AUDIO_TIME_PER_TOKEN <= end_time - start_time ->
  Forall (fun w => start w <= end_ w) ws.
Proof.
  intros Ea H Hclose. unfold words_from_path in H.
  destruct (jumps_of path) as [jumps|] eqn:Ej; [|discriminate].
  cbn [bind] in H.
  destruct word_tokens as [|span word_tokens]; [discriminate|].
  cbn [bind] in H.
  set (jump_times := map (fun j => inject_Z j * AUDIO_TIME_PER_TOKEN) jumps
                     ++ [end_time - start_time]) in *.
  set (lens := map (@length Segmenter.item) (span :: word_tokens)) in *.
  assert (Hjt : ascending (inject_Z 0 * AUDIO_TIME_PER_TOKEN) jump_times).
  { apply (jump_times_ascending jumps 0 _ _
             (jumps_of_ascending _ _ _ Ea Ej) Hclose). }
  destruct (take jump_times (Py.but_last (O :: cumsum 0 lens)))
    as [begin_times|] eqn:Eb; [|discriminate].
  cbn [bind tl] in H.
  destruct (take jump_times (cumsum 0 lens)) as [end_times|] eqn:Ee;
    [|discriminate].
  cbn [bind] in H.
  assert (Hne : cumsum 0 lens <> []) by (unfold lens; discriminate).
  destruct (take_shifted _ _ _ _ _ Hne Eb Ee) as (x & Hx & ->).
  assert (Hend : ascending x end_times).
  { apply (take_ascending jump_times _ (cumsum 0 lens) 0 x end_times Hjt Hx);
      [apply cumsum_ascending|exact Ee]. }
  assert (Hlen : end_times <> []).
  { apply take_length in Ee. destruct end_times; [|discriminate].
    destruct (cumsum 0 lens); [congruence|discriminate]. }
  assert (Hbe : Forall2 Qle (x :: removelast end_times) end_times)
    by (apply ascending_shift; assumption).
  assert (Hbegin : ascending x (x :: removelast end_times)).
  { split; [apply Qle_refl|apply ascending_removelast, Hend]. }
  destruct (refine =? 0)%Z.
  - destruct (copy_first_to_second (x :: removelast end_times))
      as [b|] eqn:Eb'; [|discriminate].
    cbn [bind] in H.
    destruct (copy_last_to_before end_times) as [e|] eqn:Ee'; [|discriminate].
    cbn [bind] in H. injection H as <-.
    apply word_dicts_ordered, Forall2_inner.
    apply (Forall2_Qle_trans _ (x :: removelast end_times));
      [apply (copy_first_to_second_le x _ _ Hbegin Eb')|].
    apply (Forall2_Qle_trans _ end_times); [exact Hbe|].
    apply (copy_last_to_before_le x _ _ Hend Ee').
  - cbn [bind] in H. injection H as <-.
    apply word_dicts_ordered, Forall2_inner, Hbe.
Qed.
Section WithAlignment.

Variable alignment :
  tensor -> forall (medfilt_width : nat) (qk_scale : Q)
                   (most_top_layers : option nat), result (list (Z * Z)).
Variable tokenizer : Tokenizer.

(** Every retry of line 523 stops at the shape assertion of line 484. *)
Lemma perform_word_alignment_retry (num_frames : Z) (a : attention)
    (rest collapsed : list attention) (fuel : nat) (tokens : list Z)
    (use_space : bool) (refine : Z) (add : bool) (medfilt_width : nat)
    (qk_scale : Q) (most_top_layers : option nat) (remove : bool) :
  collapse_layers num_frames (a :: rest) = Ok collapsed ->
  perform_word_alignment alignment tokenizer (S fuel) tokens collapsed
    use_space refine add medfilt_width qk_scale most_top_layers remove
  = Some (Raise (AttributeError "'list' object has no attribute 'shape'")).
Proof.
  intro H. destruct (collapse_layers_lists _ _ _ _ H) as (ws & rest' & ->).
  reflexivity.
Qed.

Lemma cat_layers_nonempty (aw : list attention) (w : tensor) :
  cat_layers aw = Ok w -> exists a rest, aw = a :: rest.
Proof. destruct aw; [discriminate|eauto]. Qed.

(** A retry never returns a word list. *)
Lemma perform_word_alignment_retry_no_words (num_frames : Z)
    (aw collapsed : list attention) (weights : tensor) (fuel : nat)
    (tokens : list Z) (use_space : bool) (refine : Z) (add : bool)
    (medfilt_width : nat) (qk_scale : Q) (most_top_layers : option nat)
    (remove : bool) (ws : list word) :
  cat_layers aw = Ok weights ->
  collapse_layers num_frames aw = Ok collapsed ->
  perform_word_alignment alignment tokenizer fuel tokens collapsed
    use_space refine add medfilt_width qk_scale most_top_layers remove
  <> Some (Ok ws).
Proof.
  intros Hc Hl. destruct (cat_layers_nonempty _ _ Hc) as (a & rest & ->).
  destruct fuel as [|fuel]; [discriminate|].
  rewrite (perform_word_alignment_retry _ _ _ _ _ _ _ _ _ _ _ _ _ Hl).
  discriminate.
Qed.

(** Every word of the normal path, and the placeholder of a one-token
    sequence, starts no later than it ends, provided the frame coordinate
    of the warping path never goes back. *)
Lemma perform_word_alignment_ordered (fuel : nat) (tokens : list Z)
    (aw : list attention) (use_space : bool) (refine : Z) (add : bool)
    (medfilt_width : nat) (qk_scale : Q) (most_top_layers : option nat)
    (remove : bool) (ws : list word) :
  (forall w mw qs mt path,
      alignment w mw qs mt = Ok path -> frames_ascend (n_frame w) path) ->
  perform_word_alignment alignment tokenizer fuel tokens aw use_space refine
    add medfilt_width qk_scale most_top_layers remove = Some (Ok ws) ->
  length tokens = 1%nat \/ add = false
  \/ (exists l last, tokens = l ++ [last]
                     /\ (timestamp_begin tokenizer <= last)%Z) ->
  Forall (fun w => start w <= end_ w) ws.
Proof.
  intros Hpath H Hnormal.
  destruct fuel as [|fuel]; [discriminate|].
  cbn [perform_word_alignment] in H.
  destruct (check_shapes (length tokens) aw); [|discriminate H].
  destruct tokens as [|first rest]; [discriminate|].
  destruct (Py.last_item (first :: rest)) as [last|] eqn:El;
    [|discriminate].
  set (tb := timestamp_begin tokenizer) in *.
  destruct (first - tb <? 0)%Z eqn:Es; [discriminate|].
  apply Z.ltb_ge in Es.
  match type of H with
  | (if ?b then _ else _) = _ => destruct b eqn:Ep
  end.
  { destruct add; injection H as <-; [|constructor].
    constructor; [|constructor]. simpl.
    assert (E1 : length (first :: rest) = 1%nat).
    { destruct Hnormal as [E1|[E1|(l & last' & E1 & Hl)]];
        [exact E1|discriminate|].
      apply orb_true_iff in Ep. destruct Ep as [Ep|Ep];
        [apply Nat.eqb_eq, Ep|].
      exfalso. rewrite E1 in El. unfold Py.last_item in El.
      rewrite rev_app_distr in El. simpl in El. injection El as <-.
      apply Z.ltb_lt in Ep. unfold tb in Ep. lia. }
    destruct rest; [|discriminate].
    unfold Py.last_item in El. simpl in El. injection El as <-.
    apply Qle_refl. }
  match type of H with
  | (if ?b then _ else _) = _ => destruct b
  end.
  { injection H as <-. constructor. }
  set (start_token := if (0 <? refine)%Z then Z.max (first - tb - refine) 0
                      else (first - tb)%Z) in *.
  set (end_token := if (0 <? refine)%Z
                    then Z.min (last - tb + refine) (N_FRAMES / 2)
                    else (last - tb)%Z) in *.
  assert (Hs0 : (0 <= start_token)%Z).
  { unfold start_token. destruct (0 <? refine)%Z; lia. }
  destruct (end_token <=? start_token)%Z eqn:Ele; [discriminate|].
  apply Z.leb_gt in Ele.
  match type of H with
  | match ?c with _ => _ end = _ =>
      destruct c as [[words word_tokens]|]; [|discriminate]
  end.
  destruct (cat_layers aw) as [weights|] eqn:Ec; [|discriminate].
  match type of H with
  | (if ?b then _ else _) = _ => destruct b
  end.
  { exfalso. destruct (collapse_layers _ aw) as [collapsed|] eqn:Ecl;
      [|discriminate].
    apply (perform_word_alignment_retry_no_words _ _ _ _ _ _ _ _ _ _ _ _ _ _
             Ec Ecl H). }
  injection H as H. unfold py_assert in H.
  match type of H with
  | bind (if ?b then _ else _) _ = _ => destruct b; [|discriminate]
  end.
  cbn [bind] in H.
  match type of H with
  | bind (if ?b then _ else _) _ = _ => destruct b; [|discriminate]
  end.
  cbn [bind] in H.
  destruct (alignment _ medfilt_width qk_scale most_top_layers)
    as [path|] eqn:Ea; [|discriminate].
  cbn [bind] in H. apply Hpath in Ea.
  apply (words_from_path_ordered _ _ _ _ _ _ _ _ Ea) in H; [exact H|].
  cbn [Torch.frames_between n_frame]. unfold Py.clamp_index.
  destruct (start_token <? 0)%Z eqn:E1; [apply Z.ltb_lt in E1; lia|].
  destruct (end_token <? 0)%Z eqn:E2; [apply Z.ltb_lt in E2; lia|].
  assert (Hz : (Z.of_nat (Nat.min (n_frame weights) (Z.to_nat end_token)
                          - Nat.min (n_frame weights) (Z.to_nat start_token))
                <= end_token - start_token)%Z) by lia.
  rewrite Zle_Qle in Hz. unfold Z.sub in Hz.
  rewrite inject_Z_plus, inject_Z_opp in Hz.
  unfold AUDIO_TIME_PER_TOKEN. lra.
Qed.

End WithAlignment.
End AlignerFacts.

(** ** Claims about the forced alignment driver *)

Section AlignerClaims.
Import Aligner AlignerFacts.

Lemma seq_ascending_within (a n : nat) (lo hi : Z) :
  (lo <= Z.of_nat a)%Z -> (Z.of_nat (a + n) <= hi)%Z ->
  ascending_within lo hi (map Z.of_nat (seq a n)).
Proof.
  revert a lo. induction n as [|n IH]; intros a lo H1 H2; simpl.
  - lia.
  - split; [exact H1|]. apply IH; lia.
Qed.

(** The path of [Toy.alignment] never goes back. *)
Lemma toy_alignment_ascends (w : tensor) (mw : nat) (qs : Q)
    (mt : option nat) (path : list (Z * Z)) :
  Toy.alignment w mw qs mt = Ok path -> frames_ascend (n_frame w) path.
Proof.
  unfold Toy.alignment, frames_ascend.
  destruct (n_frame w <? n_query w)%nat eqn:E; [discriminate|].
  apply Nat.ltb_ge in E. intro H. injection H as <-.
  rewrite map_app, !map_map. cbn [snd].
  rewrite <- map_app, <- seq_app.
  apply seq_ascending_within; lia.
Qed.

(** The normal path on [<|0.00|> Hello, world! <|0.20|>]. *)
Example perform_word_alignment_ordered_example :
  exists ws,
    perform_word_alignment Toy.alignment Toy.tokenizer 1
      [100; 0; 2; 1; 3; 110]%Z [ATensor (Toy.uniform 6 6 1500)]
      true 0 true 9 1 None false = Some (Ok ws)
    /\ length ws = 2%nat /\ Forall (fun w => start w <= end_ w) ws.
Proof.
  eexists. split; [vm_compute; reflexivity|]. split; [reflexivity|].
  eapply (perform_word_alignment_ordered Toy.alignment Toy.tokenizer 1
            [100; 0; 2; 1; 3; 110]%Z [ATensor (Toy.uniform 6 6 1500)]
            true 0 true 9 1 None false _ toy_alignment_ascends).
  - vm_compute. reflexivity.
  - right. right. exists [100; 0; 2; 1; 3]%Z, 110%Z. split; [reflexivity|].
    simpl. lia.
Qed.

(** C2, the failing input: a segment cut off after two words,
    [<|1.00|> Hello world], with the placeholder requested.  The word
    returned starts at 1.0 and ends at -1.98: its end is computed from
    the last token although that token is not a timestamp. *)
Theorem perform_word_alignment_placeholder_ends_before_start :
  exists w,
    perform_word_alignment Toy.alignment Toy.tokenizer 1 [150; 0; 1]%Z
      [ATensor (Toy.uniform 6 3 1500)] true 0 true 9 1 None false
    = Some (Ok [w])
    /\ start w == 1 /\ end_ w == - (198 # 100) /\ ~ start w <= end_ w.
Proof.
  eexists. split; [vm_compute; reflexivity|].
  split; [reflexivity|]. split; [reflexivity|].
  intro H. vm_compute in H. apply H. reflexivity.
Qed.

(** C5, the failing input: six tokens between [<|0.00|>] and [<|0.04|>],
    two frames.  The retry is called with one Python list per layer in
    place of a tensor and the shape assertion at its entry raises
    [AttributeError]; no word list is produced. *)
Theorem perform_word_alignment_too_many_tokens_raises :
  forall fuel,
    perform_word_alignment Toy.alignment Toy.tokenizer (S (S fuel))
      [100; 0; 1; 2; 3; 102]%Z [ATensor (Toy.uniform 6 6 1500)]
      true 0 true 9 1 None false
    = Some (Raise (AttributeError "'list' object has no attribute 'shape'")).
Proof. intro fuel. vm_compute. reflexivity. Qed.

(** C6.  Decoding cut off: a token sequence that opens on a timestamp
    and does not close on one, with attention weights of matching shape
    and [add_even_if_missing_end_token] set.  [perform_word_alignment]
    does not raise and returns exactly one word, with empty text and the
    time of the start marker as its start.  When the start marker stands
    alone the end is that time too.  When text tokens follow, the end is
    computed on line 496 from the last token, which is no timestamp: it
    is negative, and the word does not have [start == end]. *)
Theorem perform_word_alignment_cut_off_placeholder
    (alignment : tensor -> nat -> Q -> option nat -> result (list (Z * Z)))
    (tokenizer : Tokenizer) (fuel : nat) (first : Z)
    (attention_weights : list attention) (use_space : bool) (refine : Z)
    (medfilt_width : nat) (qk_scale : Q) (most_top_layers : option nat)
    (remove : bool) :
  (timestamp_begin tokenizer <= first)%Z ->
  (check_shapes 1 attention_weights = Ok tt ->
   exists w,
     perform_word_alignment alignment tokenizer (S fuel) [first]
       attention_weights use_space refine true medfilt_width qk_scale
       most_top_layers remove = Some (Ok [w])
     /\ text w = []
     /\ start w
        == inject_Z (first - timestamp_begin tokenizer) * AUDIO_TIME_PER_TOKEN
     /\ end_ w = start w)
  /\ (forall middle last,
        (last < timestamp_begin tokenizer)%Z ->
        check_shapes (length (first :: middle ++ [last])) attention_weights
        = Ok tt ->
        exists w,
          perform_word_alignment alignment tokenizer (S fuel)
            (first :: middle ++ [last]) attention_weights use_space refine
            true medfilt_width qk_scale most_top_layers remove
          = Some (Ok [w])
          /\ text w = []
          /\ start w
             == inject_Z (first - timestamp_begin tokenizer)
                * AUDIO_TIME_PER_TOKEN
          /\ end_ w
             == inject_Z (last - timestamp_begin tokenizer)
                * AUDIO_TIME_PER_TOKEN
          /\ end_ w < 0 /\ 0 <= start w /\ ~ start w == end_ w).
Proof.
  intro Hf.
  assert (E1 : (first - timestamp_begin tokenizer <? 0)%Z = false)
    by (apply Z.ltb_ge; lia).
  split.
  - intro Hs. cbn [perform_word_alignment].
    change (length [first]) with 1%nat. rewrite Hs.
    cbn [Py.last_item rev app]. rewrite E1. cbn [Nat.eqb orb].
    eexists. split; [reflexivity|]. split; [reflexivity|].
    split; [|reflexivity]. simpl.
    apply round2_on_grid, timestamp_on_grid.
  - intros middle last Hl Hs. cbn [perform_word_alignment]. rewrite Hs.
    assert (E : Py.last_item (first :: middle ++ [last]) = Ok last).
    { unfold Py.last_item. change (first :: middle ++ [last])
        with ((first :: middle) ++ [last]).
      rewrite rev_app_distr. reflexivity. }
    rewrite E.
    assert (E2 : (last - timestamp_begin tokenizer <? 0)%Z = true)
      by (apply Z.ltb_lt; lia).
    rewrite E1, E2, orb_true_r.
    eexists. split; [reflexivity|]. split; [reflexivity|].
    cbn [start end_].
    assert (S1 := round2_on_grid _
                    (timestamp_on_grid (first - timestamp_begin tokenizer))).
    assert (S2 := round2_on_grid _
                    (timestamp_on_grid (last - timestamp_begin tokenizer))).
    assert (H1 : inject_Z (last - timestamp_begin tokenizer) < inject_Z 0)
      by (rewrite <- Zlt_Qlt; lia).
    assert (H2 : inject_Z 0 <= inject_Z (first - timestamp_begin tokenizer))
      by (rewrite <- Zle_Qle; lia).
    change (inject_Z 0) with 0 in H1, H2.
    unfold AUDIO_TIME_PER_TOKEN in *.
    split; [exact S1|]. split; [exact S2|].
    split; [lra|]. split; [lra|]. intro H. lra.
Qed.

Lemma perform_word_alignment_cut_off_placeholder_witness :
  (exists w,
      perform_word_alignment Toy.alignment Toy.tokenizer 1 [150%Z]
        [ATensor (Toy.uniform 6 1 1500)] true 0 true 9 1 None false
      = Some (Ok [w])
      /\ text w = []
      /\ start w == inject_Z (150 - 100) * AUDIO_TIME_PER_TOKEN
      /\ end_ w = start w)
  /\ (exists w,
        perform_word_alignment Toy.alignment Toy.tokenizer 1 [150; 0; 1]%Z
          [ATensor (Toy.uniform 6 3 1500)] true 0 true 9 1 None false
        = Some (Ok [w])
        /\ text w = []
        /\ start w == inject_Z (150 - 100) * AUDIO_TIME_PER_TOKEN
        /\ end_ w == inject_Z (1 - 100) * AUDIO_TIME_PER_TOKEN
        /\ end_ w < 0 /\ 0 <= start w /\ ~ start w == end_ w).
Proof.
  split.
  - apply (proj1 (perform_word_alignment_cut_off_placeholder Toy.alignment
                    Toy.tokenizer 0 150 [ATensor (Toy.uniform 6 1 1500)]
                    true 0 9 1 None false ltac:(simpl; lia))).
    reflexivity.
  - apply (proj2 (perform_word_alignment_cut_off_placeholder Toy.alignment
                    Toy.tokenizer 0 150 [ATensor (Toy.uniform 6 3 1500)]
                    true 0 9 1 None false ltac:(simpl; lia)) [0%Z] 1%Z).
    + simpl. lia.
    + reflexivity.
Defined.

End AlignerClaims.

(** ** The segment accumulator *)

Module AccumulatorFacts.
Import Accumulator.

Lemma last_item_snoc {A : Type} (l : list A) (x : A) :
  Py.last_item (l ++ [x]) = Ok x.
Proof. unfold Py.last_item. rewrite rev_app_distr. reflexivity. Qed.

Lemma update_last_snoc {A : Type} (f : A -> A) (l : list A) (x : A) :
  Py.update_last f (l ++ [x]) = Ok (l ++ [f x]).
Proof. apply PyFacts.update_last_app. Qed.

(** [reset(False, keep_last_token)] empties the open buffer, whatever
    [keep_last_token] is. *)
Lemma reset_discard (s : state) (keep_last_token : bool)
    (before : list (list Z)) (cur : list Z) :
  tok_indices s = before ++ [cur] ->
  exists s',
    reset s false keep_last_token = Ok s'
    /\ tok_indices s' = before ++ [[]]
    /\ timestamped_word_segments s' = timestamped_word_segments s
    /\ saw_consecutive_timestamps s' = saw_consecutive_timestamps s
    /\ has_started s' = has_started s
    /\ index_begin_30sec_chunck s' = index_begin_30sec_chunck s.
Proof.
  intro E. unfold reset. rewrite E, last_item_snoc. cbn [bind].
  destruct cur as [|t cur].
  - exists s. rewrite E. simpl. auto 10.
  - cbn [length Nat.ltb Nat.leb]. rewrite update_last_snoc. cbn [bind].
    eexists. split; [reflexivity|]. simpl. auto 10.
Qed.

Section WithModel.

Variable tokenizer : Tokenizer.

(** The decision of [must_flush_segment] on a prompt. *)
Lemma must_flush_segment_on_prompt (s : state) (curr : list Z)
    (before : list (list Z)) (cur : list Z) :
  (1 < length curr)%nat ->
  tok_indices s = before ++ [cur] ->
  exists s',
    must_flush_segment tokenizer s (Some curr)
    = Ok (s', negb (saw_consecutive_timestamps s))
    /\ saw_consecutive_timestamps s' = false
    /\ timestamped_word_segments s' = timestamped_word_segments s
    /\ has_started s' = has_started s
    /\ index_begin_30sec_chunck s' = index_begin_30sec_chunck s
    /\ tok_indices s'
       = before ++ [if saw_consecutive_timestamps s then [] else cur]
    /\ (saw_consecutive_timestamps s = false ->
        tok_attweights s' = tok_attweights s).
Proof.
  intros Hc E. unfold must_flush_segment.
  destruct curr as [|a [|b curr]]; try (simpl in Hc; lia).
  destruct (saw_consecutive_timestamps s) eqn:Es; cbn [negb].
  - destruct (reset_discard s true before cur E)
      as (s' & -> & H1 & H2 & H3 & H4 & H5).
    cbn [bind]. eexists. split; [reflexivity|]. simpl.
    repeat split; auto. discriminate.
  - cbn [bind]. eexists. split; [reflexivity|]. simpl.
    repeat split; auto.
Qed.

Variable alignment :
  tensor -> forall (medfilt_width : nat) (qk_scale : Q)
                   (most_top_layers : option nat), result (list (Z * Z)).
Variable use_space : bool.
Variable refine : Z.
Variable remove : bool.

(** The silence filter keeps a prefix of the collected segments and the
    open buffer. *)
Lemma filter_window_prefix (no_speech_threshold logprob_threshold : option Q)
    (s s' : state) (i_start : Z) (before : list (list Z)) (cur : list Z) :
  tok_indices s = before ++ [cur] ->
  filter_window tokenizer no_speech_threshold logprob_threshold s i_start
  = Ok s' ->
  (exists n, timestamped_word_segments s'
             = firstn n (timestamped_word_segments s))
  /\ (exists before', tok_indices s' = before' ++ [cur])
  /\ saw_consecutive_timestamps s' = saw_consecutive_timestamps s.
Proof.
  intros E H. unfold filter_window in H.
  assert (Same : (exists n, timestamped_word_segments s
                            = firstn n (timestamped_word_segments s))
                 /\ (exists before', tok_indices s = before' ++ [cur])
                 /\ saw_consecutive_timestamps s
                    = saw_consecutive_timestamps s).
  { split; [|eauto]. exists (length (timestamped_word_segments s)).
    rewrite firstn_all. reflexivity. }
  destruct no_speech_threshold as [threshold|].
  2:{ cbn [bind] in H. injection H as <-. exact Same. }
  destruct (no_speech_prob s) as [p|]; [|discriminate]. cbn [bind] in H.
  match type of H with
  | bind (bind ?c _) _ = _ => destruct c as [[should_skip avg]|] eqn:Ec
  end; [|discriminate].
  cbn [bind] in H. destruct should_skip.
  - destruct avg as [avg|]; [|discriminate].
    rewrite E, last_item_snoc in H. cbn [bind] in H. injection H as <-.
    simpl. unfold Py.slice_to. split; eauto.
  - cbn [bind] in H. injection H as <-. exact Same.
Qed.

(** Without a no-speech threshold nothing is filtered. *)
Lemma filter_window_disabled (logprob_threshold : option Q) (s : state)
    (i_start : Z) :
  filter_window tokenizer None logprob_threshold s i_start
  = Ok (reset_counters s).
Proof. reflexivity. Qed.

(** With a no-speech threshold and no log-probability threshold, the
    message of line 287 cannot be built in a window to be skipped. *)
Lemma filter_window_unbound (threshold p : Q) (s : state) (i_start : Z) :
  no_speech_prob s = Some p -> threshold < p ->
  filter_window tokenizer (Some threshold) None s i_start
  = Raise (UnboundLocalError "avg_logprob").
Proof.
  intros E H. unfold filter_window. rewrite E. cbn [bind].
  apply Qltb_lt in H. rewrite H. reflexivity.
Qed.

(** With both thresholds, the window is dropped exactly when its
    no-speech probability exceeds its threshold and the average
    log-probability does not exceed the other one. *)
Lemma filter_window_both (threshold lp_threshold p avg : Q) (s : state)
    (i_start : Z) (before : list (list Z)) (cur : list Z) :
  no_speech_prob s = Some p ->
  tok_indices s = before ++ [cur] ->
  (threshold < p -> average_logprob tokenizer s = Ok avg) ->
  filter_window tokenizer (Some threshold) (Some lp_threshold) s i_start
  = Ok (reset_counters
          (if Qltb threshold p && negb (Qltb lp_threshold avg)
           then with_segments
                  (with_tok s (Py.slice_to i_start (tok_indices s) ++ [cur])
                     (tok_attweights s))
                  (Py.slice_to i_start (timestamped_word_segments s))
           else s)).
Proof.
  intros Ep E Ha. unfold filter_window. rewrite Ep. cbn [bind].
  destruct (Qltb threshold p) eqn:El.
  - rewrite Ha by (apply Qltb_lt, El). cbn [bind andb].
    destruct (Qltb lp_threshold avg); cbn [bind negb]; [reflexivity|].
    rewrite E at 1. rewrite last_item_snoc. reflexivity.
  - reflexivity.
Qed.

(** An empty token list is never aligned. *)
Lemma perform_word_alignment_empty (fuel : nat) (aw : list Aligner.attention)
    (add : bool) (medfilt_width : nat) (qk_scale : Q)
    (most_top_layers : option nat) (ws : list word) :
  Aligner.perform_word_alignment alignment tokenizer fuel [] aw use_space
    refine add medfilt_width qk_scale most_top_layers remove
  <> Some (Ok ws).
Proof.
  destruct fuel as [|fuel]; simpl; [discriminate|].
  destruct (Aligner.check_shapes 0 aw); discriminate.
Qed.

(** On a prompt that finds [saw_consecutive_timestamps] set, no word
    list is produced: the buffer is emptied and the alignment is not
    run. *)
Lemma may_flush_segment_discards (no_speech_threshold logprob_threshold : option Q)
    (fuel : nat) (s : state) (curr : list Z) (before : list (list Z))
    (cur : list Z) :
  (1 < length curr)%nat ->
  tok_indices s = before ++ [cur] ->
  saw_consecutive_timestamps s = true ->
  exists r,
    may_flush_segment alignment tokenizer use_space refine remove
      no_speech_threshold logprob_threshold fuel s (Some curr) = Some r
    /\ forall s', r = Ok s' ->
         (exists n, timestamped_word_segments s'
                    = firstn n (timestamped_word_segments s))
         /\ (exists before', tok_indices s' = before' ++ [[]])
         /\ saw_consecutive_timestamps s' = false.
Proof.
  intros Hc E Hs. unfold may_flush_segment.
  destruct (must_flush_segment_on_prompt s curr before cur Hc E)
    as (s1 & -> & H1 & H2 & H3 & H4 & H5 & _).
  rewrite Hs in *. cbn [negb].
  unfold get_index_begin_30sec_chunck.
  assert (Hp : (1 <? length curr)%nat = true) by (apply Nat.ltb_lt; exact Hc).
  rewrite Hp.
  replace (has_started (with_index_begin s1
             (Z.of_nat (length (tok_indices s1)) - 1)))
    with (has_started s1) by reflexivity.
  destruct (has_started s1).
  - eexists. split; [reflexivity|]. intros s' Hr.
    apply (filter_window_prefix _ _ _ _ _ before []) in Hr; [|exact H5].
    destruct Hr as ([n Hn] & Hb & Hf). simpl in Hn, Hf.
    rewrite H2 in Hn. rewrite H1 in Hf. eauto.
  - eexists. split; [reflexivity|]. intros s' Hr. injection Hr as <-.
    simpl. rewrite H2. split.
    + exists (length (timestamped_word_segments s)).
      rewrite firstn_all. reflexivity.
    + split; [eauto|exact H1].
Qed.

(** On a prompt that finds the flag clear, the buffered tokens without
    their first one are aligned.  Words that come back become a new
    segment and the buffer restarts empty; without words nothing is
    added and the buffer is emptied.  Once decoding has started, the
    silence filter of the finished window runs on the state so
    obtained. *)
Lemma may_flush_segment_aligns
    (no_speech_threshold logprob_threshold : option Q)
    (fuel : nat) (s : state) (curr : list Z) (before : list (list Z))
    (cur : list Z) (aw : list tensor) (ws : list word) :
  (1 < length curr)%nat ->
  tok_indices s = before ++ [cur] ->
  saw_consecutive_timestamps s = false ->
  Py.map_result (fun w => Torch.cat_query (Py.but_last w)) (tok_attweights s)
  = Ok aw ->
  Aligner.perform_word_alignment alignment tokenizer fuel (tl cur)
    (map Aligner.ATensor aw) use_space refine true 9 1 None remove
  = Some (Ok ws) ->
  exists s2,
    timestamped_word_segments s2
    = timestamped_word_segments s
      ++ match ws with [] => [] | _ :: _ => [ws] end
    /\ tok_indices s2
       = before ++ match ws with [] => [[]] | _ :: _ => [tl cur; []] end
    /\ saw_consecutive_timestamps s2 = false
    /\ may_flush_segment alignment tokenizer use_space refine remove
         no_speech_threshold logprob_threshold fuel s (Some curr)
       = Some (if has_started s
               then filter_window tokenizer no_speech_threshold
                      logprob_threshold s2 (index_begin_30sec_chunck s)
               else Ok s2).
Proof.
  intros Hc E Hs Hcat Hal. unfold may_flush_segment.
  destruct (must_flush_segment_on_prompt s curr before cur Hc E)
    as (s1 & -> & H1 & H2 & H3 & H4 & H5 & H6).
  rewrite Hs in *. cbn [negb]. specialize (H6 eq_refl).
  rewrite H5, last_item_snoc, H6, Hcat. cbn [bind]. rewrite Hal.
  assert (Hk : (length curr =? 1)%nat = false) by (apply Nat.eqb_neq; lia).
  rewrite Hk.
  destruct cur as [|t cur].
  { exfalso. apply (perform_word_alignment_empty _ _ _ _ _ _ _ Hal). }
  assert (Hp : (1 <? length curr)%nat = true) by (apply Nat.ltb_lt; exact Hc).
  destruct ws as [|w ws].
  - cbn [length Nat.ltb Nat.leb]. unfold reset.
    rewrite H5, last_item_snoc. cbn [bind length Nat.ltb Nat.leb].
    rewrite update_last_snoc. cbn [bind].
    unfold get_index_begin_30sec_chunck. rewrite Hp.
    cbn [has_started with_index_begin with_tok index_begin_30sec_chunck].
    rewrite H3, H4.
    match goal with
    | |- exists s2, _ /\ _ /\ _
                    /\ (if _ then Some (filter_window _ _ _ ?X _) else _) = _ =>
        exists X
    end.
    split; [|split; [|split; [|destruct (has_started s); reflexivity]]].
    + cbn. rewrite H2, app_nil_r. reflexivity.
    + reflexivity.
    + cbn. exact H1.
  - cbn [length Nat.ltb Nat.leb]. unfold reset, with_segments.
    cbn [tok_indices tok_attweights bind].
    rewrite H5. unfold update_before_last.
    rewrite !rev_app_distr. cbn [rev app pop_front bind].
    unfold get_index_begin_30sec_chunck. rewrite Hp.
    cbn [has_started with_index_begin with_tok index_begin_30sec_chunck].
    rewrite H3, H4.
    match goal with
    | |- exists s2, _ /\ _ /\ _
                    /\ (if _ then Some (filter_window _ _ _ ?X _) else _) = _ =>
        exists X
    end.
    split; [|split; [|split; [|destruct (has_started s); reflexivity]]].
    + cbn. rewrite H2. reflexivity.
    + cbn. rewrite rev_involutive, <- app_assoc. reflexivity.
    + cbn. exact H1.
Qed.

End WithModel.
End AccumulatorFacts.

(** ** Claims about the segment accumulator *)

Section AccumulatorClaims.
Import Accumulator Decoding AccumulatorFacts.

(** C1, as stated, fails in both directions.  After a run whose output
    ends on two consecutive timestamps ([... <|0.20|> <|0.20|>]) the next
    prompt produces no segment and empties the buffer [[110; 110]]
    without keeping its last token; after a run whose output ends on a
    word followed by one timestamp, the next prompt flushes the buffer as
    a new segment. *)
Lemma prompt_flush_is_not_on_consecutive_timestamps :
  (exists s s',
      run Toy.alignment Toy.tokenizer true 0 false None None 2 (initial 1)
        Toy.run_consecutive_timestamps = Some (Ok s)
      /\ chunk_tokens_nosot s = [100; 0; 1; 110; 110]%Z
      /\ tok_indices s = [[100; 0; 1; 110]; [110; 110]]%Z
      /\ may_flush_segment Toy.alignment Toy.tokenizer true 0 false None None
           2 s (Some Toy.prompt) = Some (Ok s')
      /\ timestamped_word_segments s' = timestamped_word_segments s
      /\ tok_indices s' = [[100; 0; 1; 110]; []]%Z)
  /\ (exists s s',
        run Toy.alignment Toy.tokenizer true 0 false None None 2 (initial 1)
          Toy.run_single_timestamp = Some (Ok s)
        /\ chunk_tokens_nosot s = [100; 0; 1; 110]%Z
        /\ tok_indices s = [[61; 100; 0; 1; 110]]%Z
        /\ may_flush_segment Toy.alignment Toy.tokenizer true 0 false None None
             2 s (Some Toy.prompt) = Some (Ok s')
        /\ length (timestamped_word_segments s')
           = S (length (timestamped_word_segments s))
        /\ tok_indices s' = [[100; 0; 1; 110]; []]%Z).
Proof.
  split; do 2 eexists.
  - split; [vm_compute; reflexivity|].
    split; [reflexivity|]. split; [reflexivity|].
    split; [vm_compute; reflexivity|].
    split; reflexivity.
  - split; [vm_compute; reflexivity|].
    split; [reflexivity|]. split; [reflexivity|].
    split; [vm_compute; reflexivity|].
    split; reflexivity.
Qed.

(** C1, amended.  On every prompt event the buffered tokens are
    submitted to the alignment exactly when [saw_consecutive_timestamps]
    is clear, that is when no single-token event since the previous
    prompt found two consecutive timestamp-class tokens; the flag is
    cleared by the prompt.  When the flag is set the buffer is emptied,
    its last token included, and no word list is produced.  When it is
    clear the buffered tokens without their first one are aligned: words
    that come back are appended as a new segment and the buffer restarts
    empty, and without words no segment is added and the buffer is
    emptied.  Once decoding has started the silence filter of the
    finished window then runs on that state: it can only remove
    segments, and without a no-speech threshold it removes none. *)
Theorem prompt_flushes_when_no_consecutive_timestamps_seen
    (alignment : tensor -> nat -> Q -> option nat -> result (list (Z * Z)))
    (tokenizer : Tokenizer) (use_space : bool) (refine : Z) (remove : bool)
    (no_speech_threshold logprob_threshold : option Q) (fuel : nat)
    (s : state) (curr : list Z) (before : list (list Z)) (cur : list Z) :
  (1 < length curr)%nat ->
  tok_indices s = before ++ [cur] ->
  (exists s1,
      must_flush_segment tokenizer s (Some curr)
      = Ok (s1, negb (saw_consecutive_timestamps s))
      /\ saw_consecutive_timestamps s1 = false
      /\ timestamped_word_segments s1 = timestamped_word_segments s
      /\ tok_indices s1
         = before ++ [if saw_consecutive_timestamps s then [] else cur])
  /\ (saw_consecutive_timestamps s = true ->
      exists r,
        may_flush_segment alignment tokenizer use_space refine remove
          no_speech_threshold logprob_threshold fuel s (Some curr) = Some r
        /\ forall s', r = Ok s' ->
             (exists n, timestamped_word_segments s'
                        = firstn n (timestamped_word_segments s))
             /\ (exists before', tok_indices s' = before' ++ [[]])
             /\ saw_consecutive_timestamps s' = false)
  /\ (saw_consecutive_timestamps s = false ->
      forall aw ws,
        Py.map_result (fun w => Torch.cat_query (Py.but_last w))
          (tok_attweights s) = Ok aw ->
        Aligner.perform_word_alignment alignment tokenizer fuel (tl cur)
          (map Aligner.ATensor aw) use_space refine true 9 1 None remove
        = Some (Ok ws) ->
        exists s2,
          timestamped_word_segments s2
          = timestamped_word_segments s
            ++ match ws with [] => [] | _ :: _ => [ws] end
          /\ tok_indices s2
             = before ++ match ws with [] => [[]] | _ :: _ => [tl cur; []] end
          /\ saw_consecutive_timestamps s2 = false
          /\ may_flush_segment alignment tokenizer use_space refine remove
               no_speech_threshold logprob_threshold fuel s (Some curr)
             = Some (if has_started s
                     then filter_window tokenizer no_speech_threshold
                            logprob_threshold s2 (index_begin_30sec_chunck s)
                     else Ok s2)
          /\ (forall s',
                may_flush_segment alignment tokenizer use_space refine remove
                  no_speech_threshold logprob_threshold fuel s (Some curr)
                = Some (Ok s') ->
                (exists n, timestamped_word_segments s'
                           = firstn n (timestamped_word_segments s2))
                /\ (exists before', tok_indices s' = before' ++ [[]])
                /\ saw_consecutive_timestamps s' = false)
          /\ (no_speech_threshold = None ->
              exists s',
                may_flush_segment alignment tokenizer use_space refine remove
                  no_speech_threshold logprob_threshold fuel s (Some curr)
                = Some (Ok s')
                /\ timestamped_word_segments s' = timestamped_word_segments s2
                /\ tok_indices s' = tok_indices s2)).
Proof.
  intros Hc E. split; [|split].
  - destruct (must_flush_segment_on_prompt tokenizer s curr before cur Hc E)
      as (s1 & H0 & H1 & H2 & _ & _ & H5 & _).
    exists s1. auto.
  - intro Hs. apply (may_flush_segment_discards _ _ _ _ _ _ _ _ _ _ _ _ Hc E Hs).
  - intros Hs aw ws Hcat Hal.
    destruct (may_flush_segment_aligns _ _ _ _ _ no_speech_threshold
                logprob_threshold _ _ _ _ _ _ _ Hc E Hs Hcat Hal)
      as (s2 & T & I & F & M).
    exists s2. split; [exact T|]. split; [exact I|]. split; [exact F|].
    split; [exact M|].
    assert (Buffer : exists before2, tok_indices s2 = before2 ++ [[]]).
    { rewrite I. destruct ws as [|w ws0].
      - exists before. reflexivity.
      - exists (before ++ [tl cur]). rewrite <- app_assoc. reflexivity. }
    destruct Buffer as [before2 Eb].
    split.
    + intros s' Hr. rewrite M in Hr. injection Hr as Hr.
      destruct (has_started s).
      * apply (filter_window_prefix _ _ _ _ _ _ before2 [] Eb) in Hr.
        destruct Hr as (Hn & Hb & Hf). rewrite F in Hf. auto.
      * injection Hr as <-. split; [|split; [eauto|exact F]].
        exists (length (timestamped_word_segments s2)).
        rewrite firstn_all. reflexivity.
    + intros ->. rewrite M. destruct (has_started s).
      * rewrite filter_window_disabled. eexists.
        split; [reflexivity|]. split; reflexivity.
      * eexists. split; [reflexivity|]. split; reflexivity.
Qed.

Lemma prompt_flushes_when_no_consecutive_timestamps_seen_witness :
  exists s1,
    must_flush_segment Toy.tokenizer
      (mkState [] [[61; 100; 0; 1; 110]]%Z [repeat (Toy.uniform 6 1 1500) 5]
         None None [] [] [] true false 0)
      (Some Toy.prompt)
    = Ok (s1, true)
    /\ saw_consecutive_timestamps s1 = false
    /\ timestamped_word_segments s1 = []
    /\ tok_indices s1 = [[61; 100; 0; 1; 110]]%Z.
Proof.
  apply (proj1 (prompt_flushes_when_no_consecutive_timestamps_seen
                  Toy.alignment Toy.tokenizer true 0 false None None 2
                  (mkState [] [[61; 100; 0; 1; 110]]%Z
                     [repeat (Toy.uniform 6 1 1500) 5]
                     None None [] [] [] true false 0)
                  Toy.prompt [] [61; 100; 0; 1; 110]%Z
                  ltac:(simpl; lia) eq_refl)).
Defined.

(** C4, the failing input: the window of [Toy.run_silent_window], with a
    no-speech probability of 0.9 against a threshold of 0.6 and no
    log-probability threshold.  The next prompt, and likewise the final
    call, raises [UnboundLocalError] while building the message of line
    287, before any segment is deleted. *)
Theorem silence_filter_without_logprob_threshold_raises :
  run Toy.alignment Toy.tokenizer true 0 false (Some (6 # 10)) None 2
    (initial 1) (Toy.run_silent_window ++ [Tokens Toy.prompt])
  = Some (Raise (UnboundLocalError "avg_logprob"))
  /\ run Toy.alignment Toy.tokenizer true 0 false (Some (6 # 10)) None 2
       (initial 1) (Toy.run_silent_window ++ [Finish])
     = Some (Raise (UnboundLocalError "avg_logprob")).
Proof. split; vm_compute; reflexivity. Qed.

(** The scenario of the specification, with both thresholds: the same
    window, whose average log-probability is -2, loses its segment
    against a log-probability threshold of -1 and keeps it against -3. *)
Lemma silence_filter_scenario :
  (exists s,
      run Toy.alignment Toy.tokenizer true 0 false (Some (6 # 10))
        (Some (-1)) 2 (initial 1) (Toy.run_silent_window ++ [Tokens Toy.prompt])
      = Some (Ok s)
      /\ timestamped_word_segments s = [] /\ tok_indices s = [[61%Z]])
  /\ (exists s,
        run Toy.alignment Toy.tokenizer true 0 false (Some (6 # 10))
          (Some (-3)) 2 (initial 1)
          (Toy.run_silent_window ++ [Tokens Toy.prompt])
        = Some (Ok s)
        /\ length (timestamped_word_segments s) = 1%nat
        /\ tok_indices s = [[100; 0; 1; 110]; [61]]%Z).
Proof.
  split; eexists; (split; [vm_compute; reflexivity|]); split; reflexivity.
Qed.

End AccumulatorClaims.

(** * Further properties *)

(** ** The enforcer on whole word lists *)

Module EnforcerMore.
Import Enforcer EnforcerFacts.

Lemma stretch_idx (m : Q) (w : word) : idx_segment (stretch m w) = idx_segment w.
Proof. unfold stretch. destruct (Qleb _ _); reflexivity. Qed.

(** A pass keeps the words: their number, order, texts and tags. *)
Lemma increasing_loop_keeps (m : Q) (todo done : list word) (pe : Q)
    (flag : bool) (out : list word) (flag' : bool) :
  increasing_loop m done pe flag todo = Ok (out, flag') ->
  map text out = rev (map text done) ++ map text todo
  /\ map idx_segment out = rev (map idx_segment done) ++ map idx_segment todo.
Proof.
  revert done pe flag. induction todo as [|seg rest IH]; intros done pe flag H.
  - simpl in H. injection H as <- _. rewrite !map_rev, !app_nil_r. auto.
  - simpl in H. destruct (Qltb (start seg) pe).
    + destruct done as [|prev before]; [discriminate|].
      destruct (Qltb _ (start prev + m)); apply IH in H;
        simpl in H; rewrite !(stretch_text m), !(stretch_idx m) in H;
        simpl in *; rewrite <- !app_assoc in *; exact H.
    + apply IH in H. simpl in H.
      rewrite (stretch_text m), (stretch_idx m) in H.
      simpl. rewrite <- !app_assoc in *. exact H.
Qed.

Lemma final_loop_keeps (l : list word) (pe : Q) (out : list word) :
  final_loop pe l = Ok out ->
  map text out = map text l /\ map idx_segment out = map idx_segment l.
Proof.
  revert pe out. induction l as [|w l IH]; intros pe out H; simpl in H.
  - injection H as <-. auto.
  - destruct (Qleb pe _); [|discriminate]. simpl in H.
    destruct (Qltb _ _); [|discriminate]. simpl in H.
    destruct (final_loop _ l) as [out'|] eqn:E; [|discriminate]. simpl in H.
    injection H as <-. destruct (IH _ _ E) as [H1 H2].
    simpl. rewrite H1, H2. auto.
Qed.

(** On a settled list a pass returns the same words with equal times. *)
Lemma increasing_loop_same (m : Q) (todo done : list word) (pe pe' : Q)
    (flag : bool) :
  pe' <= pe -> settled m pe todo ->
  exists todo',
    increasing_loop m done pe' flag todo = Ok (rev done ++ todo', flag)
    /\ Forall2 same_word todo todo'.
Proof.
  revert done pe pe'. induction todo as [|seg rest IH];
    intros done pe pe' Hle Hs; simpl.
  - exists []. rewrite app_nil_r. split; [reflexivity|constructor].
  - simpl in Hs. destruct Hs as (H1 & H2 & H3).
    assert (E : Qltb (start seg) pe' = false).
    { apply Qltb_ge. eapply Qle_trans; eassumption. }
    rewrite E.
    destruct (IH (stretch m seg :: done) (end_ seg) (end_ (stretch m seg)))
      as (todo' & E' & HF); [|exact H3|].
    { rewrite (stretch_settled_end m seg H2). apply Qle_refl. }
    exists (stretch m seg :: todo'). split.
    + rewrite E'. simpl. rewrite <- app_assoc. reflexivity.
    + constructor; [|exact HF].
      repeat split.
      * symmetry. apply stretch_text.
      * symmetry. apply stretch_idx.
      * rewrite stretch_start. reflexivity.
      * symmetry. apply (stretch_settled_end m seg H2).
Qed.

(** Settledness and grid membership only look at the times. *)
Lemma same_word_settled (m : Q) (l l' : list word) (pe pe' : Q) :
  Forall2 same_word l l' -> pe' <= pe -> settled m pe l -> settled m pe' l'.
Proof.
  intro H. revert pe pe'. induction H as [|a b l l' (_ & _ & Hs & He) _ IH];
    intros pe pe' Hle Hset; [exact I|].
  simpl in *. destruct Hset as (H1 & H2 & H3).
  split; [rewrite <- Hs; lra|]. split; [rewrite <- Hs, <- He; exact H2|].
  apply (IH (end_ a)); [rewrite He; apply Qle_refl|exact H3].
Qed.

Lemma on_grid_comp (a b : Q) : a == b -> on_grid a -> on_grid b.
Proof. intros E [z Hz]. exists z. rewrite <- E. exact Hz. Qed.

Lemma same_word_grid (l l' : list word) :
  Forall2 same_word l l' -> Forall grid_word l -> Forall grid_word l'.
Proof.
  induction 1 as [|a b l l' (_ & _ & Hs & He) _ IH]; intro H; [constructor|].
  inversion H as [|? ? [G1 G2] H']; subst. constructor; [|apply IH, H'].
  split; [apply (on_grid_comp _ _ Hs G1)|apply (on_grid_comp _ _ He G2)].
Qed.

Lemma same_word_trans (a b c : list word) :
  Forall2 same_word a b -> Forall2 same_word b c -> Forall2 same_word a c.
Proof.
  intro H. revert c. induction H as [|x y a b Hxy _ IH]; intros c Hc;
    inversion Hc as [|? z ? c' Hyz Hc']; subst; constructor.
  - destruct Hxy as (T1 & I1 & S1 & E1), Hyz as (T2 & I2 & S2 & E2).
    repeat split; try congruence.
    + rewrite S1. exact S2.
    + rewrite E1. exact E2.
  - apply IH, Hc'.
Qed.

(** On a settled list of grid times, with a positive minimal duration,
    the second loop passes both assertions and changes no time. *)
Lemma final_loop_same (m : Q) (l : list word) (pe pe' : Q) :
  0 < m -> pe' <= pe -> settled m pe l -> Forall grid_word l ->
  exists out, final_loop pe' l = Ok out /\ Forall2 same_word l out.
Proof.
  intro Hm. revert pe pe'. induction l as [|w l IH]; intros pe pe' Hle Hs Hg.
  - exists []. split; [reflexivity|constructor].
  - simpl in Hs. destruct Hs as (H1 & H2 & H3).
    inversion Hg as [|? ? [G1 G2] Hg']; subst.
    assert (R1 := round2_on_grid _ G1). assert (R2 := round2_on_grid _ G2).
    destruct (IH (end_ w) (round2 (end_ w))) as (out & E & HF);
      [rewrite R2; apply Qle_refl|exact H3|exact Hg'|].
    simpl. unfold py_assert.
    assert (E1 : Qleb pe' (round2 (start w)) = true).
    { apply Qleb_le. rewrite R1. lra. }
    assert (E2 : Qltb (round2 (start w)) (round2 (end_ w)) = true).
    { apply Qltb_lt. rewrite R1, R2. lra. }
    simpl. rewrite E1. simpl. rewrite E2. simpl. rewrite E. simpl.
    eexists. split; [reflexivity|].
    constructor; [|exact HF].
    repeat split; simpl; symmetry; assumption.
Qed.

(** The whole function keeps the words. *)
Lemma ensure_increasing_positions_keeps_words_lemma (fuel : nat)
    (segments : list word) (m : Q) (out : list word) :
  ensure_increasing_positions fuel segments m = Some (Ok out) ->
  map text out = map text segments
  /\ map idx_segment out = map idx_segment segments.
Proof.
  revert segments. induction fuel as [|fuel IH]; intros segments H;
    [discriminate|].
  simpl in H.
  destruct (increasing_pass m segments) as [[out1 flag]|e] eqn:E;
    [|discriminate].
  apply increasing_loop_keeps in E. simpl in E. destruct E as [E1 E2].
  destruct flag.
  - destruct (IH _ H) as (H1 & H2). split; congruence.
  - injection H as H. apply final_loop_keeps in H. destruct H as [H1 H2].
    split; congruence.
Qed.

End EnforcerMore.

Section EnforcerExtras.
Import Enforcer EnforcerFacts EnforcerMore.

(** X1.  Whenever [ensure_increasing_positions] returns, the list has
    the same words: as many, in the same order, with the same texts and
    the same segment tags.  Only times change. *)
Theorem ensure_increasing_positions_keeps_words (fuel : nat)
    (segments : list word) (m : Q) (out : list word) :
  ensure_increasing_positions fuel segments m = Some (Ok out) ->
  map text out = map text segments
  /\ map idx_segment out = map idx_segment segments
  /\ length out = length segments.
Proof.
  intro H.
  destruct (ensure_increasing_positions_keeps_words_lemma _ _ _ _ H)
    as [G1 G2].
  split; [exact G1|]. split; [exact G2|].
  rewrite <- (length_map text out), G1. apply length_map.
Qed.

Lemma ensure_increasing_positions_keeps_words_witness :
  exists out,
    ensure_increasing_positions 2
      [mkWord (Py.lit "a") 0 2 (Some 0%nat);
       mkWord (Py.lit "b") (3 # 2) 3 (Some 1%nat)] (1 # 10) = Some (Ok out)
    /\ map text out = [Py.lit "a"; Py.lit "b"]
    /\ map idx_segment out = [Some 0%nat; Some 1%nat]
    /\ length out = 2%nat.
Proof.
  eexists. split; [vm_compute; reflexivity|].
  eapply (ensure_increasing_positions_keeps_words 2
            [mkWord (Py.lit "a") 0 2 (Some 0%nat);
             mkWord (Py.lit "b") (3 # 2) 3 (Some 1%nat)] (1 # 10)).
  vm_compute. reflexivity.
Defined.

(** X3.  A list that is already consistent is a fixed point: when no
    word starts before the previous one ends (or before 0), every word
    lasts at least the positive [min_duration] and all times and
    [min_duration] are whole hundredths, [ensure_increasing_positions]
    returns in one pass the same words with the same times. *)
Theorem ensure_increasing_positions_fixed_point (segments : list word) (m : Q) :
  on_grid m -> 0 < m -> Forall grid_word segments -> settled m 0 segments ->
  exists out,
    (forall k, ensure_increasing_positions (S k) segments m = Some (Ok out))
    /\ Forall2 same_word segments out.
Proof.
  intros Hg Hm Hin Hs.
  destruct (increasing_loop_same m segments [] 0 0 false (Qle_refl 0) Hs)
    as (out1 & E1 & F1). simpl in E1.
  assert (S1 := same_word_settled m _ _ 0 0 F1 (Qle_refl 0) Hs).
  assert (G1 := same_word_grid _ _ F1 Hin).
  destruct (final_loop_same m out1 0 0 Hm (Qle_refl 0) S1 G1)
    as (out & E3 & F3).
  exists out. split.
  - intro k. simpl. unfold increasing_pass. rewrite E1, E3. reflexivity.
  - apply (same_word_trans _ _ _ F1 F3).
Qed.

Lemma ensure_increasing_positions_fixed_point_witness :
  exists out,
    (forall k,
        ensure_increasing_positions (S k)
          [mkWord (Py.lit "a") 0 1 None; mkWord (Py.lit "b") 1 3 None]
          (1 # 10) = Some (Ok out))
    /\ Forall2 same_word
         [mkWord (Py.lit "a") 0 1 None; mkWord (Py.lit "b") 1 3 None] out.
Proof.
  apply (ensure_increasing_positions_fixed_point
           [mkWord (Py.lit "a") 0 1 None; mkWord (Py.lit "b") 1 3 None]
           (1 # 10)).
  - exists 10%Z. reflexivity.
  - reflexivity.
  - repeat constructor; simpl.
    + exists 0%Z. reflexivity.
    + exists 100%Z. reflexivity.
    + exists 100%Z. reflexivity.
    + exists 300%Z. reflexivity.
  - simpl. repeat split; discriminate.
Defined.

(** X26.  Whenever [ensure_increasing_positions] returns a list, no
    word starts before the previous one ends, no time is negative and
    every word ends after it starts: this is what the two assertions of
    the second loop check, word after word, on the rounded values. *)
Theorem ensure_increasing_positions_result_ordered (fuel : nat)
    (segments : list word) (m : Q) (out : list word) :
  ensure_increasing_positions fuel segments m = Some (Ok out) ->
  (forall i a b, nth_error out i = Some a -> nth_error out (S i) = Some b ->
                 end_ a <= start b)
  /\ Forall (fun w => 0 <= start w /\ 0 <= end_ w) out
  /\ Forall (fun w => start w < end_ w) out.
Proof.
  intro H.
  destruct (ensure_reaches_final _ _ _ _ H) as [[e He]|(s' & Hr & _)];
    [discriminate|].
  symmetry in Hr. assert (Hc := final_loop_chain _ _ _ Hr).
  split; [|split].
  - intros i a b. apply (chain_adjacent out 0 i a b Hc).
  - apply (chain_nonneg out 0); [apply Qle_refl|exact Hc].
  - apply (chain_positive out 0 Hc).
Qed.

Lemma ensure_increasing_positions_result_ordered_witness :
  exists out,
    ensure_increasing_positions 2
      [mkWord (Py.lit "a") 0 2 None; mkWord (Py.lit "b") (3 # 2) 3 None]
      (1 # 10) = Some (Ok out)
    /\ length out = 2%nat
    /\ (forall i a b,
           nth_error out i = Some a -> nth_error out (S i) = Some b ->
           end_ a <= start b)
    /\ Forall (fun w => 0 <= start w /\ 0 <= end_ w) out
    /\ Forall (fun w => start w < end_ w) out.
Proof.
  eexists. split; [vm_compute; reflexivity|]. split; [reflexivity|].
  eapply (ensure_increasing_positions_result_ordered 2
            [mkWord (Py.lit "a") 0 2 None; mkWord (Py.lit "b") (3 # 2) 3 None]
            (1 # 10)).
  vm_compute. reflexivity.
Defined.

End EnforcerExtras.

(** ** Folding the words back onto the transcript *)

Module MergeFacts.
Import Merge.

Lemma drop_special_front_split (idx : Z) (tokens : list Z) :
  exists pre,
    tokens = pre ++ drop_special_front idx tokens
    /\ Forall (fun t => (idx <= t)%Z) pre.
Proof.
  induction tokens as [|t tokens (pre & E & H)]; simpl.
  - exists []. auto.
  - destruct (idx <=? t)%Z eqn:Et.
    + exists (t :: pre). simpl. rewrite <- E. split; [reflexivity|].
      constructor; [apply Z.leb_le, Et|exact H].
    + exists []. auto.
Qed.

Lemma drop_special_front_head (idx : Z) (tokens : list Z) (t : Z)
    (rest : list Z) :
  drop_special_front idx tokens = t :: rest -> (t < idx)%Z.
Proof.
  induction tokens as [|u tokens IH]; simpl; [discriminate|].
  destruct (idx <=? u)%Z eqn:Eu; [exact IH|].
  intro H. injection H as -> _. apply Z.leb_gt, Eu.
Qed.

Lemma drop_special_front_plain (idx t : Z) (rest : list Z) :
  (t < idx)%Z -> drop_special_front idx (t :: rest) = t :: rest.
Proof.
  intro H. simpl. apply Z.leb_gt in H. rewrite H. reflexivity.
Qed.

Lemma tokens_eqb_eq (a b : list Z) : tokens_eqb a b = true <-> a = b.
Proof.
  revert b. induction a as [|x a IH]; intros [|y b]; simpl;
    try (split; [discriminate|congruence]); [tauto|].
  rewrite andb_true_iff, Z.eqb_eq, IH. split.
  - intros [-> ->]. reflexivity.
  - intro H. injection H as -> ->. auto.
Qed.

Lemma slice_to_length {A : Type} (n : nat) (l : list A) :
  Py.slice_to (Z.of_nat n) l = firstn n l.
Proof.
  unfold Py.slice_to, Py.clamp_index.
  destruct (Z.of_nat n <? 0)%Z eqn:E; [apply Z.ltb_lt in E; lia|].
  rewrite Nat2Z.id.
  destruct (Nat.le_ge_cases (length l) n) as [H|H].
  - rewrite Nat.min_l by exact H. rewrite !firstn_all2; auto.
  - rewrite Nat.min_r by exact H. reflexivity.
Qed.

Lemma length_set_nth {A : Type} (i : nat) (x : A) (l : list A) :
  length (set_nth i x l) = length l.
Proof.
  revert i. induction l as [|y l IH]; intros [|i]; simpl; auto.
Qed.

Lemma nth_error_set_nth {A : Type} (i j : nat) (x : A) (l : list A) :
  (i < length l)%nat ->
  nth_error (set_nth i x l) j
  = if (i =? j)%nat then Some x else nth_error l j.
Proof.
  revert i j. induction l as [|y l IH]; intros i j H; simpl in H; [lia|].
  destruct i as [|i], j as [|j]; simpl; auto.
  apply IH. lia.
Qed.

(** Each segment absorbs the words tagged with its index, in order, and
    no other. *)
Lemma attach_words_by_segment (words : list word) (segs : list segment) :
  Forall (fun w => exists i, idx_segment w = Some i /\ (i < length segs)%nat)
    words ->
  exists segs',
    attach_words segs words = Ok segs'
    /\ length segs' = length segs
    /\ forall j seg,
         nth_error segs j = Some seg ->
         nth_error segs' j = Some (fold_left attach_to (tagged j words) seg).
Proof.
  revert segs. induction words as [|w words IH]; intros segs H.
  - exists segs. simpl. auto.
  - inversion H as [|? ? (i & Ei & Hi) H']; subst.
    simpl. rewrite Ei.
    destruct (nth_error segs i) as [seg|] eqn:En.
    2:{ apply nth_error_None in En. lia. }
    destruct (IH (set_nth i (attach_to seg w) segs)) as (segs' & E & L & N).
    { rewrite length_set_nth. exact H'. }
    exists segs'. split; [exact E|]. split.
    { rewrite L. apply length_set_nth. }
    intros j sj Hj.
    specialize (N j). rewrite (nth_error_set_nth i j _ _ Hi) in N.
    destruct (i =? j)%nat eqn:Eij.
    + apply Nat.eqb_eq in Eij. subst j.
      rewrite En in Hj. injection Hj as <-.
      simpl. apply N. reflexivity.
    + apply N, Hj.
Qed.

Lemma last_default {A : Type} (b d d' : A) (l : list A) :
  last (b :: l) d = last (b :: l) d'.
Proof.
  revert b. induction l as [|c l IH]; intro b; [reflexivity|].
  change (last (c :: l) d = last (c :: l) d'). apply IH.
Qed.

Lemma last_cons {A : Type} (a d : A) (l : list A) :
  last (a :: l) d = last l a.
Proof.
  destruct l as [|b l]; [reflexivity|].
  change (last (b :: l) d = last (b :: l) a). apply last_default.
Qed.

(** A segment that had words keeps its start. *)
Lemma fold_attach_some (ws : list word) (seg : segment) (l : list word) :
  seg_words seg = Some l ->
  seg_words (fold_left attach_to ws seg)
  = Some (l ++ map (fun w => mkWord (text w) (start w) (end_ w) None) ws)
  /\ seg_start (fold_left attach_to ws seg) = seg_start seg
  /\ seg_end (fold_left attach_to ws seg) = last (map end_ ws) (seg_end seg)
  /\ seek (fold_left attach_to ws seg) = seek seg
  /\ seg_text (fold_left attach_to ws seg) = seg_text seg
  /\ seg_tokens (fold_left attach_to ws seg) = seg_tokens seg.
Proof.
  revert seg l. induction ws as [|w ws IH]; intros seg l E.
  - simpl. rewrite app_nil_r. auto 10.
  - cbn [fold_left map].
    destruct (IH (attach_to seg w)
                (l ++ [mkWord (text w) (start w) (end_ w) None]))
      as (H1 & H2 & H3 & H4 & H5 & H6).
    { unfold attach_to. rewrite E. reflexivity. }
    rewrite H1, H2, H3, H4, H5, H6, last_cons.
    unfold attach_to. rewrite E. simpl.
    rewrite <- app_assoc. auto 10.
Qed.

(** A segment without words takes its start from its first word and
    its end from its last one. *)
Lemma fold_attach_none (w : word) (ws : list word) (seg : segment) :
  seg_words seg = None ->
  seg_words (fold_left attach_to (w :: ws) seg)
  = Some (map (fun w => mkWord (text w) (start w) (end_ w) None) (w :: ws))
  /\ seg_start (fold_left attach_to (w :: ws) seg) = start w
  /\ seg_end (fold_left attach_to (w :: ws) seg)
     = last (map end_ (w :: ws)) (seg_end seg)
  /\ seek (fold_left attach_to (w :: ws) seg) = seek seg
  /\ seg_text (fold_left attach_to (w :: ws) seg) = seg_text seg
  /\ seg_tokens (fold_left attach_to (w :: ws) seg) = seg_tokens seg.
Proof.
  intro E. cbn [fold_left map].
  destruct (fold_attach_some ws (attach_to seg w)
              [mkWord (text w) (start w) (end_ w) None])
    as (H1 & H2 & H3 & H4 & H5 & H6).
  { unfold attach_to. rewrite E. reflexivity. }
  rewrite H1, H2, H3, H4, H5, H6, last_cons.
  unfold attach_to. rewrite E. simpl. auto 10.
Qed.

Lemma tagged_app (k : nat) (a b : list word) :
  tagged k (a ++ b) = tagged k a ++ tagged k b.
Proof. apply filter_app. Qed.

Lemma tagged_shift (k i : nat) (offset : Q) (ws : list word) :
  tagged k (map (shift_and_tag offset i) ws)
  = if (i =? k)%nat then map (shift_and_tag offset i) ws else [].
Proof.
  induction ws as [|w ws IH]; simpl.
  - destruct (i =? k)%nat; reflexivity.
  - unfold tagged in *. simpl. rewrite IH.
    destruct (i =? k)%nat; reflexivity.
Qed.

Lemma tagged_none (k : nat) (words : list word) :
  Forall (fun w => idx_segment w <> Some k) words -> tagged k words = [].
Proof.
  induction 1 as [|w words Hw _ IH]; [reflexivity|].
  unfold tagged in *. simpl. rewrite IH.
  destruct (idx_segment w) as [j|]; [|reflexivity].
  destruct (j =? k)%nat eqn:E; [|reflexivity].
  apply Nat.eqb_eq in E. congruence.
Qed.

(** The words collected from index [i] on carry the index of their
    segment. *)
Lemma collect_words_tags (idx : Z) (segs : list segment)
    (tws : list (list word)) (toks : list (list Z)) (i : nat)
    (words : list word) :
  collect_words idx i segs tws toks = Ok words ->
  Forall (fun w => exists k, idx_segment w = Some k
                             /\ (i <= k < i + length segs)%nat) words.
Proof.
  revert tws toks i words.
  induction segs as [|seg segs IH]; intros tws toks i words H.
  - simpl in H. injection H as <-. constructor.
  - destruct tws as [|ws tws]; [simpl in H; injection H as <-; constructor|].
    destruct toks as [|tok toks]; [simpl in H; injection H as <-; constructor|].
    cbn [collect_words] in H.
    destruct (check_tokens idx tok seg); [|discriminate]. cbn [bind] in H.
    destruct (collect_words idx (S i) segs tws toks) as [rest|] eqn:E;
      [|discriminate].
    cbn [bind] in H. injection H as <-.
    apply Forall_app. split.
    + apply Forall_forall. intros w Hw. apply in_map_iff in Hw.
      destruct Hw as (w0 & <- & _). exists i. simpl. split; [reflexivity|lia].
    + apply IH in E. eapply Forall_impl; [|exact E].
      intros w (k & Hk & Hr). exists k. simpl. split; [exact Hk|lia].
Qed.

Lemma collect_words_tagged (idx : Z) (segs : list segment)
    (tws : list (list word)) (toks : list (list Z)) (i : nat)
    (words : list word) :
  collect_words idx i segs tws toks = Ok words ->
  length segs = length tws -> length toks = length tws ->
  forall j seg ws,
    nth_error segs j = Some seg -> nth_error tws j = Some ws ->
    tagged (i + j) words
    = map (shift_and_tag (inject_Z (seek seg) * HOP_LENGTH / SAMPLE_RATE)
             (i + j)) ws.
Proof.
  revert tws toks i words.
  induction segs as [|seg0 segs IH]; intros tws toks i words H L1 L2 j seg ws Hs Hw.
  - destruct j; discriminate.
  - destruct tws as [|ws0 tws]; [discriminate|].
    destruct toks as [|tok toks]; [discriminate|].
    cbn [collect_words] in H.
    destruct (check_tokens idx tok seg0); [|discriminate]. cbn [bind] in H.
    destruct (collect_words idx (S i) segs tws toks) as [rest|] eqn:E;
      [|discriminate].
    cbn [bind] in H. injection H as <-.
    rewrite tagged_app, tagged_shift.
    destruct j as [|j].
    + simpl in Hs, Hw. injection Hs as <-. injection Hw as <-.
      rewrite Nat.add_0_r, Nat.eqb_refl.
      rewrite (tagged_none i rest), app_nil_r; [reflexivity|].
      apply collect_words_tags in E. eapply Forall_impl; [|exact E].
      intros w (k & Hk & Hr) Hc. rewrite Hk in Hc. injection Hc as ->. lia.
    + simpl in Hs, Hw.
      assert (Ne : (i =? i + S j)%nat = false) by (apply Nat.eqb_neq; lia).
      rewrite Ne. simpl.
      replace (i + S j)%nat with (S i + j)%nat by lia.
      apply (IH tws toks (S i) rest E); auto; simpl in *; lia.
Qed.

(** Lists with the same tags, position by position, have the same
    texts under every tag when they have the same texts. *)
Lemma tagged_same_text (k : nat) (a b : list word) :
  map idx_segment a = map idx_segment b -> map text a = map text b ->
  map text (tagged k a) = map text (tagged k b).
Proof.
  revert b. induction a as [|x a IH]; intros [|y b] Hi Ht;
    try discriminate; [reflexivity|].
  simpl in Hi, Ht. injection Hi as Hx Hi. injection Ht as Tx Ht.
  unfold tagged in *. simpl. rewrite <- Hx.
  destruct (idx_segment x) as [j|]; [|apply IH; assumption].
  destruct (j =? k)%nat; [|apply IH; assumption].
  simpl. rewrite Tx, (IH b Hi Ht). reflexivity.
Qed.

Lemma map_text_shift (offset : Q) (i : nat) (ws : list word) :
  map text (map (shift_and_tag offset i) ws) = map text ws.
Proof. rewrite map_map. reflexivity. Qed.

End MergeFacts.

Section MergeExtras.
Import Merge MergeFacts EnforcerMore.

(** X4.  [filter_tokens] removes exactly the special tokens at both
    ends: the token list is the result between a prefix and a suffix of
    special tokens (ids at or above [token_special_idx]), and the
    result neither starts nor ends with a special token.  Applying it
    twice is the same as applying it once. *)
Theorem filter_tokens_trims (idx : Z) (tokens : list Z) :
  (exists pre suf,
      tokens = pre ++ filter_tokens idx tokens ++ suf
      /\ Forall (fun t => (idx <= t)%Z) pre
      /\ Forall (fun t => (idx <= t)%Z) suf)
  /\ (forall t rest, filter_tokens idx tokens = t :: rest -> (t < idx)%Z)
  /\ (forall t rest, filter_tokens idx tokens = rest ++ [t] -> (t < idx)%Z)
  /\ filter_tokens idx (filter_tokens idx tokens) = filter_tokens idx tokens.
Proof.
  unfold filter_tokens.
  destruct (drop_special_front_split idx tokens) as (pre & E1 & H1).
  set (a := drop_special_front idx tokens) in *.
  destruct (drop_special_front_split idx (rev a)) as (fus & E2 & H2).
  set (b := drop_special_front idx (rev a)) in *.
  assert (Ea : a = rev b ++ rev fus).
  { rewrite <- (rev_involutive a), E2, rev_app_distr. reflexivity. }
  assert (Last : forall t rest, rev b = rest ++ [t] -> (t < idx)%Z).
  { intros t rest E. apply (drop_special_front_head idx (rev a) t (rev rest)).
    fold b. rewrite <- (rev_involutive b), E, rev_app_distr. reflexivity. }
  assert (Head : forall t rest, rev b = t :: rest -> (t < idx)%Z).
  { intros t rest E.
    apply (drop_special_front_head idx tokens t (rest ++ rev fus)).
    fold a. rewrite Ea, E. reflexivity. }
  split; [|split; [|split]].
  - exists pre, (rev fus). split; [|split].
    + rewrite <- Ea. exact E1.
    + exact H1.
    + apply Forall_rev, H2.
  - exact Head.
  - exact Last.
  - destruct (rev b) as [|t rest] eqn:Eb; [reflexivity|].
    rewrite (drop_special_front_plain idx t rest (Head t rest eq_refl)).
    destruct (@exists_last _ (t :: rest)) as (l & x & El); [discriminate|].
    rewrite El. rewrite rev_app_distr.
    change (rev [x] ++ rev l) with (x :: rev l).
    rewrite (drop_special_front_plain idx x (rev l)).
    + simpl. rewrite rev_involutive. reflexivity.
    + apply (Last x l). exact El.
Qed.

Lemma filter_tokens_trims_witness :
  filter_tokens 50 [51; 100; 0; 1; 110; 50]%Z = [0; 1]%Z
  /\ filter_tokens 50 (filter_tokens 50 [51; 100; 0; 1; 110; 50]%Z)
     = filter_tokens 50 [51; 100; 0; 1; 110; 50]%Z.
Proof.
  split; [reflexivity|].
  exact (proj2 (proj2 (proj2
           (filter_tokens_trims 50 [51; 100; 0; 1; 110; 50]%Z)))).
Defined.

(** X5.  The consistency check of lines 415-419 passes exactly when the
    collected tokens of a segment, trimmed by [filter_tokens], are a
    prefix of the trimmed tokens the decoding loop reports for it
    (equal, or shorter with a warning); in every other case it fails
    its assertion. *)
Theorem check_tokens_prefix (idx : Z) (token : list Z) (seg : segment) :
  ((exists extra,
       filter_tokens idx (seg_tokens seg) = filter_tokens idx token ++ extra)
   -> check_tokens idx token seg = Ok tt)
  /\ ((forall extra,
         filter_tokens idx (seg_tokens seg) <> filter_tokens idx token ++ extra)
      -> check_tokens idx token seg
         = Raise (AssertionError "Got inconsistent segments")).
Proof.
  unfold check_tokens.
  set (ts := filter_tokens idx token). set (ws := filter_tokens idx (seg_tokens seg)).
  rewrite slice_to_length.
  destruct (tokens_eqb ts ws) eqn:E; cbn [negb].
  - apply tokens_eqb_eq in E. split; [reflexivity|].
    intro H. exfalso. apply (H []). rewrite app_nil_r. symmetry. exact E.
  - unfold py_assert. split.
    + intros [extra Hx]. rewrite Hx.
      assert (Hne : extra <> []).
      { intro H0. subst extra. rewrite app_nil_r in Hx.
        assert (T : tokens_eqb ts ws = true) by (apply tokens_eqb_eq; congruence).
        congruence. }
      assert (L : (length ts <? length (ts ++ extra))%nat = true).
      { apply Nat.ltb_lt. rewrite length_app.
        destruct extra; [congruence|simpl; lia]. }
      rewrite L, firstn_app, Nat.sub_diag, firstn_all. simpl.
      rewrite app_nil_r.
      assert (T : tokens_eqb ts ts = true) by (apply tokens_eqb_eq; reflexivity).
      rewrite T. reflexivity.
    + intro H.
      destruct (_ && _) eqn:C; [|reflexivity].
      exfalso. apply andb_true_iff in C. destruct C as [_ C].
      apply tokens_eqb_eq in C.
      apply (H (skipn (length ts) ws)).
      rewrite C at 1. symmetry. apply firstn_skipn.
Qed.

Lemma check_tokens_prefix_witness :
  check_tokens 50 [100; 0; 1; 110]%Z
    (mkSegment 0 0 1 (Py.lit " Hello world") [100; 0; 1; 2; 110]%Z None)
  = Ok tt
  /\ check_tokens 50 [100; 0; 2; 110]%Z
       (mkSegment 0 0 1 (Py.lit " Hello world") [100; 0; 1; 110]%Z None)
     = Raise (AssertionError "Got inconsistent segments").
Proof.
  split.
  - apply (proj1 (check_tokens_prefix 50 [100; 0; 1; 110]%Z
             (mkSegment 0 0 1 (Py.lit " Hello world")
                [100; 0; 1; 2; 110]%Z None))).
    exists [2%Z]. reflexivity.
  - apply (proj2 (check_tokens_prefix 50 [100; 0; 2; 110]%Z
             (mkSegment 0 0 1 (Py.lit " Hello world")
                [100; 0; 1; 110]%Z None))).
    intros extra H. vm_compute in H. discriminate.
Defined.

(** X6.  When the merge returns, every segment of the decoding loop
    (which come without a ["words"] key) that was given a non-empty word
    list holds, under ["words"], words with the texts the alignment
    produced for that segment, in order and without their segment tag;
    its start is the start of its first word and its end the end of its
    last word.  A segment given no word is returned as it was.  No
    segment is added, dropped or moved, and seek position, text and
    tokens are untouched. *)
Theorem merge_words_by_segment (idx : Z) (m : Q) (fuel : nat)
    (segs : list segment) (tws : list (list word)) (toks : list (list Z))
    (segs' : list segment) :
  merge_words idx m fuel segs tws toks = Some (Ok segs') ->
  Forall (fun seg => seg_words seg = None) segs ->
  length segs' = length segs
  /\ forall j seg ws,
       nth_error segs j = Some seg -> nth_error tws j = Some ws ->
       exists seg',
         nth_error segs' j = Some seg'
         /\ seek seg' = seek seg /\ seg_text seg' = seg_text seg
         /\ seg_tokens seg' = seg_tokens seg
         /\ match ws with
            | [] => seg' = seg
            | _ :: _ =>
                exists first rest,
                  seg_words seg' = Some (first :: rest)
                  /\ map text (first :: rest) = map text ws
                  /\ Forall (fun w => idx_segment w = None) (first :: rest)
                  /\ seg_start seg' = start first
                  /\ seg_end seg' = last (map end_ rest) (end_ first)
            end.
Proof.
  intros H Hnone. unfold merge_words, py_assert in H.
  destruct (length toks =? length tws)%nat eqn:L2; [|discriminate].
  cbn [bind] in H. apply Nat.eqb_eq in L2.
  destruct ((length segs =? length tws)%nat || (length segs =? 0)%nat) eqn:L1;
    [|discriminate].
  cbn [bind] in H.
  destruct (collect_words idx 0 segs tws toks) as [words|] eqn:Ec;
    [|discriminate].
  destruct (Enforcer.ensure_increasing_positions fuel words m)
    as [[out|]|] eqn:Ee; try discriminate.
  injection H as H.
  destruct (ensure_increasing_positions_keeps_words_lemma _ _ _ _ Ee)
    as (Kt & Ki).
  assert (Tags : Forall (fun w => exists i, idx_segment w = Some i
                                            /\ (i < length segs)%nat) out).
  { apply collect_words_tags in Ec.
    apply Forall_forall. intros w Hw.
    destruct (In_nth_error _ _ Hw) as [n Hn].
    assert (Hi : nth_error (map idx_segment out) n = Some (idx_segment w))
      by (rewrite nth_error_map, Hn; reflexivity).
    rewrite Ki, nth_error_map in Hi.
    destruct (nth_error words n) as [w0|] eqn:En; [|discriminate].
    simpl in Hi. injection Hi as Hi.
    rewrite Forall_forall in Ec.
    destruct (Ec w0 (nth_error_In _ _ En)) as (k & Hk & Hr).
    exists k. split; [congruence|lia]. }
  destruct (attach_words_by_segment out segs Tags) as (segs2 & Ea & La & Na).
  rewrite Ea in H. injection H as <-.
  split; [exact La|].
  intros j seg ws Hs Hw.
  assert (Lseg : length segs = length tws).
  { apply orb_true_iff in L1. destruct L1 as [L1|L1]; apply Nat.eqb_eq in L1;
      [exact L1|].
    destruct segs; [destruct j; discriminate|discriminate]. }
  assert (Tg := collect_words_tagged idx segs tws toks 0 words Ec Lseg L2
                  j seg ws Hs Hw).
  simpl in Tg.
  assert (Tt := tagged_same_text j out words Ki Kt).
  rewrite Tg, map_text_shift in Tt.
  exists (fold_left attach_to (tagged j out) seg).
  split; [apply Na, Hs|].
  assert (Hn : seg_words seg = None).
  { rewrite Forall_forall in Hnone. apply Hnone. eapply nth_error_In, Hs. }
  destruct (tagged j out) as [|w wr] eqn:Et.
  - simpl. destruct ws; [auto|discriminate].
  - destruct (fold_attach_none w wr seg Hn) as (H1 & H2 & H3 & H4 & H5 & H6).
    split; [exact H4|]. split; [exact H5|]. split; [exact H6|].
    destruct ws as [|w0 ws]; [discriminate|].
    exists (mkWord (text w) (start w) (end_ w) None),
      (map (fun w1 => mkWord (text w1) (start w1) (end_ w1) None) wr).
    split; [exact H1|]. split; [|split; [|split]].
    + rewrite <- Tt. cbn [map text]. rewrite map_map. reflexivity.
    + constructor; [reflexivity|].
      apply Forall_forall. intros x Hx. apply in_map_iff in Hx.
      destruct Hx as (x0 & <- & _). reflexivity.
    + exact H2.
    + rewrite H3. cbn [map end_]. rewrite last_cons, map_map. reflexivity.
Qed.

Lemma merge_words_by_segment_witness :
  exists segs',
    merge_words 50 (1 # 10) 2
      [mkSegment 3000 30 31 (Py.lit " Hello world") [100; 0; 1; 110]%Z None]
      [[mkWord (Py.lit "Hello") 0 (4 # 10) None;
        mkWord (Py.lit "world") (4 # 10) 1 None]]
      [[100; 0; 1; 110]%Z] = Some (Ok segs')
    /\ length segs' = 1%nat.
Proof.
  eexists. split; [vm_compute; reflexivity|].
  eapply (proj1 (merge_words_by_segment 50 (1 # 10) 2
            [mkSegment 3000 30 31 (Py.lit " Hello world")
               [100; 0; 1; 110]%Z None]
            [[mkWord (Py.lit "Hello") 0 (4 # 10) None;
              mkWord (Py.lit "world") (4 # 10) 1 None]]
            [[100; 0; 1; 110]%Z] _ _ _)).
  Unshelve.
  - vm_compute. reflexivity.
  - repeat constructor.
Defined.

End MergeExtras.

(** ** More on the word segmenter *)

Module SegmenterMore.
Import Py PyFacts Segmenter Units SegmenterFacts.

Section WithTokenizer.

Variable tokenizer : Tokenizer.

Lemma fresh_span_nonempty (as_string : bool) (cur : list Z) (token : Z) :
  fresh_span tokenizer as_string (cur ++ [token]) <> [].
Proof.
  unfold fresh_span. destruct as_string; [discriminate|].
  rewrite map_app. intro H. apply app_eq_nil in H. destruct H; discriminate.
Qed.

(** Every span holds at least one element. *)
Lemma unicode_loop_spans_nonempty (as_string remove isolate : bool)
    (tokens : list Z) (words : list pystr) (word_tokens : list (list item))
    (cur : list Z) (words' : list pystr) (word_tokens' : list (list item)) :
  length words = length word_tokens ->
  Forall (fun span => span <> []) word_tokens ->
  unicode_loop tokenizer as_string remove isolate words word_tokens cur tokens
  = Ok (words', word_tokens') ->
  Forall (fun span => span <> []) word_tokens'.
Proof.
  revert words word_tokens cur.
  induction tokens as [|token rest IH]; intros words word_tokens cur Hlen HF H.
  - simpl in H. injection H as _ <-. exact HF.
  - rewrite unicode_loop_cons in H by exact Hlen. cbv zeta in H.
    destruct (complete tokenizer (cur ++ [token])).
    + destruct (negb isolate && _).
      * apply IH in H; [exact H| |].
        -- rewrite map_last_length.
           destruct remove; [|rewrite map_last_length];
             apply or_single_length, Hlen.
        -- destruct word_tokens as [|s wts].
           ++ simpl. constructor; [discriminate|constructor].
           ++ cbn [or_single].
              destruct (nonempty_snoc (s :: wts)) as (l0 & x & E);
                [discriminate|].
              rewrite E in *. rewrite map_last_snoc.
              apply Forall_app in HF. destruct HF as [HF _].
              apply Forall_app. split; [exact HF|].
              constructor; [|constructor].
              intro H0. apply app_eq_nil in H0. destruct H0; discriminate.
      * apply IH in H; [exact H| |].
        -- rewrite !length_app, Hlen. reflexivity.
        -- apply Forall_app. split; [exact HF|].
           constructor; [apply fresh_span_nonempty|constructor].
    + apply IH in H; assumption.
Qed.

(** Punctuation removal changes the words, never the spans. *)
Lemma unicode_loop_remove_spans (as_string isolate : bool) (tokens : list Z)
    (words1 words2 : list pystr) (word_tokens : list (list item))
    (cur : list Z) :
  length words1 = length word_tokens -> length words2 = length word_tokens ->
  exists ws1 ws2 wts,
    unicode_loop tokenizer as_string true isolate words1 word_tokens
      cur tokens = Ok (ws1, wts)
    /\ unicode_loop tokenizer as_string false isolate words2 word_tokens
         cur tokens = Ok (ws2, wts).
Proof.
  revert words1 words2 word_tokens cur.
  induction tokens as [|token rest IH];
    intros words1 words2 word_tokens cur L1 L2.
  - simpl. eauto.
  - rewrite !unicode_loop_cons by assumption. cbv zeta.
    destruct (complete tokenizer (cur ++ [token])).
    + destruct (negb isolate && _).
      * apply IH.
        -- rewrite map_last_length. apply or_single_length, L1.
        -- rewrite !map_last_length. apply or_single_length, L2.
      * apply IH; rewrite !length_app; simpl; congruence.
    + apply IH; assumption.
Qed.

Lemma concat_map_last_app (x : pystr) (l : list pystr) :
  l <> [] -> concat (map_last (fun w => w ++ x) l) = concat l ++ x.
Proof.
  intro H. destruct (nonempty_snoc l H) as (l0 & y & ->).
  rewrite map_last_snoc, !concat_app. simpl.
  rewrite !app_nil_r, app_assoc. reflexivity.
Qed.

(** The words, put end to end, are the texts of the decoded units. *)
Lemma unicode_loop_text (as_string remove isolate : bool) (tokens : list Z)
    (words : list pystr) (word_tokens : list (list item)) (cur : list Z)
    (words' : list pystr) (word_tokens' : list (list item)) :
  length words = length word_tokens ->
  unicode_loop tokenizer as_string remove isolate words word_tokens cur tokens
  = Ok (words', word_tokens') ->
  concat words'
  = concat words
    ++ concat (map (unit_text tokenizer remove isolate) (units_loop tokenizer cur tokens)).
Proof.
  revert words word_tokens cur.
  induction tokens as [|token rest IH]; intros words word_tokens cur Hlen H.
  - simpl in H. injection H as <- _. simpl. rewrite app_nil_r. reflexivity.
  - rewrite unicode_loop_cons in H by exact Hlen. cbv zeta in H.
    cbn [units_loop]. cbv zeta.
    destruct (complete tokenizer (cur ++ [token])).
    + cbn [map concat]. unfold unit_text at 1.
      destruct (negb isolate && _) eqn:Ep.
      * apply andb_true_iff in Ep. destruct Ep as [Ei Ep].
        rewrite Ei, Ep. apply IH in H.
        -- rewrite H. destruct remove; simpl.
           ++ replace (concat (or_single [] words)) with (concat words)
                by (destruct words; reflexivity).
              reflexivity.
           ++ rewrite concat_map_last_app by apply or_single_nonempty.
              replace (concat (or_single [] words)) with (concat words)
                by (destruct words; reflexivity).
              rewrite <- app_assoc. reflexivity.
        -- rewrite map_last_length.
           destruct remove; [|rewrite map_last_length];
             apply or_single_length, Hlen.
      * assert (Er : remove && negb isolate
                     && is_punctuation
                          (decode_with_timestamps tokenizer (cur ++ [token]))
                     = false).
        { rewrite <- andb_assoc, Ep. apply andb_false_r. }
        rewrite Er. apply IH in H.
        -- rewrite H, concat_app. simpl. rewrite app_nil_r, <- app_assoc.
           reflexivity.
        -- rewrite !length_app, Hlen. reflexivity.
    + apply IH in H; assumption.
Qed.

(** With [isolate_punctuations] every decoded unit is a word. *)
Lemma unicode_loop_isolate (as_string remove : bool) (tokens : list Z)
    (words : list pystr) (word_tokens : list (list item)) (cur : list Z) :
  length words = length word_tokens ->
  unicode_loop tokenizer as_string remove true words word_tokens cur tokens
  = Ok (words ++ map (decode_with_timestamps tokenizer)
                   (units_loop tokenizer cur tokens),
        word_tokens ++ map (fresh_span tokenizer as_string)
                         (units_loop tokenizer cur tokens)).
Proof.
  revert words word_tokens cur.
  induction tokens as [|token rest IH]; intros words word_tokens cur Hlen.
  - simpl. rewrite !app_nil_r. reflexivity.
  - rewrite unicode_loop_cons by exact Hlen. cbv zeta.
    cbn [units_loop negb andb]. cbv zeta.
    destruct (complete tokenizer (cur ++ [token])).
    + rewrite IH by (rewrite !length_app, Hlen; reflexivity).
      cbn [map]. rewrite <- !app_assoc. reflexivity.
    + apply IH, Hlen.
Qed.

(** The space mode keeps words and spans aligned and no span empty. *)
Lemma spaces_loop_aligned (as_string : bool) (swtl : list (list item))
    (todo : list (pystr * list item)) (i : nat) (words : list pystr)
    (word_tokens : list (list item)) (words' : list pystr)
    (word_tokens' : list (list item)) :
  length words = length word_tokens ->
  Forall (fun span => span <> []) word_tokens ->
  Forall (fun p => snd p <> []) todo ->
  spaces_loop tokenizer as_string swtl i words word_tokens todo
  = Ok (words', word_tokens') ->
  length words' = length word_tokens'
  /\ Forall (fun span => span <> []) word_tokens'.
Proof.
  revert i words word_tokens.
  induction todo as [|[sw swt] rest IH]; intros i words word_tokens L HF Ht H.
  - simpl in H. injection H as <- <-. auto.
  - inversion Ht as [|? ? Hsw Ht']; subst. simpl in Hsw.
    cbn [spaces_loop] in H.
    destruct (x <- first_item swt ;; _) as [special|]; [|discriminate].
    cbn [bind] in H.
    match type of H with
    | bind ?c _ = _ => destruct c as [previous_special|]; [|discriminate]
    end.
    cbn [bind] in H.
    destruct (special || _ || previous_special).
    + cbn [bind] in H. apply IH in H; auto.
      * rewrite !length_app, L. reflexivity.
      * apply Forall_app. split; [exact HF|]. constructor; [exact Hsw|constructor].
    + destruct (update_last (fun w => w ++ strip sw) words) as [ws|] eqn:Ew;
        [|discriminate].
      cbn [bind] in H.
      destruct (update_last (fun span => span ++ swt) word_tokens)
        as [wts|] eqn:Es; [|discriminate].
      cbn [bind] in H.
      assert (Nw : words <> []) by (intro E0; subst; discriminate).
      assert (Ns : word_tokens <> []) by (intro E0; subst; discriminate).
      rewrite (update_last_map_last _ _ Nw) in Ew. injection Ew as <-.
      rewrite (update_last_map_last _ _ Ns) in Es. injection Es as <-.
      apply IH in H; auto.
      * rewrite !map_last_length. exact L.
      * apply map_last_Forall; [|exact HF].
        intros a Ha E0. apply app_eq_nil in E0. destruct E0; congruence.
Qed.

End WithTokenizer.
End SegmenterMore.

Section SegmenterExtras.
Import Py Segmenter Units SegmenterFacts SegmenterMore.

(** X7.  [split_tokens_on_unicode] never raises, and its two results
    are aligned: as many spans as words, none of them empty.
    [split_tokens_on_spaces], whenever it returns, gives aligned
    results too. *)
Theorem split_tokens_aligned (tokenizer : Tokenizer) (tokens : list Z)
    (as_string remove : bool) :
  (forall isolate, exists words word_tokens,
      split_tokens_on_unicode tokenizer tokens as_string remove isolate
      = Ok (words, word_tokens)
      /\ length words = length word_tokens
      /\ Forall (fun span => span <> []) word_tokens)
  /\ (forall words word_tokens,
        split_tokens_on_spaces tokenizer tokens as_string remove
        = Ok (words, word_tokens) ->
        length words = length word_tokens
        /\ Forall (fun span => span <> []) word_tokens).
Proof.
  assert (Uni : forall isolate, exists words word_tokens,
             split_tokens_on_unicode tokenizer tokens as_string remove isolate
             = Ok (words, word_tokens)
             /\ length words = length word_tokens
             /\ Forall (fun span => span <> []) word_tokens).
  { intro isolate. unfold split_tokens_on_unicode.
    destruct (unicode_loop_total tokenizer as_string remove isolate tokens
                [] [] []) as (ws & wts & E & L); [reflexivity|].
    exists ws, wts. split; [exact E|]. split; [exact L|].
    apply (unicode_loop_spans_nonempty tokenizer as_string remove isolate
             tokens [] [] [] ws wts eq_refl (Forall_nil _) E). }
  split; [exact Uni|].
  intros words word_tokens H. unfold split_tokens_on_spaces in H.
  destruct (Uni false) as (sw & swtl & E & L & N).
  rewrite E in H. cbn [bind] in H.
  apply (spaces_loop_aligned tokenizer as_string swtl _ 0 [] [] _ _
           eq_refl (Forall_nil _)) in H; [exact H|].
  rewrite <- (map_snd_combine sw swtl L) in N.
  rewrite Forall_map in N. exact N.
Qed.

Lemma split_tokens_aligned_witness :
  exists words word_tokens,
    split_tokens_on_spaces Toy.tokenizer [100; 0; 2; 5; 6; 1; 3; 101]%Z
      true false = Ok (words, word_tokens)
    /\ length words = length word_tokens
    /\ Forall (fun span => span <> []) word_tokens.
Proof.
  do 2 eexists. split; [vm_compute; reflexivity|].
  eapply (proj2 (split_tokens_aligned Toy.tokenizer
                   [100; 0; 2; 5; 6; 1; 3; 101]%Z true false)).
  vm_compute. reflexivity.
Defined.

(** X8.  In [split_tokens_on_unicode], [remove_punctuation_from_words]
    changes the words only: with and without it the spans are the
    same, so punctuation removal cannot move a word boundary. *)
Theorem split_tokens_on_unicode_remove_keeps_spans (tokenizer : Tokenizer)
    (tokens : list Z) (as_string isolate : bool) :
  exists words_removed words_kept word_tokens,
    split_tokens_on_unicode tokenizer tokens as_string true isolate
    = Ok (words_removed, word_tokens)
    /\ split_tokens_on_unicode tokenizer tokens as_string false isolate
       = Ok (words_kept, word_tokens).
Proof.
  unfold split_tokens_on_unicode.
  apply unicode_loop_remove_spans; reflexivity.
Qed.

(** X9.  The words of [split_tokens_on_unicode], put end to end, are
    the decoded texts of the units in order: nothing is lost, repeated
    or reordered, except that with [remove_punctuation_from_words] the
    text of the punctuation units is left out. *)
Theorem split_tokens_on_unicode_text (tokenizer : Tokenizer)
    (tokens : list Z) (as_string remove isolate : bool) :
  exists words word_tokens,
    split_tokens_on_unicode tokenizer tokens as_string remove isolate
    = Ok (words, word_tokens)
    /\ concat words
       = concat (map (unit_text tokenizer remove isolate)
                   (units tokenizer tokens)).
Proof.
  unfold split_tokens_on_unicode.
  destruct (unicode_loop_total tokenizer as_string remove isolate tokens
              [] [] []) as (ws & wts & E & L); [reflexivity|].
  exists ws, wts. split; [exact E|].
  apply (unicode_loop_text tokenizer as_string remove isolate tokens
           [] [] [] ws wts eq_refl E).
Qed.

(** X10.  With [isolate_punctuations] every decoded unit is a word of
    its own: the words are the decoded texts of the units and there is
    one span per unit. *)
Theorem split_tokens_on_unicode_isolate (tokenizer : Tokenizer)
    (tokens : list Z) (as_string remove : bool) :
  split_tokens_on_unicode tokenizer tokens as_string remove true
  = Ok (map (decode_with_timestamps tokenizer) (units tokenizer tokens),
        map (fresh_span tokenizer as_string) (units tokenizer tokens)).
Proof.
  unfold split_tokens_on_unicode.
  apply (unicode_loop_isolate tokenizer as_string remove tokens [] [] []).
  reflexivity.
Qed.

End SegmenterExtras.

Module AlignerMore.
Import Aligner AlignerFacts.

Lemma stair_chain (l : list Q) (lo b y : Q) :
  lo <= b -> ascending b (l ++ [y]) -> stair lo (b :: l) (l ++ [y]).
Proof.
  revert lo b. induction l as [|a l IH]; intros lo b Hlo H.
  - simpl in *. tauto.
  - simpl in H. destruct H as [H1 H2].
    change (lo <= b /\ b <= a /\ stair a (a :: l) (l ++ [y])).
    split; [exact Hlo|]. split; [exact H1|].
    apply IH; [apply Qle_refl|exact H2].
Qed.

Lemma ascending_app_last (lo : Q) (l : list Q) (y z : Q) :
  ascending lo (l ++ [y; z]) -> ascending lo (l ++ [z]).
Proof.
  revert lo. induction l as [|a l IH]; intros lo H.
  - simpl in *. destruct H as (H1 & H2 & _). split; [lra|exact I].
  - simpl in *. destruct H as [H1 H2]. split; [exact H1|apply IH, H2].
Qed.

Lemma ascending_le_last (lo : Q) (l : list Q) (c : Q) :
  ascending lo (l ++ [c]) -> Forall (fun v => v <= c) (l ++ [c]).
Proof.
  revert lo. induction l as [|a l IH]; intros lo H.
  - constructor; [apply Qle_refl|constructor].
  - simpl in *. destruct H as [H1 H2]. constructor; [|apply (IH a), H2].
    assert (E : nth_error (l ++ [c]) (length l) = Some c).
    { rewrite nth_error_app2 by lia. rewrite Nat.sub_diag. reflexivity. }
    apply (ascending_head_le _ _ _ _ H2 E).
Qed.

Lemma take_Forall (P : Q -> Prop) (jt : list Q) (idx : list nat)
    (vals : list Q) :
  Forall P jt -> take jt idx = Ok vals -> Forall P vals.
Proof.
  intro HP. revert vals. induction idx as [|i idx IH]; intros vals E;
    simpl in E.
  - injection E as <-. constructor.
  - destruct (nth_error jt i) as [x|] eqn:En; [|discriminate].
    destruct (take jt idx) as [xs|]; [|discriminate].
    simpl in E. injection E as <-. constructor; [|apply IH; reflexivity].
    rewrite Forall_forall in HP. apply HP. apply (nth_error_In _ _ En).
Qed.

Lemma two_last_cases {A : Type} (l : list A) :
  l = [] \/ (exists z, l = [z]) \/ exists l0 y z, l = l0 ++ [y; z].
Proof.
  destruct (rev l) as [|z [|y r]] eqn:E;
    apply (f_equal (@rev A)) in E; rewrite rev_involutive in E; subst l.
  - left. reflexivity.
  - right. left. exists z. reflexivity.
  - right. right. exists (rev r), y, z. simpl. rewrite <- app_assoc.
    reflexivity.
Qed.

Lemma inner_app_two {A : Type} (l : list A) (y z : A) :
  inner (l ++ [y; z]) = tl (l ++ [y]).
Proof.
  unfold inner. destruct l as [|a l]; [reflexivity|]. simpl.
  change (l ++ [y; z]) with (l ++ [y] ++ [z]).
  rewrite app_assoc. apply removelast_last.
Qed.

Lemma removelast_app_two {A : Type} (l : list A) (y z : A) :
  removelast (l ++ [y; z]) = l ++ [y].
Proof.
  change (l ++ [y; z]) with (l ++ [y] ++ [z]).
  rewrite app_assoc. apply removelast_last.
Qed.

Lemma copy_last_to_before_app (l : list Q) (y z : Q) :
  copy_last_to_before (l ++ [y; z]) = Ok (l ++ [z; z]).
Proof.
  unfold copy_last_to_before. rewrite rev_app_distr. simpl.
  rewrite rev_involutive, <- app_assoc. reflexivity.
Qed.

Lemma in_sequence_weaken (lo lo' : Q) (l : list word) :
  lo' <= lo -> in_sequence lo l -> in_sequence lo' l.
Proof.
  destruct l; simpl; [auto|]. intros H (H1 & H2 & H3).
  split; [lra|]. split; assumption.
Qed.

(** Begin and end times that follow each other give words that follow
    each other, within the window. *)
Lemma word_dicts_in_sequence (start_time lo hi : Q) (words : list pystr)
    (begin_times end_times : list Q) :
  stair lo begin_times end_times ->
  Forall (fun v => v <= hi) end_times ->
  in_sequence (round2 (lo + start_time))
    (word_dicts start_time words begin_times end_times)
  /\ Forall (fun w => end_ w <= round2 (hi + start_time))
       (word_dicts start_time words begin_times end_times).
Proof.
  revert lo words end_times.
  induction begin_times as [|b bs IH]; intros lo words es Hs Hh.
  - destruct words; simpl; auto.
  - destruct words as [|w words]; [simpl; auto|].
    destruct es as [|e es]; [simpl; auto|].
    destruct Hs as (H1 & H2 & H3). inversion Hh as [|? ? He Hes]; subst.
    destruct (IH e words es H3 Hes) as [I1 I2].
    cbn [word_dicts]. destruct (negb _).
    + split.
      * cbn [in_sequence start end_].
        split; [apply round2_le; lra|].
        split; [apply round2_le; lra|exact I1].
      * constructor; [|exact I2]. cbn [end_]. apply round2_le. lra.
    + split; [|exact I2].
      apply (in_sequence_weaken (round2 (e + start_time))); [|exact I1].
      apply round2_le. lra.
Qed.

(** From a path whose frame coordinate never goes back, the words
    follow each other within the window. *)
Lemma words_from_path_in_sequence (path : list (Z * Z)) (words : list pystr)
    (word_tokens : list (list Segmenter.item)) (refine : Z)
    (start_time end_time : Q) (frames : nat) (ws : list word) :
  frames_ascend frames path ->
  words_from_path path words word_tokens refine start_time end_time = Ok ws ->
  inject_Z (Z.of_nat frames) * AUDIO_TIME_PER_TOKEN <= end_time - start_time ->
  in_sequence (round2 start_time) ws
  /\ Forall (fun w => end_ w <= round2 end_time) ws.
Proof.
  intros Ea H Hclose. unfold words_from_path in H.
  destruct (jumps_of path) as [jumps|] eqn:Ej; [|discriminate].
  cbn [bind] in H.
  destruct word_tokens as [|span word_tokens]; [discriminate|].
  cbn [bind] in H.
  set (jump_times := map (fun j => inject_Z j * AUDIO_TIME_PER_TOKEN) jumps
                     ++ [end_time - start_time]) in *.
  set (lens := map (@length Segmenter.item) (span :: word_tokens)) in *.
  assert (Hjt : ascending (inject_Z 0 * AUDIO_TIME_PER_TOKEN) jump_times).
  { apply (jump_times_ascending jumps 0 _ _
             (jumps_of_ascending _ _ _ Ea Ej) Hclose). }
  assert (Hhi : Forall (fun v => v <= end_time - start_time) jump_times).
  { apply (ascending_le_last _ _ _ Hjt). }
  destruct (take jump_times (Py.but_last (O :: cumsum 0 lens)))
    as [begin_times|] eqn:Eb; [|discriminate].
  cbn [bind tl] in H.
  destruct (take jump_times (cumsum 0 lens)) as [end_times|] eqn:Ee;
    [|discriminate].
  cbn [bind] in H.
  assert (Hne : cumsum 0 lens <> []) by (unfold lens; discriminate).
  destruct (take_shifted _ _ _ _ _ Hne Eb Ee) as (x & Hx & ->).
  assert (Hx0 : 0 <= x).
  { assert (H0 := ascending_head_le _ _ _ _ Hjt Hx).
    change (inject_Z 0) with 0 in H0. lra. }
  assert (Hend : ascending x end_times).
  { apply (take_ascending jump_times _ (cumsum 0 lens) 0 x end_times Hjt Hx);
      [apply cumsum_ascending|exact Ee]. }
  assert (Hle : Forall (fun v => v <= end_time - start_time) end_times).
  { apply (take_Forall _ _ _ _ Hhi Ee). }
  assert (Final : forall b l y,
             ascending b (l ++ [y]) -> 0 <= b ->
             Forall (fun v => v <= end_time - start_time) (l ++ [y]) ->
             in_sequence (round2 start_time)
               (word_dicts start_time (inner words) (b :: l) (l ++ [y]))
             /\ Forall (fun w => end_ w <= round2 end_time)
                  (word_dicts start_time (inner words) (b :: l) (l ++ [y]))).
  { intros b l y Ha Hb Hf.
    destruct (word_dicts_in_sequence start_time 0 (end_time - start_time)
                (inner words) (b :: l) (l ++ [y])
                (stair_chain l 0 b y Hb Ha) Hf) as [I1 I2].
    split.
    - apply (in_sequence_weaken (round2 (0 + start_time))); [|exact I1].
      apply round2_le. lra.
    - eapply Forall_impl; [|exact I2]. intros w Hw. cbv beta in *.
      apply (Qle_trans _ _ _ Hw). apply round2_le. lra. }
  assert (Nil : forall es, word_dicts start_time (inner words) [] es = []).
  { intro es. destruct (inner words); reflexivity. }
  destruct (two_last_cases end_times) as [->|[[z ->]|(l0 & y & z & ->)]].
  - (* no end time *)
    destruct (refine =? 0)%Z; [discriminate|].
    cbn [bind] in H. injection H as <-.
    change (inner [x]) with (@nil Q). rewrite Nil. simpl. auto.
  - (* one word *)
    destruct (refine =? 0)%Z; [discriminate|].
    cbn [bind] in H. injection H as <-.
    change (inner (x :: removelast [z])) with (@nil Q).
    rewrite Nil. simpl. auto.
  - rewrite removelast_app_two in H.
    destruct (refine =? 0)%Z.
    + rewrite copy_last_to_before_app in H.
      destruct l0 as [|a l0].
      * cbn [app copy_first_to_second bind] in H. injection H as <-.
        change (inner [x; x]) with (@nil Q). rewrite Nil. simpl. auto.
      * cbn [app copy_first_to_second bind] in H. injection H as <-.
        change (inner (a :: l0 ++ [z; z]))
          with (inner ((a :: l0) ++ [z; z])).
        rewrite inner_app_two.
        replace (inner (x :: x :: l0 ++ [y])) with (x :: l0)
          by (unfold inner; cbn [tl]; change (x :: l0 ++ [y])
                with ((x :: l0) ++ [y]); rewrite removelast_last;
              reflexivity).
        cbn [app tl].
        apply Final; [|exact Hx0|].
        -- destruct Hend as [H1 H2]. cbn [app] in H2.
           apply ascending_app_last in H2.
           apply (ascending_weaken a); [exact H1|exact H2].
        -- inversion Hle as [|? ? _ Hl]; subst.
           rewrite Forall_app in Hl |- *. destruct Hl as [Hl1 Hl2].
           split; [exact Hl1|]. inversion Hl2 as [|? ? _ Hl3]; subst.
           exact Hl3.
    + cbn [bind] in H. injection H as <-.
      rewrite inner_app_two.
      destruct l0 as [|a l0].
      * change (inner (x :: [] ++ [y])) with (@nil Q). rewrite Nil.
        simpl. auto.
      * replace (inner (x :: (a :: l0) ++ [y])) with (a :: l0)
          by (unfold inner; cbn [tl]; rewrite removelast_last; reflexivity).
        cbn [app tl].
        destruct Hend as [H1 H2].
        apply Final; [|lra|].
        -- change (l0 ++ [y; z]) with (l0 ++ [y] ++ [z]) in H2.
           rewrite app_assoc in H2.
           apply ascending_removelast in H2.
           rewrite removelast_last in H2. exact H2.
        -- inversion Hle as [|? ? _ Hl]; subst.
           change (l0 ++ [y; z]) with (l0 ++ [y] ++ [z]) in Hl.
           rewrite app_assoc in Hl. rewrite Forall_app in Hl. apply Hl.
Qed.

Section WithAlignment.

Variable alignment :
  tensor -> nat -> Q -> option nat -> result (list (Z * Z)).
Variable tokenizer : Tokenizer.

(** Whatever the fuel left for the retry, the result is the same. *)
Lemma perform_word_alignment_two_levels (f g : nat) (tokens : list Z)
    (aw : list attention) (use_space : bool) (refine : Z) (add : bool)
    (medfilt_width : nat) (qk_scale : Q) (most_top_layers : option nat)
    (remove : bool) :
  exists r,
    perform_word_alignment alignment tokenizer (S (S f)) tokens aw use_space
      refine add medfilt_width qk_scale most_top_layers remove = Some r
    /\ perform_word_alignment alignment tokenizer (S (S g)) tokens aw
         use_space refine add medfilt_width qk_scale most_top_layers remove
       = Some r.
Proof.
  remember (S f) as f' eqn:Ef. remember (S g) as g' eqn:Eg.
  cbn [perform_word_alignment].
  repeat first
    [ solve [eexists; split; reflexivity]
    | match goal with
      | |- exists r, (match ?c with _ => _ end) = _ /\ _ => destruct c eqn:?
      | |- exists r, (if ?c then _ else _) = _ /\ _ => destruct c eqn:?
      end ].
  subst f' g'.
  match goal with
  | Hc : cat_layers aw = Ok _ |- _ =>
      destruct (cat_layers_nonempty _ _ Hc) as (layer & layers & Eaw)
  end.
  subst aw.
  match goal with
  | Hl : collapse_layers _ _ = Ok _ |- _ =>
      rewrite !(perform_word_alignment_retry _ _ _ _ _ _ _ _ _ _ _ _ _ _ _ Hl)
  end.
  eexists. split; reflexivity.
Qed.

(** How a word list comes about: the placeholder or nothing for a
    segment without end timestamp, nothing for an empty window, or the
    words read off the warping path of the first attempt. *)
Lemma perform_word_alignment_cases (fuel : nat) (tokens : list Z)
    (aw : list attention) (use_space : bool) (refine : Z) (add : bool)
    (medfilt_width : nat) (qk_scale : Q) (most_top_layers : option nat)
    (remove : bool) (ws : list word) :
  perform_word_alignment alignment tokenizer fuel tokens aw use_space refine
    add medfilt_width qk_scale most_top_layers remove = Some (Ok ws) ->
  exists first rest last,
    tokens = first :: rest /\ Py.last_item tokens = Ok last
    /\ (timestamp_begin tokenizer <= first)%Z
    /\ (((length tokens = 1%nat \/ (last < timestamp_begin tokenizer)%Z)
         /\ ws = if add
                 then [mkWord []
                         (round2 (inject_Z (first - timestamp_begin tokenizer)
                                  * AUDIO_TIME_PER_TOKEN))
                         (round2 (inject_Z (last - timestamp_begin tokenizer)
                                  * AUDIO_TIME_PER_TOKEN))
                         None]
                 else [])
        \/ (last = first /\ refine = 0%Z /\ ws = [])
        \/ ((timestamp_begin tokenizer <= last)%Z
            /\ ~ (last = first /\ refine = 0%Z)
            /\ (0 <= window_start tokenizer refine first
                < window_end tokenizer refine last)%Z
            /\ exists words word_tokens weights path,
                (if use_space
                 then Segmenter.split_tokens_on_spaces tokenizer tokens true
                        remove
                 else Segmenter.split_tokens_on_unicode tokenizer tokens true
                        remove false) = Ok (words, word_tokens)
                /\ cat_layers aw = Ok weights
                /\ alignment
                     (Torch.frames_between
                        (window_start tokenizer refine first)
                        (window_end tokenizer refine last) weights)
                     medfilt_width qk_scale most_top_layers = Ok path
                /\ words_from_path path words word_tokens refine
                     (inject_Z (window_start tokenizer refine first)
                      * AUDIO_TIME_PER_TOKEN)
                     (inject_Z (window_end tokenizer refine last)
                      * AUDIO_TIME_PER_TOKEN) = Ok ws)).
Proof.
  intro H.
  destruct fuel as [|fuel]; [discriminate|].
  cbn [perform_word_alignment] in H.
  destruct (check_shapes (length tokens) aw); [|discriminate H].
  destruct tokens as [|first rest]; [discriminate|].
  destruct (Py.last_item (first :: rest)) as [last|] eqn:El;
    [|discriminate].
  exists first, rest, last. split; [reflexivity|]. split; [reflexivity|].
  set (tb := timestamp_begin tokenizer) in *.
  destruct (first - tb <? 0)%Z eqn:Es; [discriminate|].
  apply Z.ltb_ge in Es. split; [lia|].
  match type of H with
  | (if ?b then _ else _) = _ => destruct b eqn:Ep
  end.
  { left. split.
    - apply orb_true_iff in Ep. destruct Ep as [Ep|Ep].
      + left. apply Nat.eqb_eq, Ep.
      + right. apply Z.ltb_lt in Ep. lia.
    - destruct add; injection H as <-; reflexivity. }
  apply orb_false_iff in Ep. destruct Ep as [_ Ep]. apply Z.ltb_ge in Ep.
  match type of H with
  | (if ?b then _ else _) = _ => destruct b eqn:Ez
  end.
  { right. left. injection H as <-.
    apply andb_true_iff in Ez. destruct Ez as [Ez1 Ez2].
    apply Z.eqb_eq in Ez1. apply Z.eqb_eq in Ez2.
    split; [lia|]. split; [exact Ez2|reflexivity]. }
  right. right. split; [lia|]. split.
  { intros [Hz1 Hz2]. subst last refine.
    rewrite Z.eqb_refl in Ez. discriminate Ez. }
  subst tb.
  change (if (0 <? refine)%Z
          then Z.max (first - timestamp_begin tokenizer - refine) 0
          else (first - timestamp_begin tokenizer)%Z)
    with (window_start tokenizer refine first) in H.
  change (if (0 <? refine)%Z
          then Z.min (last - timestamp_begin tokenizer + refine)
                 (N_FRAMES / 2)
          else (last - timestamp_begin tokenizer)%Z)
    with (window_end tokenizer refine last) in H.
  assert (Hs0 : (0 <= window_start tokenizer refine first)%Z).
  { unfold window_start. destruct (0 <? refine)%Z; lia. }
  destruct (window_end tokenizer refine last
            <=? window_start tokenizer refine first)%Z eqn:Ele;
    [discriminate|].
  apply Z.leb_gt in Ele. split; [lia|].
  match type of H with
  | match ?c with _ => _ end = _ =>
      destruct c as [[words word_tokens]|]; [|discriminate]
  end.
  destruct (cat_layers aw) as [weights|] eqn:Ec; [|discriminate].
  match type of H with
  | (if ?b then _ else _) = _ => destruct b
  end.
  { exfalso. destruct (collapse_layers _ aw) as [collapsed|] eqn:Ecl;
      [|discriminate].
    apply (perform_word_alignment_retry_no_words _ _ _ _ _ _ _ _ _ _ _ _ _ _
             _ _ Ec Ecl H). }
  injection H as H. unfold py_assert in H.
  match type of H with
  | bind (if ?b then _ else _) _ = _ => destruct b; [|discriminate]
  end.
  cbn [bind] in H.
  match type of H with
  | bind (if ?b then _ else _) _ = _ => destruct b; [|discriminate]
  end.
  cbn [bind] in H.
  destruct (alignment _ medfilt_width qk_scale most_top_layers)
    as [path|] eqn:Ea; [|discriminate].
  cbn [bind] in H.
  exists words, word_tokens, weights, path. auto.
Qed.

End WithAlignment.

Lemma word_dicts_wellformed (start_time : Q) (words : list pystr)
    (begin_times end_times : list Q) :
  Forall (fun w => grid_word w /\ idx_segment w = None
                   /\ Py.startswith (Py.lit "<|") (text w) = false)
    (word_dicts start_time words begin_times end_times).
Proof.
  revert begin_times end_times.
  induction words as [|w words IH]; intros bs es; [constructor|].
  destruct bs as [|b bs]; [constructor|].
  destruct es as [|e es]; [constructor|].
  cbn [word_dicts].
  destruct (Py.startswith (Py.lit "<|") w) eqn:E; cbn [negb]; [apply IH|].
  constructor; [|apply IH]. cbn [text start end_ idx_segment].
  split; [split; apply on_grid_round2|]. split; [reflexivity|exact E].
Qed.

Lemma words_from_path_wellformed (path : list (Z * Z)) (words : list pystr)
    (word_tokens : list (list Segmenter.item)) (refine : Z)
    (start_time end_time : Q) (ws : list word) :
  words_from_path path words word_tokens refine start_time end_time = Ok ws ->
  Forall (fun w => grid_word w /\ idx_segment w = None
                   /\ Py.startswith (Py.lit "<|") (text w) = false) ws.
Proof.
  unfold words_from_path. intro H.
  repeat match type of H with
         | bind ?c _ = _ => destruct c; [cbn [bind] in H|discriminate]
         end.
  injection H as <-. apply word_dicts_wellformed.
Qed.

End AlignerMore.

Section AlignerExtras.
Import Aligner AlignerFacts AlignerMore.

Variable alignment :
  tensor -> nat -> Q -> option nat -> result (list (Z * Z)).
Variable tokenizer : Tokenizer.

(** X11.  [perform_word_alignment] always comes back, after at most
    one recursive call: whatever the arguments, two levels of recursion
    are enough and deeper ones give the same result. *)
Theorem perform_word_alignment_returns (tokens : list Z)
    (attention_weights : list attention) (use_space : bool) (refine : Z)
    (add : bool) (medfilt_width : nat) (qk_scale : Q)
    (most_top_layers : option nat) (remove : bool) :
  exists r,
    forall fuel,
      perform_word_alignment alignment tokenizer (S (S fuel)) tokens
        attention_weights use_space refine add medfilt_width qk_scale
        most_top_layers remove = Some r.
Proof.
  destruct (perform_word_alignment_two_levels alignment tokenizer 0 0 tokens
              attention_weights use_space refine add medfilt_width qk_scale
              most_top_layers remove) as (r & H0 & _).
  exists r. intro fuel.
  destruct (perform_word_alignment_two_levels alignment tokenizer fuel 0
              tokens attention_weights use_space refine add medfilt_width
              qk_scale most_top_layers remove) as (r' & Hk & H0').
  congruence.
Qed.

(** X12.  Once the shapes agree, [perform_word_alignment] rejects an
    empty token list with an [AssertionError], a list that does not
    start on a timestamp with [RuntimeError: Missing start token], and,
    without refinement, a list whose closing timestamp is before its
    opening one with [RuntimeError: Got segment with null or negative
    duration], whatever the other arguments are. *)
Theorem perform_word_alignment_rejects (fuel : nat) (tokens : list Z)
    (attention_weights : list attention) (use_space : bool) (refine : Z)
    (add : bool) (medfilt_width : nat) (qk_scale : Q)
    (most_top_layers : option nat) (remove : bool) :
  check_shapes (length tokens) attention_weights = Ok tt ->
  (tokens = [] ->
   perform_word_alignment alignment tokenizer (S fuel) tokens
     attention_weights use_space refine add medfilt_width qk_scale
     most_top_layers remove
   = Some (Raise (AssertionError "Got unexpected empty sequence of tokens")))
  /\ (forall first rest,
        tokens = first :: rest ->
        (first < timestamp_begin tokenizer)%Z ->
        perform_word_alignment alignment tokenizer (S fuel) tokens
          attention_weights use_space refine add medfilt_width qk_scale
          most_top_layers remove
        = Some (Raise (RuntimeError "Missing start token")))
  /\ (forall first middle last,
        tokens = first :: middle ++ [last] ->
        (timestamp_begin tokenizer <= last)%Z -> (last < first)%Z ->
        (refine <= 0)%Z ->
        perform_word_alignment alignment tokenizer (S fuel) tokens
          attention_weights use_space refine add medfilt_width qk_scale
          most_top_layers remove
        = Some (Raise (RuntimeError
                         "Got segment with null or negative duration"))).
Proof.
  intro Hs. split; [|split].
  - intros ->. cbn [perform_word_alignment]. rewrite Hs. reflexivity.
  - intros first rest -> Hf. cbn [perform_word_alignment]. rewrite Hs.
    destruct (Py.last_item (first :: rest)) as [last|] eqn:El.
    + assert (E : (first - timestamp_begin tokenizer <? 0)%Z = true)
        by (apply Z.ltb_lt; lia).
      rewrite E. reflexivity.
    + exfalso. unfold Py.last_item in El.
      destruct (rev (first :: rest)) eqn:Er; [|discriminate].
      apply (f_equal (@length Z)) in Er. rewrite length_rev in Er.
      discriminate.
  - intros first middle last -> Hl Hlt Hr. cbn [perform_word_alignment].
    rewrite Hs.
    assert (E : Py.last_item (first :: middle ++ [last]) = Ok last).
    { unfold Py.last_item. change (first :: middle ++ [last])
        with ((first :: middle) ++ [last]).
      rewrite rev_app_distr. reflexivity. }
    rewrite E.
    assert (E1 : (first - timestamp_begin tokenizer <? 0)%Z = false)
      by (apply Z.ltb_ge; lia).
    assert (E2 : (last - timestamp_begin tokenizer <? 0)%Z = false)
      by (apply Z.ltb_ge; lia).
    assert (E3 : (length (first :: middle ++ [last]) =? 1)%nat = false).
    { apply Nat.eqb_neq. simpl. rewrite length_app. simpl. lia. }
    assert (E4 : (last - timestamp_begin tokenizer
                  =? first - timestamp_begin tokenizer)%Z = false)
      by (apply Z.eqb_neq; lia).
    assert (E5 : (0 <? refine)%Z = false) by (apply Z.ltb_ge; lia).
    assert (E6 : (last - timestamp_begin tokenizer
                  <=? first - timestamp_begin tokenizer)%Z = true)
      by (apply Z.leb_le; lia).
    rewrite E1, E3, E2, E4, E5, E6. reflexivity.
Qed.

(** X13.  Degenerate segments give no word and no error, before any
    token is decoded or any weight is read: a segment without closing
    timestamp when no placeholder is asked for, and, without
    refinement, a segment whose two timestamps are equal. *)
Theorem perform_word_alignment_no_words (fuel : nat) (first last : Z)
    (middle : list Z) (attention_weights : list attention) (use_space : bool)
    (refine : Z) (add : bool) (medfilt_width : nat) (qk_scale : Q)
    (most_top_layers : option nat) (remove : bool) :
  check_shapes (length (first :: middle ++ [last])) attention_weights
  = Ok tt ->
  (timestamp_begin tokenizer <= first)%Z ->
  (add = false /\ (last < timestamp_begin tokenizer)%Z)
  \/ (last = first /\ refine = 0%Z) ->
  perform_word_alignment alignment tokenizer (S fuel)
    (first :: middle ++ [last]) attention_weights use_space refine add
    medfilt_width qk_scale most_top_layers remove = Some (Ok []).
Proof.
  intros Hs Hf Hc. cbn [perform_word_alignment]. rewrite Hs.
  assert (E : Py.last_item (first :: middle ++ [last]) = Ok last).
  { unfold Py.last_item. change (first :: middle ++ [last])
      with ((first :: middle) ++ [last]).
    rewrite rev_app_distr. reflexivity. }
  rewrite E.
  assert (E1 : (first - timestamp_begin tokenizer <? 0)%Z = false)
    by (apply Z.ltb_ge; lia).
  assert (E3 : (length (first :: middle ++ [last]) =? 1)%nat = false).
  { apply Nat.eqb_neq. simpl. rewrite length_app. simpl. lia. }
  rewrite E1, E3. cbn [orb].
  destruct Hc as [[-> Hl]|[-> ->]].
  - assert (E2 : (last - timestamp_begin tokenizer <? 0)%Z = true)
      by (apply Z.ltb_lt; lia).
    rewrite E2. reflexivity.
  - rewrite E1, Z.eqb_refl. reflexivity.
Qed.

(** X14.  Whenever [perform_word_alignment] returns words, each of
    them has its two times on the centisecond grid, carries no segment
    tag yet, and has a text that does not start with the marker of a
    special token. *)
Theorem perform_word_alignment_words_wellformed (fuel : nat)
    (tokens : list Z) (attention_weights : list attention) (use_space : bool)
    (refine : Z) (add : bool) (medfilt_width : nat) (qk_scale : Q)
    (most_top_layers : option nat) (remove : bool) (ws : list word) :
  perform_word_alignment alignment tokenizer fuel tokens attention_weights
    use_space refine add medfilt_width qk_scale most_top_layers remove
  = Some (Ok ws) ->
  Forall (fun w => grid_word w /\ idx_segment w = None
                   /\ Py.startswith (Py.lit "<|") (text w) = false) ws.
Proof.
  intro H.
  destruct (perform_word_alignment_cases _ _ _ _ _ _ _ _ _ _ _ _ _ H)
    as (first & rest & last & _ & _ & _
        & [[_ ->]|[(_ & _ & ->)|(_ & _ & _ & C)]]).
  - destruct add; constructor; [|constructor].
    cbn [text start end_ idx_segment].
    split; [split; apply on_grid_round2|]. split; reflexivity.
  - constructor.
  - destruct C as (words & word_tokens & weights & path & _ & _ & _ & C).
    apply (words_from_path_wellformed _ _ _ _ _ _ _ C).
Qed.

(** X15.  When the frame coordinate of the warping path never goes
    back, the words of a segment that closes on a timestamp come one
    after the other inside the alignment window: the first starts no
    earlier than the window, each ends no earlier than it starts and no
    later than the next one starts, and none ends after the window. *)
Theorem perform_word_alignment_in_window (fuel : nat) (first last : Z)
    (middle : list Z) (attention_weights : list attention) (use_space : bool)
    (refine : Z) (add : bool) (medfilt_width : nat) (qk_scale : Q)
    (most_top_layers : option nat) (remove : bool) (ws : list word) :
  (forall w mw qs mt path,
      alignment w mw qs mt = Ok path -> frames_ascend (n_frame w) path) ->
  (timestamp_begin tokenizer <= last)%Z ->
  perform_word_alignment alignment tokenizer fuel (first :: middle ++ [last])
    attention_weights use_space refine add medfilt_width qk_scale
    most_top_layers remove = Some (Ok ws) ->
  in_sequence
    (inject_Z (window_start tokenizer refine first) * AUDIO_TIME_PER_TOKEN) ws
  /\ Forall (fun w => end_ w
                      <= inject_Z (window_end tokenizer refine last)
                         * AUDIO_TIME_PER_TOKEN) ws.
Proof.
  intros Hpath Hl H.
  destruct (perform_word_alignment_cases _ _ _ _ _ _ _ _ _ _ _ _ _ H)
    as (first' & rest & last' & Et & El & _ & C).
  injection Et as <- <-.
  assert (E : Py.last_item (first :: middle ++ [last]) = Ok last).
  { unfold Py.last_item. change (first :: middle ++ [last])
      with ((first :: middle) ++ [last]).
    rewrite rev_app_distr. reflexivity. }
  rewrite E in El. injection El as <-.
  destruct C as [[C _]|[(_ & _ & ->)|(_ & _ & Hw & C)]].
  - exfalso. destruct C as [C|C]; [|lia].
    simpl in C. rewrite length_app in C. simpl in C. lia.
  - simpl. auto.
  - destruct C as (words & word_tokens & weights & path & _ & _ & Ea & C).
    apply Hpath in Ea.
    set (s := window_start tokenizer refine first) in *.
    set (e := window_end tokenizer refine last) in *.
    destruct (words_from_path_in_sequence _ _ _ _ _ _ _ _ Ea C) as [I1 I2].
    { cbn [Torch.frames_between n_frame]. unfold Py.clamp_index.
      destruct (s <? 0)%Z eqn:E1; [apply Z.ltb_lt in E1; lia|].
      destruct (e <? 0)%Z eqn:E2; [apply Z.ltb_lt in E2; lia|].
      assert (Hz : (Z.of_nat (Nat.min (n_frame weights) (Z.to_nat e)
                              - Nat.min (n_frame weights) (Z.to_nat s))
                    <= e - s)%Z) by lia.
      rewrite Zle_Qle in Hz. unfold Z.sub in Hz.
      rewrite inject_Z_plus, inject_Z_opp in Hz.
      unfold AUDIO_TIME_PER_TOKEN. lra. }
    split.
    + apply (in_sequence_weaken (round2 (inject_Z s * AUDIO_TIME_PER_TOKEN)));
        [|exact I1].
      rewrite (round2_on_grid _ (timestamp_on_grid s)). apply Qle_refl.
    + eapply Forall_impl; [|exact I2]. intros w Hw'. cbv beta in *.
      rewrite (round2_on_grid _ (timestamp_on_grid e)) in Hw'. exact Hw'.
Qed.

End AlignerExtras.

Lemma perform_word_alignment_rejects_witness :
  Aligner.perform_word_alignment Toy.alignment Toy.tokenizer 1 [110; 0; 105]%Z
    [Aligner.ATensor (Toy.uniform 6 3 1500)] true 0 true 9 1 None false
  = Some (Raise (RuntimeError "Got segment with null or negative duration")).
Proof.
  refine (proj2 (proj2 (perform_word_alignment_rejects Toy.alignment
                          Toy.tokenizer 0 [110; 0; 105]%Z
                          [Aligner.ATensor (Toy.uniform 6 3 1500)]
                          true 0 true 9 1 None false _))
            110%Z [0%Z] 105%Z _ _ _ _).
  - vm_compute. reflexivity.
  - reflexivity.
  - simpl. lia.
  - lia.
  - lia.
Defined.

Lemma perform_word_alignment_no_words_witness :
  Aligner.perform_word_alignment Toy.alignment Toy.tokenizer 1 [100; 0; 100]%Z
    [Aligner.ATensor (Toy.uniform 6 3 1500)] true 0 true 9 1 None false
  = Some (Ok []).
Proof.
  apply (perform_word_alignment_no_words Toy.alignment Toy.tokenizer 0
           100 100 [0%Z] [Aligner.ATensor (Toy.uniform 6 3 1500)]
           true 0 true 9 1 None false).
  - vm_compute. reflexivity.
  - simpl. lia.
  - right. split; reflexivity.
Defined.

Lemma perform_word_alignment_words_wellformed_witness :
  exists ws,
    Aligner.perform_word_alignment Toy.alignment Toy.tokenizer 1
      [100; 0; 2; 1; 3; 110]%Z [Aligner.ATensor (Toy.uniform 6 6 1500)]
      true 0 true 9 1 None false = Some (Ok ws)
    /\ length ws = 2%nat
    /\ Forall (fun w => grid_word w /\ idx_segment w = None
                        /\ Py.startswith (Py.lit "<|") (text w) = false) ws.
Proof.
  eexists. split; [vm_compute; reflexivity|]. split; [reflexivity|].
  eapply (perform_word_alignment_words_wellformed Toy.alignment Toy.tokenizer
            1 [100; 0; 2; 1; 3; 110]%Z
            [Aligner.ATensor (Toy.uniform 6 6 1500)]
            true 0 true 9 1 None false).
  vm_compute. reflexivity.
Defined.

Lemma perform_word_alignment_in_window_witness :
  exists ws,
    Aligner.perform_word_alignment Toy.alignment Toy.tokenizer 1
      [100; 0; 2; 1; 3; 110]%Z [Aligner.ATensor (Toy.uniform 6 6 1500)]
      true 0 true 9 1 None false = Some (Ok ws)
    /\ length ws = 2%nat
    /\ in_sequence
         (inject_Z (window_start Toy.tokenizer 0 100)
          * Aligner.AUDIO_TIME_PER_TOKEN) ws
    /\ Forall (fun w => end_ w
                        <= inject_Z (window_end Toy.tokenizer 0 110)
                           * Aligner.AUDIO_TIME_PER_TOKEN) ws.
Proof.
  eexists. split; [vm_compute; reflexivity|]. split; [reflexivity|].
  eapply (perform_word_alignment_in_window Toy.alignment Toy.tokenizer
            1 100 110 [0; 2; 1; 3]%Z
            [Aligner.ATensor (Toy.uniform 6 6 1500)]
            true 0 true 9 1 None false _ toy_alignment_ascends).
  - simpl. lia.
  - vm_compute. reflexivity.
Defined.

Module AccumulatorMore.
Import Accumulator AccumulatorFacts.

Lemma update_before_last_pop (before : list (list Z)) (c : Z)
    (cur new : list Z) :
  update_before_last pop_front (before ++ [c :: cur] ++ [new])
  = Ok (before ++ [cur] ++ [new]).
Proof.
  unfold update_before_last. rewrite !rev_app_distr. simpl.
  rewrite rev_involutive, <- app_assoc. reflexivity.
Qed.

Lemma update_before_last_snoc (before : list (list Z)) (cur new : list Z)
    (ti : list (list Z)) :
  update_before_last pop_front (before ++ [cur] ++ [new]) = Ok ti ->
  ti = before ++ [tl cur] ++ [new].
Proof.
  destruct cur as [|c cur].
  - unfold update_before_last. rewrite !rev_app_distr. discriminate.
  - rewrite update_before_last_pop. intro H. injection H as <-. reflexivity.
Qed.

Lemma last_as_list_cases {A : Type} (l : list A) :
  (l = [] /\ Py.last_as_list l = [])
  \/ exists l0 x, l = l0 ++ [x] /\ Py.last_as_list l = [x].
Proof.
  unfold Py.last_as_list. destruct (rev l) as [|x r] eqn:E.
  - left. split; [|reflexivity].
    apply (f_equal (@rev A)) in E. rewrite rev_involutive in E. exact E.
  - right. exists (rev r), x. split; [|reflexivity].
    apply (f_equal (@rev A)) in E. rewrite rev_involutive in E. exact E.
Qed.

Lemma last_item_inv {A : Type} (l : list A) (x : A) :
  Py.last_item l = Ok x -> exists l0, l = l0 ++ [x].
Proof.
  unfold Py.last_item. destruct (rev l) as [|y r] eqn:E; [discriminate|].
  intro H. injection H as ->. exists (rev r).
  apply (f_equal (@rev A)) in E. rewrite rev_involutive in E. exact E.
Qed.

(** [reset] touches the token lists and the attention weights only. *)
Lemma reset_frame (s s' : state) (add_segment keep_last_token : bool) :
  reset s add_segment keep_last_token = Ok s' ->
  exists ti aw, s' = with_tok s ti aw.
Proof.
  unfold reset. intro H. destruct add_segment.
  - match type of H with
    | bind ?c _ = _ => destruct c as [[ti aw]|]; [|discriminate]
    end.
    cbn [bind] in H.
    destruct (update_before_last pop_front ti) as [ti'|]; [|discriminate].
    cbn [bind] in H. injection H as <-. eauto.
  - destruct (Py.last_item (tok_indices s)) as [cur|]; [|discriminate].
    cbn [bind] in H. destruct (0 <? length cur)%nat.
    + destruct (Py.update_last _ _) as [ti|]; [|discriminate].
      cbn [bind] in H. injection H as <-. eauto.
    + injection H as <-. exists (tok_indices s), (tok_attweights s).
      destruct s; reflexivity.
Qed.

(** [reset] keeps the number of layers. *)
Lemma reset_layers (s s' : state) (add_segment keep_last_token : bool) :
  reset s add_segment keep_last_token = Ok s' ->
  length (tok_attweights s') = length (tok_attweights s).
Proof.
  unfold reset. intro H. destruct add_segment.
  - destruct keep_last_token.
    + destruct (Py.last_item (tok_indices s)) as [cur|]; [|discriminate].
      cbn [bind] in H.
      destruct (Py.last_item cur) as [t|]; [|discriminate].
      cbn [bind] in H.
      destruct (update_before_last pop_front _) as [ti|]; [|discriminate].
      cbn [bind] in H. injection H as <-. apply length_map.
    + cbn [bind] in H.
      destruct (update_before_last pop_front _) as [ti|]; [|discriminate].
      cbn [bind] in H. injection H as <-. apply length_map.
  - destruct (Py.last_item (tok_indices s)) as [cur|]; [|discriminate].
    cbn [bind] in H. destruct (0 <? length cur)%nat.
    + destruct (Py.update_last _ _) as [ti|]; [|discriminate].
      cbn [bind] in H. injection H as <-. apply length_map.
    + injection H as <-. reflexivity.
Qed.

(** [reset] opens a new buffer exactly when it closes a segment. *)
Lemma reset_length (s s' : state) (add_segment keep_last_token : bool) :
  reset s add_segment keep_last_token = Ok s' ->
  length (tok_indices s')
  = (length (tok_indices s) + if add_segment then 1 else 0)%nat
  /\ timestamped_word_segments s' = timestamped_word_segments s.
Proof.
  unfold reset. intro H. destruct add_segment.
  - destruct (Py.last_item (tok_indices s)) as [cur|] eqn:El.
    + destruct (last_item_inv _ _ El) as (before & Eb).
      assert (K : forall new ti,
                 update_before_last pop_front (tok_indices s ++ [new]) = Ok ti ->
                 length ti = (length (tok_indices s) + 1)%nat).
      { intros new ti Hu. rewrite Eb, <- app_assoc in Hu.
        apply update_before_last_snoc in Hu. subst ti.
        rewrite Eb, !length_app. simpl. lia. }
      destruct keep_last_token.
      * cbn [bind] in H.
        destruct (Py.last_item cur) as [t|]; [|discriminate].
        cbn [bind] in H.
        destruct (update_before_last pop_front _) as [ti|] eqn:Eu;
          [|discriminate].
        cbn [bind] in H. injection H as <-. split; [|reflexivity].
        apply (K _ _ Eu).
      * cbn [bind] in H.
        destruct (update_before_last pop_front _) as [ti|] eqn:Eu;
          [|discriminate].
        cbn [bind] in H. injection H as <-. split; [|reflexivity].
        apply (K _ _ Eu).
    + exfalso. destruct keep_last_token; [discriminate|].
      cbn [bind] in H. unfold Py.last_item in El.
      destruct (rev (tok_indices s)) eqn:Er; [|discriminate].
      apply (f_equal (@rev (list Z))) in Er. rewrite rev_involutive in Er.
      rewrite Er in H. discriminate.
  - destruct (Py.last_item (tok_indices s)) as [cur|] eqn:El; [|discriminate].
    destruct (last_item_inv _ _ El) as (before & Eb).
    cbn [bind] in H. destruct (0 <? length cur)%nat.
    + rewrite Eb, update_last_snoc in H. cbn [bind] in H. injection H as <-.
      split; [|reflexivity]. cbn [tok_indices with_tok].
      rewrite Eb, !length_app. simpl. lia.
    + injection H as <-. split; [lia|reflexivity].
Qed.

(** [reset] keeps the layers in step with the open buffer. *)
Lemma reset_balanced (b h f : nat) (s s' : state)
    (add_segment keep_last_token : bool) :
  balanced b h f s ->
  reset s add_segment keep_last_token = Ok s' ->
  balanced b h f s'.
Proof.
  intros (before & cur & Eb & Hl) H. unfold reset in H.
  rewrite Eb, last_item_snoc in H.
  assert (Empty : Forall (fun layer : list tensor =>
                            (length layer + 0)%nat = length (@nil Z)
                            /\ Forall (one_row b h f) layer)
                    (map (fun _ => []) (tok_attweights s))).
  { apply Forall_map, Forall_forall. intros layer _. split; [reflexivity|].
    constructor. }
  destruct add_segment.
  - destruct keep_last_token.
    + cbn [bind] in H. destruct (Py.last_item cur) as [t|] eqn:Et;
        [|discriminate].
      cbn [bind] in H. rewrite <- app_assoc in H.
      destruct (update_before_last pop_front _) as [ti|] eqn:Eu;
        [|discriminate].
      cbn [bind] in H. injection H as <-.
      apply update_before_last_snoc in Eu. subst ti.
      exists (before ++ [tl cur]), [t]. split.
      * cbn [tok_indices with_tok]. rewrite <- app_assoc. reflexivity.
      * cbn [tok_attweights with_tok]. apply Forall_map.
        eapply Forall_impl; [|exact Hl]. intros layer [L1 L2]. cbv beta.
        destruct (last_item_inv _ _ Et) as (cur0 & ->).
        destruct (last_as_list_cases layer) as [[-> _]|(l0 & x & -> & ->)].
        -- exfalso. rewrite length_app in L1. simpl in L1. lia.
        -- split; [reflexivity|]. rewrite Forall_app in L2.
           apply L2.
    + cbn [bind] in H. rewrite <- app_assoc in H.
      destruct (update_before_last pop_front _) as [ti|] eqn:Eu;
        [|discriminate].
      cbn [bind] in H. injection H as <-.
      apply update_before_last_snoc in Eu. subst ti.
      exists (before ++ [tl cur]), []. split.
      * cbn [tok_indices with_tok]. rewrite <- app_assoc. reflexivity.
      * exact Empty.
  - cbn [bind] in H. destruct (0 <? length cur)%nat.
    + rewrite update_last_snoc in H. cbn [bind] in H. injection H as <-.
      exists before, []. split; [reflexivity|exact Empty].
    + injection H as <-. exists before, cur. auto.
Qed.

Lemma same_window_refl (s : state) : same_window s s.
Proof. unfold same_window. auto 10. Qed.

Lemma same_window_trans (s1 s2 s3 : state) :
  same_window s1 s2 -> same_window s2 s3 -> same_window s1 s3.
Proof. unfold same_window. intuition congruence. Qed.

Lemma reset_same_window (s s' : state) (a k : bool) :
  reset s a k = Ok s' ->
  same_window s s'
  /\ saw_consecutive_timestamps s' = saw_consecutive_timestamps s
  /\ index_begin_30sec_chunck s' = index_begin_30sec_chunck s.
Proof.
  intro H. destruct (reset_frame _ _ _ _ H) as (ti & aw & ->).
  unfold same_window. simpl. auto 10.
Qed.

Section WithModel.

Variable alignment :
  tensor -> nat -> Q -> option nat -> result (list (Z * Z)).
Variable tokenizer : Tokenizer.
Variable use_space : bool.
Variable refine : Z.
Variable remove : bool.
Variable no_speech_threshold : option Q.
Variable logprob_threshold : option Q.

(** What [must_flush_segment] leaves alone. *)
Lemma must_flush_segment_effect (s s1 : state) (curr : option (list Z))
    (flush : bool) :
  must_flush_segment tokenizer s curr = Ok (s1, flush) ->
  same_window s s1
  /\ timestamped_word_segments s1 = timestamped_word_segments s
  /\ length (tok_indices s1) = length (tok_indices s)
  /\ index_begin_30sec_chunck s1 = index_begin_30sec_chunck s
  /\ (forall b h f, balanced b h f s -> balanced b h f s1)
  /\ length (tok_attweights s1) = length (tok_attweights s).
Proof.
  unfold must_flush_segment. intro H.
  assert (Prompt :
    (s0 <- (if negb (negb (saw_consecutive_timestamps s))
            then reset s false true else Ok s) ;;
     Ok (with_saw s0 false, negb (saw_consecutive_timestamps s)))
    = Ok (s1, flush) ->
    same_window s s1
    /\ timestamped_word_segments s1 = timestamped_word_segments s
    /\ length (tok_indices s1) = length (tok_indices s)
    /\ index_begin_30sec_chunck s1 = index_begin_30sec_chunck s
    /\ (forall b h f, balanced b h f s -> balanced b h f s1)
    /\ length (tok_attweights s1) = length (tok_attweights s)).
  { clear H. intro H. destruct (saw_consecutive_timestamps s); cbn [negb] in H.
    - destruct (reset s false true) as [s0|] eqn:Er; [|discriminate].
      cbn [bind] in H. injection H as <- <-.
      destruct (reset_same_window _ _ _ _ Er) as (W & _ & I).
      destruct (reset_length _ _ _ _ Er) as (L & T).
      split; [exact W|]. split; [exact T|].
      split; [cbn [tok_indices with_saw]; lia|]. split; [exact I|].
      split; [|exact (reset_layers _ _ _ _ Er)].
      intros b h f B. apply (reset_balanced b h f _ _ _ _ B) in Er.
      exact Er.
    - cbn [bind] in H. injection H as <- <-.
      split; [exact (same_window_refl s)|].
      split; [reflexivity|]. split; [reflexivity|]. split; [reflexivity|].
      split; [|reflexivity].
      intros b h f B. exact B. }
  destruct curr as [[|t [|u l]]|]; try (apply Prompt; exact H).
  destruct (Py.last_item (tok_indices s)) as [cur|]; [|discriminate].
  cbn [bind] in H. injection H as <- <-.
  destruct (_ && _); (split; [exact (same_window_refl s)|]);
    (split; [reflexivity|]); (split; [reflexivity|]);
    (split; [reflexivity|]); (split; [|reflexivity]);
    intros b h f B; exact B.
Qed.

(** What the silence filter and the counter reset leave alone. *)
Lemma filter_window_effect (s s' : state) (i_start : Z) :
  filter_window tokenizer no_speech_threshold logprob_threshold s i_start
  = Ok s' ->
  tok_attweights s' = tok_attweights s
  /\ (forall before cur, tok_indices s = before ++ [cur] ->
      exists before', tok_indices s' = before' ++ [cur])
  /\ has_started s' = has_started s
  /\ chunk_logprobs s' = [] /\ chunk_tokens_nosot s' = []
  /\ (no_speech_threshold = None ->
      tok_indices s' = tok_indices s
      /\ timestamped_word_segments s' = timestamped_word_segments s).
Proof.
  unfold filter_window. intro H.
  destruct no_speech_threshold as [threshold|].
  2:{ cbn [bind] in H. injection H as <-. simpl. eauto 10. }
  destruct (no_speech_prob s) as [p|]; [|discriminate]. cbn [bind] in H.
  match type of H with
  | bind (bind ?c _) _ = _ => destruct c as [[should_skip avg]|]
  end; [|discriminate].
  cbn [bind] in H. destruct should_skip.
  - destruct avg as [avg|]; [|discriminate].
    destruct (Py.last_item (tok_indices s)) as [cur|] eqn:El; [|discriminate].
    cbn [bind] in H. injection H as <-. simpl.
    split; [reflexivity|]. split; [|split; [reflexivity|]].
    + intros before cur' E. rewrite E, last_item_snoc in El.
      injection El as <-. eauto.
    + split; [reflexivity|]. split; [reflexivity|]. discriminate.
  - cbn [bind] in H. injection H as <-. simpl.
    split; [reflexivity|]. split; [eauto|]. split; [reflexivity|].
    split; [reflexivity|]. split; [reflexivity|]. discriminate.
Qed.

(** What a call of [may_flush_segment] that returns does to the state. *)
Lemma may_flush_segment_effect (fuel : nat) (s s' : state)
    (curr : option (list Z)) :
  may_flush_segment alignment tokenizer use_space refine remove
    no_speech_threshold logprob_threshold fuel s curr = Some (Ok s') ->
  (forall b h f, balanced b h f s -> balanced b h f s')
  /\ has_started s' = has_started s
  /\ (if is_prompt curr && has_started s
      then chunk_logprobs s' = [] /\ chunk_tokens_nosot s' = []
      else chunk_logprobs s' = chunk_logprobs s
           /\ chunk_tokens_nosot s' = chunk_tokens_nosot s)
  /\ (no_speech_threshold = None -> one_open s -> one_open s')
  /\ length (tok_attweights s') = length (tok_attweights s).
Proof.
  unfold may_flush_segment. intro H.
  destruct (must_flush_segment tokenizer s curr) as [[s1 flush]|] eqn:Em;
    [|discriminate].
  destruct (must_flush_segment_effect _ _ _ _ Em)
    as (W1 & T1 & L1 & _ & B1 & N1).
  (* the flush *)
  assert (Flushed : exists s2,
             (if flush then
                match (cur <- Py.last_item (tok_indices s1) ;;
                       aw <- Py.map_result
                               (fun w => Torch.cat_query (Py.but_last w))
                               (tok_attweights s1) ;;
                       Ok (cur, aw)) with
                | Raise e => Some (Raise e)
                | Ok (cur, aw) =>
                    match Aligner.perform_word_alignment alignment tokenizer
                            fuel (tl cur) (map Aligner.ATensor aw) use_space
                            refine true 9 1 None remove with
                    | None => None
                    | Some (Raise e) => Some (Raise e)
                    | Some (Ok ws) =>
                        Some (reset
                                (if (0 <? length ws)%nat
                                 then with_segments s1
                                        (timestamped_word_segments s1 ++ [ws])
                                 else s1)
                                (0 <? length ws)%nat
                                match curr with
                                | Some l => (length l =? 1)%nat
                                | None => false
                                end)
                    end
                end
              else Some (Ok s1)) = Some (Ok s2)
             /\ same_window s1 s2
             /\ (forall b h f, balanced b h f s1 -> balanced b h f s2)
             /\ (one_open s1 -> one_open s2)
             /\ length (tok_attweights s2) = length (tok_attweights s1)).
  { match type of H with
    | match ?c with _ => _ end = _ => destruct c as [[s2|]|] eqn:Ef
    end; try discriminate.
    exists s2. split; [reflexivity|].
    destruct flush.
    - match type of Ef with
      | match ?c with _ => _ end = _ => destruct c as [[cur aw]|]
      end; [|discriminate].
      destruct (Aligner.perform_word_alignment _ _ _ _ _ _ _ _ _ _ _ _)
        as [[ws|]|]; try discriminate.
      injection Ef as Ef.
      destruct (reset_same_window _ _ _ _ Ef) as (W & _ & _).
      destruct (reset_length _ _ _ _ Ef) as (L & T).
      assert (N := reset_layers _ _ _ _ Ef).
      destruct (0 <? length ws)%nat.
      + split; [exact W|]. split; [|split; [|exact N]].
        * intros b h f B.
          assert (B' : balanced b h f
                         (with_segments s1
                            (timestamped_word_segments s1 ++ [ws])))
            by exact B.
          apply (reset_balanced b h f _ _ _ _ B' Ef).
        * unfold one_open. intro O. rewrite L, T.
          cbn [tok_indices timestamped_word_segments with_segments].
          rewrite length_app. simpl. lia.
      + split; [exact W|]. split; [|split; [|exact N]].
        * intros b h f B. apply (reset_balanced b h f _ _ _ _ B Ef).
        * unfold one_open. intro O. rewrite L, T. lia.
    - injection Ef as <-. split; [apply same_window_refl|]. auto. }
  destruct Flushed as (s2 & Ef & W2 & B2 & O2 & N2).
  cbv zeta in H. rewrite Ef in H.
  assert (W : same_window s s2) by (apply (same_window_trans _ _ _ W1 W2)).
  assert (O1 : one_open s -> one_open s1).
  { unfold one_open. rewrite L1, T1. auto. }
  unfold get_index_begin_30sec_chunck in H.
  change (match curr with
          | Some l => (1 <? length l)%nat
          | None => true
          end) with (is_prompt curr) in H.
  destruct W as (_ & _ & W3 & _ & W5 & W6).
  destruct (is_prompt curr); cbn [andb].
  - replace (has_started (with_index_begin s2
               (Z.of_nat (length (tok_indices s2)) - 1)))
      with (has_started s2) in H by reflexivity.
    rewrite <- W6.
    destruct (has_started s2) eqn:Eh.
    + injection H as H.
      destruct (filter_window_effect _ _ _ H) as (F1 & F2 & F3 & F4 & F5 & F6).
      split; [|split; [|split; [|split]]].
      * intros b h f B. apply B1, B2 in B.
        destruct B as (before & cur & Eb & Hl).
        destruct (F2 before cur Eb) as (before' & Eb').
        exists before', cur. split; [exact Eb'|]. rewrite F1. exact Hl.
      * rewrite F3. exact Eh.
      * auto.
      * intros N O. destruct (F6 N) as (F7 & F8).
        unfold one_open. rewrite F7, F8. apply O2, O1, O.
      * rewrite F1. cbn [tok_attweights with_index_begin]. congruence.
    + injection H as <-.
      split; [intros b h f B; exact (B2 _ _ _ (B1 _ _ _ B))|].
      split; [exact Eh|]. split; [split; assumption|].
      split; [intros _ O; exact (O2 (O1 O))|].
      cbn [tok_attweights with_index_begin]. congruence.
  - injection H as <-.
    split; [intros b h f B; exact (B2 _ _ _ (B1 _ _ _ B))|].
    split; [exact W6|]. split; [split; assumption|].
    split; [intros _ O; exact (O2 (O1 O))|]. congruence.
Qed.

(** What a call of [hook_input_tokens] that returns does. *)
Lemma hook_input_tokens_effect (fuel : nat) (s s' : state) (curr : list Z) :
  hook_input_tokens alignment tokenizer use_space refine remove
    no_speech_threshold logprob_threshold fuel s curr = Some (Ok s') ->
  exists s1 t,
    may_flush_segment alignment tokenizer use_space refine remove
      no_speech_threshold logprob_threshold fuel s (Some curr) = Some (Ok s1)
    /\ Py.last_item curr = Ok t
    /\ tok_attweights s' = tok_attweights s1
    /\ timestamped_word_segments s' = timestamped_word_segments s1
    /\ saw_consecutive_timestamps s' = saw_consecutive_timestamps s1
    /\ (forall before cur,
          tok_indices s1 = before ++ [cur] ->
          tok_indices s' = before ++ [cur ++ [t]])
    /\ length (tok_indices s') = length (tok_indices s1)
    /\ has_started s' = has_started s1 || (1 <? length curr)%nat
    /\ chunk_logprobs s' = chunk_logprobs s1
    /\ chunk_tokens_nosot s'
       = if (has_started s1 || (1 <? length curr)%nat)
            && (length curr =? 1)%nat
         then chunk_tokens_nosot s1 ++ [t] else chunk_tokens_nosot s1.
Proof.
  unfold hook_input_tokens. intro H.
  destruct (may_flush_segment _ _ _ _ _ _ _ _ _ _) as [[s1|]|];
    try discriminate.
  injection H as H. cbn [bind] in H.
  destruct (Py.last_item curr) as [t|]; [|discriminate]. cbn [bind] in H.
  destruct (Py.update_last (fun cur => cur ++ [t]) (tok_indices s1))
    as [ti|] eqn:Eu; [|discriminate].
  cbn [bind] in H.
  match type of H with
  | bind ?c _ = _ => destruct c as [sot_idx|]; [|discriminate]
  end.
  cbn [bind] in H. injection H as <-.
  exists s1, t. cbn.
  split; [reflexivity|]. split; [reflexivity|]. split; [reflexivity|].
  split; [reflexivity|]. split; [reflexivity|]. split; [|split].
  - intros before cur E. rewrite E, update_last_snoc in Eu.
    injection Eu as <-. reflexivity.
  - destruct (tok_indices s1) as [|x l] eqn:E; [discriminate|].
    destruct (PyFacts.update_last_ok (fun cur => cur ++ [t]) (x :: l))
      as (l' & E' & L'); [discriminate|].
    rewrite E' in Eu. injection Eu as <-. exact L'.
  - auto.
Qed.

(** The cross-attention hooks of one decoder call add one tensor to
    every layer and touch nothing else. *)
Lemma attention_events_run (fuel : nat) (ws : list tensor)
    (done todo : list (list tensor)) (s s' : state) :
  tok_attweights s = done ++ todo ->
  length todo = length ws ->
  Decoding.run alignment tokenizer use_space refine remove
    no_speech_threshold logprob_threshold fuel s
    (attention_events (length done) ws) = Some (Ok s') ->
  s' = with_tok s (tok_indices s)
         (done ++ map (fun '(layer, w) =>
                         layer ++ [if (1 <? n_query w)%nat
                                   then Torch.last_query w else w])
                    (combine todo ws)).
Proof.
  revert done todo s. induction ws as [|w ws IH]; intros done todo s E L H.
  - destruct todo; [|discriminate]. simpl in H. injection H as <-.
    simpl. rewrite <- E. destruct s; reflexivity.
  - destruct todo as [|layer todo]; [discriminate|].
    unfold attention_events in H. cbn [length seq combine map] in H.
    cbn [Decoding.run Decoding.step] in H.
    unfold hook_attention_weights in H. rewrite E in H.
    rewrite nth_error_app2 in H by lia. rewrite Nat.sub_diag in H.
    cbn [nth_error] in H.
    rewrite firstn_app, Nat.sub_diag, firstn_all, firstn_O, app_nil_r in H.
    replace (skipn (S (length done)) (done ++ layer :: todo)) with todo in H.
    2:{ rewrite skipn_app, skipn_all2 by lia.
        replace (S (length done) - length done)%nat with 1%nat by lia.
        reflexivity. }
    replace (S (length done))
      with (length (done ++ [layer ++ [if (1 <? n_query w)%nat
                                       then Torch.last_query w else w]]))
      in H by (rewrite length_app; simpl; lia).
    apply (IH _ todo) in H.
    + rewrite H. cbn [with_tok tok_indices timestamped_word_segments
                        sot_index no_speech_prob chunk_logprobs chunk_tokens
                        chunk_tokens_nosot has_started
                        saw_consecutive_timestamps index_begin_30sec_chunck
                        combine map].
      rewrite <- app_assoc. reflexivity.
    + cbn [tok_attweights with_tok]. rewrite <- app_assoc. reflexivity.
    + simpl in L. lia.
Qed.

Lemma run_app (fuel : nat) (s : state) (l1 l2 : list Decoding.event) :
  Decoding.run alignment tokenizer use_space refine remove
    no_speech_threshold logprob_threshold fuel s (l1 ++ l2)
  = match Decoding.run alignment tokenizer use_space refine remove
            no_speech_threshold logprob_threshold fuel s l1 with
    | Some (Ok s1) =>
        Decoding.run alignment tokenizer use_space refine remove
          no_speech_threshold logprob_threshold fuel s1 l2
    | other => other
    end.
Proof.
  revert s. induction l1 as [|e l1 IH]; intro s; [reflexivity|].
  cbn [app Decoding.run].
  destruct (Decoding.step _ _ _ _ _ _ _ _ s e) as [[s1|]|]; auto.
Qed.

(** One decoder call, hook by hook. *)
Lemma decoder_call_run (fuel : nat) (s s' : state) (curr : list Z)
    (ws : list tensor) (p : Q) (lp : logprob_vector) :
  length ws = length (tok_attweights s) ->
  Decoding.run alignment tokenizer use_space refine remove
    no_speech_threshold logprob_threshold fuel s (decoder_call curr ws p lp)
  = Some (Ok s') ->
  exists s1,
    hook_input_tokens alignment tokenizer use_space refine remove
      no_speech_threshold logprob_threshold fuel s curr = Some (Ok s1)
    /\ s' = hook_output_logits no_speech_threshold
              (with_tok s1 (tok_indices s1)
                 (map (fun '(layer, w) =>
                         layer ++ [if (1 <? n_query w)%nat
                                   then Torch.last_query w else w])
                    (combine (tok_attweights s1) ws)))
              p lp.
Proof.
  intros L H. unfold decoder_call in H. cbn [Decoding.run Decoding.step] in H.
  destruct (hook_input_tokens _ _ _ _ _ _ _ fuel s curr) as [[s1|]|] eqn:Eh;
    try discriminate.
  exists s1. split; [reflexivity|].
  rewrite run_app in H.
  destruct (Decoding.run _ _ _ _ _ _ _ fuel s1 (attention_events 0 ws))
    as [[s2|]|] eqn:Ea; try discriminate.
  destruct (hook_input_tokens_effect _ _ _ _ Eh)
    as (s0 & t & Em & _ & A & _).
  destruct (may_flush_segment_effect _ _ _ _ Em) as (_ & _ & _ & _ & N).
  apply (attention_events_run fuel ws [] (tok_attweights s1)) in Ea;
    [|reflexivity|congruence].
  cbn [Decoding.run Decoding.step] in H. injection H as <-.
  rewrite Ea. reflexivity.
Qed.

End WithModel.

Lemma snoc_layers_balanced (b h f n : nat) (layers : list (list tensor))
    (ws : list tensor) :
  Forall (fun layer => (length layer + 1)%nat = n
                       /\ Forall (one_row b h f) layer) layers ->
  Forall (fun w => n_batch w = b /\ n_head w = h /\ (1 <= n_query w)%nat
                   /\ n_frame w = f) ws ->
  Forall (fun layer => (length layer + 0)%nat = n
                       /\ Forall (one_row b h f) layer)
    (map (fun '(layer, w) =>
            layer ++ [if (1 <? n_query w)%nat then Torch.last_query w else w])
       (combine layers ws)).
Proof.
  intro HL. revert ws. induction HL as [|layer layers [L1 L2] _ IH];
    intros ws HW; [constructor|].
  destruct HW as [|w ws (W1 & W2 & W3 & W4) HW]; [constructor|].
  cbn [combine map]. constructor; [|apply IH, HW].
  split; [rewrite length_app; simpl; lia|].
  apply Forall_app. split; [exact L2|]. constructor; [|constructor].
  unfold one_row. destruct (1 <? n_query w)%nat eqn:E.
  - apply Nat.ltb_lt in E. unfold Torch.last_query.
    cbn [n_batch n_head n_query n_frame]. repeat split; auto. lia.
  - apply Nat.ltb_ge in E. repeat split; auto. lia.
Qed.

Lemma last_rev_head (l : list Z) (d : Z) :
  match rev l with [] => d | x :: _ => x end = last l d.
Proof.
  destruct (rev l) as [|x r] eqn:E;
    apply (f_equal (@rev Z)) in E; rewrite rev_involutive in E; subst l.
  - reflexivity.
  - simpl. rewrite last_last. reflexivity.
Qed.

Lemma last_item_last (x : Z) (l : list Z) :
  Py.last_item (x :: l) = Ok (last (x :: l) 0%Z).
Proof.
  unfold Py.last_item. rewrite <- (last_rev_head (x :: l) 0%Z).
  destruct (rev (x :: l)) eqn:E; [|reflexivity].
  apply (f_equal (@length Z)) in E. rewrite length_rev in E. discriminate.
Qed.

(** Concatenating one-row tensors of the same other dimensions gives
    as many rows as there are tensors. *)
Lemma cat_query_rows (b h f : nat) (rest : list tensor) (acc : tensor) :
  n_batch acc = b -> n_head acc = h -> n_frame acc = f ->
  Forall (one_row b h f) rest ->
  exists t,
    fold_left (fun acc x => a <- acc ;; Torch.cat2_query a x) rest (Ok acc)
    = Ok t
    /\ n_query t = (n_query acc + length rest)%nat.
Proof.
  revert acc. induction rest as [|x rest IH]; intros acc Hb Hh Hf HF.
  - exists acc. split; [reflexivity|]. simpl. lia.
  - inversion HF as [|? ? (X1 & X2 & X3 & X4) HF']; subst.
    cbn [fold_left bind]. unfold Torch.cat2_query.
    rewrite X1, X2, X4, !Nat.eqb_refl. cbn [andb].
    match goal with
    | |- context [fold_left _ rest (Ok ?a)] =>
        destruct (IH a eq_refl eq_refl eq_refl HF') as (t & E & Q)
    end.
    exists t. split; [exact E|]. rewrite Q. cbn [n_query]. rewrite X3.
    simpl. lia.
Qed.

(** Line 249 on a layer of two or more one-row tensors. *)
Lemma cat_but_last_rows (b h f : nat) (layer : list tensor) :
  (2 <= length layer)%nat -> Forall (one_row b h f) layer ->
  exists t,
    Torch.cat_query (Py.but_last layer) = Ok t
    /\ n_query t = (length layer - 1)%nat.
Proof.
  intros L HF.
  destruct (PyFacts.nonempty_snoc layer) as (l0 & y & ->).
  { destruct layer; [simpl in L; lia|discriminate]. }
  unfold Py.but_last. rewrite removelast_last.
  rewrite length_app in L |- *. simpl in L |- *.
  apply Forall_app in HF. destruct HF as [HF _].
  destruct l0 as [|x l0]; [simpl in L; lia|].
  inversion HF as [|? ? (X1 & X2 & X3 & X4) HF']; subst.
  destruct (cat_query_rows _ _ _ l0 x eq_refl eq_refl eq_refl HF')
    as (t & E & Q).
  exists t. split; [exact E|]. rewrite Q, X3. simpl. lia.
Qed.

End AccumulatorMore.

Section AccumulatorExtras.
Import Accumulator AccumulatorFacts AccumulatorMore.

Variable alignment :
  tensor -> nat -> Q -> option nat -> result (list (Z * Z)).
Variable tokenizer : Tokenizer.
Variable use_space : bool.
Variable refine : Z.
Variable remove : bool.

(** X16.  One call of the decoder keeps the attention weights in step
    with the tokens: if, before the call, every layer holds one
    one-row tensor per token of the open buffer, then so it does after
    the hooks of the call have run, whether the call closed a segment,
    emptied the buffer, dropped a silent window or only added a
    token. *)
Theorem decoder_call_keeps_balance
    (no_speech_threshold logprob_threshold : option Q) (fuel : nat)
    (s s' : state) (curr : list Z) (ws : list tensor) (p : Q)
    (lp : logprob_vector) (b h f : nat) :
  balanced b h f s ->
  length ws = length (tok_attweights s) ->
  Forall (fun w => n_batch w = b /\ n_head w = h /\ (1 <= n_query w)%nat
                   /\ n_frame w = f) ws ->
  Decoding.run alignment tokenizer use_space refine remove
    no_speech_threshold logprob_threshold fuel s (decoder_call curr ws p lp)
  = Some (Ok s') ->
  balanced b h f s'.
Proof.
  intros B L HW H.
  destruct (decoder_call_run _ _ _ _ _ _ _ _ _ _ _ _ _ _ L H)
    as (s1 & Eh & ->).
  destruct (hook_input_tokens_effect _ _ _ _ _ _ _ _ _ _ _ Eh)
    as (s0 & t & Em & _ & A & _ & _ & I & _).
  destruct (may_flush_segment_effect _ _ _ _ _ _ _ _ _ _ _ Em)
    as (B0 & _).
  destruct (B0 b h f B) as (before & cur & Eb & HL).
  assert (G : balanced b h f
                (with_tok s1 (tok_indices s1)
                   (map (fun '(layer, w) =>
                           layer ++ [if (1 <? n_query w)%nat
                                     then Torch.last_query w else w])
                      (combine (tok_attweights s1) ws)))).
  { exists before, (cur ++ [t]). split; [exact (I before cur Eb)|].
    cbn [tok_attweights with_tok]. rewrite A.
    apply snoc_layers_balanced; [|exact HW].
    eapply Forall_impl; [|exact HL]. intros layer [L1 L2]. cbv beta.
    split; [rewrite length_app; simpl; lia|exact L2]. }
  unfold hook_output_logits. destruct no_speech_threshold; exact G.
Qed.

(** X17.  In a state where every layer holds one one-row tensor per
    token of the open buffer, and the buffer holds two tokens or more,
    the arguments [may_flush_segment] builds for
    [perform_word_alignment] on lines 248-249 agree: the concatenation
    succeeds for every layer and gives as many query rows as there are
    tokens, so that the shape assertion of lines 483-484 holds. *)
Theorem flush_weights_match_tokens (s : state) (before : list (list Z))
    (cur : list Z) (b h f : nat) :
  balanced b h f s ->
  tok_indices s = before ++ [cur] ->
  (2 <= length cur)%nat ->
  exists aw,
    Py.map_result (fun w => Torch.cat_query (Py.but_last w))
      (tok_attweights s) = Ok aw
    /\ length aw = length (tok_attweights s)
    /\ Aligner.check_shapes (length (tl cur)) (map Aligner.ATensor aw)
       = Ok tt.
Proof.
  intros (before' & cur' & Eb & HL) E L.
  rewrite E in Eb. apply app_inj_tail in Eb. destruct Eb as [_ <-].
  assert (G : exists aw,
             Py.map_result (fun w => Torch.cat_query (Py.but_last w))
               (tok_attweights s) = Ok aw
             /\ length aw = length (tok_attweights s)
             /\ Forall (fun t => n_query t = length (tl cur)) aw).
  { induction HL as [|layer layers [L1 L2] _ IH].
    - exists []. split; [reflexivity|]. split; [reflexivity|constructor].
    - destruct IH as (aw & E1 & E2 & E3).
      destruct (cat_but_last_rows b h f layer) as (t & Et & Q);
        [lia|exact L2|].
      exists (t :: aw). cbn [Py.map_result]. rewrite Et, E1. cbn [bind].
      split; [reflexivity|]. split; [simpl; lia|].
      constructor; [|exact E3]. rewrite Q.
      destruct cur; simpl in *; lia. }
  destruct G as (aw & E1 & E2 & E3).
  exists aw. split; [exact E1|]. split; [exact E2|].
  apply AlignerFacts.check_shapes_tensors. apply Forall_map.
  eapply Forall_impl; [|exact E3]. intros t Q. cbv beta. eauto.
Qed.

(** X18.  When a segment has to be closed (a prompt or the final call,
    with [saw_consecutive_timestamps] unset) and the first layer holds
    at most one tensor, [may_flush_segment] raises the exception that
    [torch.cat] raises on an empty list, whichever class it has; the
    alignment is not called, whatever it is and whatever recursion
    depth is allowed. *)
Theorem may_flush_segment_short_buffer_raises
    (no_speech_threshold logprob_threshold : option Q) (fuel : nat)
    (s : state) (curr : option (list Z)) (before : list (list Z))
    (cur : list Z) (layer : list tensor) (layers : list (list tensor)) :
  is_prompt curr = true ->
  saw_consecutive_timestamps s = false ->
  tok_indices s = before ++ [cur] ->
  tok_attweights s = layer :: layers ->
  (length layer <= 1)%nat ->
  exists e,
    Torch.cat_query [] = Raise e
    /\ may_flush_segment alignment tokenizer use_space refine remove
         no_speech_threshold logprob_threshold fuel s curr
       = Some (Raise e).
Proof.
  intros P Hs E A L.
  destruct (Torch.cat_query []) as [t|e] eqn:Ec; [discriminate Ec|].
  exists e. split; [reflexivity|]. unfold may_flush_segment.
  assert (M : must_flush_segment tokenizer s curr
              = Ok (with_saw s false, true)).
  { unfold must_flush_segment.
    destruct curr as [[|t [|u l]]|]; try discriminate P;
      rewrite Hs; reflexivity. }
  rewrite M. cbv zeta. cbn [tok_indices tok_attweights with_saw].
  rewrite E, last_item_snoc, A. cbn [bind Py.map_result].
  assert (C : Py.but_last layer = []).
  { destruct layer as [|x [|y layer]]; [reflexivity|reflexivity|].
    simpl in L. lia. }
  rewrite C, Ec. reflexivity.
Qed.

(** X19.  With a no-speech threshold, one call of the decoder keeps
    the window statistics in step: once decoding has started there is
    one vector of log-probabilities more than tokens decoded since the
    prompt, so that the length assertion of line 277 holds whenever
    the silence filter computes the average log-probability. *)
Theorem decoder_call_keeps_count (threshold : Q)
    (logprob_threshold : option Q) (fuel : nat) (s s' : state)
    (curr : list Z) (ws : list tensor) (p : Q) (lp : logprob_vector) :
  counted s ->
  length ws = length (tok_attweights s) ->
  Decoding.run alignment tokenizer use_space refine remove
    (Some threshold) logprob_threshold fuel s (decoder_call curr ws p lp)
  = Some (Ok s') ->
  counted s'
  /\ (has_started s' = true ->
      (length (chunk_logprobs s')
       =? length (chunk_tokens_nosot s' ++ [eot tokenizer]))%nat = true).
Proof.
  intros C L H.
  destruct (decoder_call_run _ _ _ _ _ _ _ _ _ _ _ _ _ _ L H)
    as (s1 & Eh & ->).
  destruct (hook_input_tokens_effect _ _ _ _ _ _ _ _ _ _ _ Eh)
    as (s0 & t & Em & Et & _ & _ & _ & _ & _ & H1 & H2 & H3).
  destruct (may_flush_segment_effect _ _ _ _ _ _ _ _ _ _ _ Em)
    as (_ & M1 & M2 & _).
  assert (Hc : (1 <= length curr)%nat).
  { destruct curr; [discriminate Et|simpl; lia]. }
  assert (G : counted
                (hook_output_logits (Some threshold)
                   (with_tok s1 (tok_indices s1)
                      (map (fun '(layer, w) =>
                              layer ++ [if (1 <? n_query w)%nat
                                        then Torch.last_query w else w])
                         (combine (tok_attweights s1) ws))) p lp)).
  { unfold counted in *.
    cbn [hook_output_logits has_started chunk_logprobs chunk_tokens_nosot
           with_tok].
    rewrite H1, H2, H3, M1. cbn [is_prompt] in M2.
    destruct (has_started s) eqn:Es; cbn [orb andb] in *.
    - destruct (1 <? length curr)%nat eqn:Ep.
      + destruct M2 as [-> ->].
        assert (E1 : (length curr =? 1)%nat = false).
        { apply Nat.ltb_lt in Ep. apply Nat.eqb_neq. lia. }
        rewrite E1. reflexivity.
      + destruct M2 as [-> ->].
        assert (E1 : (length curr =? 1)%nat = true).
        { apply Nat.ltb_ge in Ep. apply Nat.eqb_eq. lia. }
        rewrite E1, !length_app. simpl. lia.
    - rewrite andb_false_r in M2.
      destruct M2 as [-> ->]. destruct C as [-> ->].
      destruct (1 <? length curr)%nat eqn:Ep; cbn [andb].
      + assert (E1 : (length curr =? 1)%nat = false).
        { apply Nat.ltb_lt in Ep. apply Nat.eqb_neq. lia. }
        rewrite E1. reflexivity.
      + auto. }
  match type of G with
  | counted ?st => generalize dependent st
  end.
  intros st _ G. split; [exact G|].
  intro Hst. unfold counted in G. rewrite Hst in G.
  apply Nat.eqb_eq. rewrite length_app, G. simpl. lia.
Qed.

(** X20.  Without a no-speech threshold, whatever the hooks receive,
    the state always holds one token list more than word lists, the
    open buffer: after [tok_indices.pop(-1)] on line 393 there are as
    many token lists as word lists, and the assertion of line 404
    holds. *)
Theorem run_keeps_one_buffer_open (logprob_threshold : option Q)
    (fuel n_layers : nat) (events : list Decoding.event) (s : state) :
  Decoding.run alignment tokenizer use_space refine remove None
    logprob_threshold fuel (initial n_layers) events = Some (Ok s) ->
  length (Py.but_last (tok_indices s))
  = length (timestamped_word_segments s).
Proof.
  assert (G : forall events s0 s1,
             one_open s0 ->
             Decoding.run alignment tokenizer use_space refine remove None
               logprob_threshold fuel s0 events = Some (Ok s1) ->
             one_open s1).
  { clear. induction events as [|e events IH]; intros s0 s1 O H.
    - simpl in H. injection H as <-. exact O.
    - cbn [Decoding.run] in H.
      destruct (Decoding.step _ _ _ _ _ _ _ _ s0 e) as [[s2|]|] eqn:Es;
        try discriminate.
      apply (IH s2 s1); [|exact H]. clear IH H.
      destruct e as [curr|index w|p lp|]; cbn [Decoding.step] in Es.
      + destruct (hook_input_tokens_effect _ _ _ _ _ _ _ _ _ _ _ Es)
          as (s3 & t & Em & _ & _ & T & _ & _ & Ln & _).
        destruct (may_flush_segment_effect _ _ _ _ _ _ _ _ _ _ _ Em)
          as (_ & _ & _ & M & _).
        unfold one_open in *. rewrite Ln, T. apply (M eq_refl O).
      + injection Es as Es. unfold hook_attention_weights in Es.
        destruct (nth_error (tok_attweights s0) index); [|discriminate].
        injection Es as <-. exact O.
      + injection Es as <-. exact O.
      + destruct (may_flush_segment_effect _ _ _ _ _ _ _ _ _ _ _ Es)
          as (_ & _ & _ & M & _).
        apply (M eq_refl O). }
  intro H. apply (G events (initial n_layers) s eq_refl) in H.
  unfold one_open in H.
  unfold Py.but_last. rewrite removelast_firstn_len, length_firstn. lia.
Qed.

(** X21.  A single new token that does not complete a pair of
    consecutive timestamps is only appended to the open buffer: no
    segment is closed, the alignment is not run, and the word lists,
    the attention weights and the flag are untouched. *)
Theorem hook_input_tokens_appends
    (no_speech_threshold logprob_threshold : option Q) (fuel : nat)
    (s : state) (t : Z) (before : list (list Z)) (cur : list Z) :
  tok_indices s = before ++ [cur] ->
  (t < timestamp_begin tokenizer)%Z
  \/ (last cur 0 < timestamp_begin tokenizer)%Z ->
  exists s',
    hook_input_tokens alignment tokenizer use_space refine remove
      no_speech_threshold logprob_threshold fuel s [t] = Some (Ok s')
    /\ tok_indices s' = before ++ [cur ++ [t]]
    /\ timestamped_word_segments s' = timestamped_word_segments s
    /\ tok_attweights s' = tok_attweights s
    /\ saw_consecutive_timestamps s' = saw_consecutive_timestamps s.
Proof.
  intros E Hc. unfold hook_input_tokens, may_flush_segment.
  assert (M : must_flush_segment tokenizer s (Some [t]) = Ok (s, false)).
  { unfold must_flush_segment. rewrite E, last_item_snoc. cbn [bind].
    rewrite last_rev_head.
    assert (F : ((timestamp_begin tokenizer <=? t)%Z
                 && (timestamp_begin tokenizer <=? last cur 0)%Z) = false).
    { apply andb_false_iff. destruct Hc as [Hc|Hc]; [left|right];
        apply Z.leb_gt; exact Hc. }
    rewrite F. reflexivity. }
  rewrite M. cbv zeta. cbn [get_index_begin_30sec_chunck length Nat.ltb
                              Nat.leb bind Py.last_item rev app].
  rewrite E, update_last_snoc. cbn [bind].
  eexists. split; [reflexivity|]. cbn. auto.
Qed.

(** X22.  A single timestamp token that follows a timestamp closes
    the segment in progress: the buffered tokens without their first
    one are aligned.  When words come back they become a new word list,
    the aligned tokens are kept as the tokens of the segment, and the
    new buffer starts with the closing timestamp, followed by the new
    token, every layer keeping its last tensor only.  When no word
    comes back, nothing is recorded and the buffer restarts with the
    new token alone. *)
Theorem hook_input_tokens_closes_segment
    (no_speech_threshold logprob_threshold : option Q) (fuel : nat)
    (s : state) (t : Z) (before : list (list Z)) (first : Z)
    (rest : list Z) (aw : list tensor) (ws : list word) :
  tok_indices s = before ++ [first :: rest] ->
  (timestamp_begin tokenizer <= t)%Z ->
  (timestamp_begin tokenizer <= last (first :: rest) 0)%Z ->
  Py.map_result (fun w => Torch.cat_query (Py.but_last w)) (tok_attweights s)
  = Ok aw ->
  Aligner.perform_word_alignment alignment tokenizer fuel rest
    (map Aligner.ATensor aw) use_space refine true 9 1 None remove
  = Some (Ok ws) ->
  exists s',
    hook_input_tokens alignment tokenizer use_space refine remove
      no_speech_threshold logprob_threshold fuel s [t] = Some (Ok s')
    /\ saw_consecutive_timestamps s' = true
    /\ match ws with
       | [] =>
           timestamped_word_segments s' = timestamped_word_segments s
           /\ tok_indices s' = before ++ [[t]]
           /\ tok_attweights s' = map (fun _ => []) (tok_attweights s)
       | _ :: _ =>
           timestamped_word_segments s' = timestamped_word_segments s ++ [ws]
           /\ tok_indices s'
              = before ++ [rest; [last (first :: rest) 0%Z; t]]
           /\ tok_attweights s' = map Py.last_as_list (tok_attweights s)
       end.
Proof.
  intros E Ht Hl Hcat Hal. unfold hook_input_tokens, may_flush_segment.
  assert (M : must_flush_segment tokenizer s (Some [t])
              = Ok (with_saw s true, true)).
  { unfold must_flush_segment. rewrite E, last_item_snoc. cbn [bind].
    rewrite last_rev_head.
    assert (F : ((timestamp_begin tokenizer <=? t)%Z
                 && (timestamp_begin tokenizer
                     <=? last (first :: rest) 0)%Z) = true).
    { apply andb_true_iff. split; apply Z.leb_le; assumption. }
    rewrite F. reflexivity. }
  rewrite M. cbv zeta. cbn [tok_indices tok_attweights with_saw].
  rewrite E, last_item_snoc, Hcat. cbn [bind tl]. rewrite Hal.
  cbn [length Nat.eqb].
  destruct ws as [|w ws].
  - cbn [length Nat.ltb Nat.leb]. unfold reset.
    cbn [tok_indices tok_attweights with_saw].
    rewrite E, last_item_snoc. cbn [bind length Nat.ltb Nat.leb].
    rewrite update_last_snoc. cbn [bind].
    cbn [get_index_begin_30sec_chunck length Nat.ltb Nat.leb].
    cbn [tok_indices with_tok Py.last_item rev app bind].
    rewrite update_last_snoc. cbn [bind].
    eexists. split; [reflexivity|]. cbn. auto.
  - cbn [length Nat.ltb Nat.leb]. unfold reset.
    cbn [tok_indices tok_attweights with_saw with_segments].
    rewrite E, last_item_snoc. cbn [bind].
    rewrite last_item_last. cbn [bind].
    rewrite <- app_assoc, update_before_last_pop. cbn [bind].
    cbn [get_index_begin_30sec_chunck length Nat.ltb Nat.leb].
    cbn [tok_indices with_tok Py.last_item rev app bind].
    replace (before ++ [rest; [last (first :: rest) 0%Z]])
      with ((before ++ [rest]) ++ [[last (first :: rest) 0%Z]])
      by (rewrite <- app_assoc; reflexivity).
    rewrite update_last_snoc. cbn [bind].
    eexists. split; [reflexivity|]. cbn.
    split; [reflexivity|]. split; [reflexivity|].
    split; [|reflexivity]. rewrite <- app_assoc. reflexivity.
Qed.

End AccumulatorExtras.

Lemma decoder_call_keeps_balance_witness :
  exists s',
    Decoding.run Toy.alignment Toy.tokenizer true 0 false None None 1
      (Accumulator.initial 1)
      (decoder_call Toy.prompt [Toy.uniform 6 3 1500] (9 # 10)
         Toy.flat_logprobs) = Some (Ok s')
    /\ balanced 1 6 1500 s'.
Proof.
  eexists. split; [vm_compute; reflexivity|].
  eapply (decoder_call_keeps_balance Toy.alignment Toy.tokenizer true 0 false
            None None 1 (Accumulator.initial 1) _ Toy.prompt
            [Toy.uniform 6 3 1500] (9 # 10) Toy.flat_logprobs 1 6 1500).
  - exists [], []. split; [reflexivity|]. repeat constructor.
  - reflexivity.
  - repeat constructor.
  - vm_compute. reflexivity.
Defined.

Lemma flush_weights_match_tokens_witness :
  exists aw,
    Py.map_result (fun w => Torch.cat_query (Py.but_last w))
      [[Toy.uniform 6 1 1500; Toy.uniform 6 1 1500; Toy.uniform 6 1 1500]]
    = Ok aw
    /\ length aw = 1%nat
    /\ Aligner.check_shapes 2 (map Aligner.ATensor aw) = Ok tt.
Proof.
  apply (flush_weights_match_tokens
           (Accumulator.mkState [] [[61; 100; 110]%Z]
              [[Toy.uniform 6 1 1500; Toy.uniform 6 1 1500;
                Toy.uniform 6 1 1500]]
              None None [] [] [] true false 0)
           [] [61; 100; 110]%Z 1 6 1500).
  - exists [], [61; 100; 110]%Z. split; [reflexivity|].
    constructor; [|constructor]. split; [reflexivity|].
    repeat constructor.
  - reflexivity.
  - simpl. lia.
Defined.

Lemma may_flush_segment_short_buffer_raises_witness :
  exists e,
    Torch.cat_query [] = Raise e
    /\ Accumulator.may_flush_segment Toy.alignment Toy.tokenizer true 0 false
         None None 0
         (Accumulator.mkState [] [[61%Z]] [[Toy.uniform 6 1 1500]]
            None None [] [] [] true false 0)
         None
       = Some (Raise e).
Proof.
  apply (may_flush_segment_short_buffer_raises Toy.alignment Toy.tokenizer
           true 0 false None None 0
           (Accumulator.mkState [] [[61%Z]] [[Toy.uniform 6 1 1500]]
              None None [] [] [] true false 0)
           None [] [61%Z] [Toy.uniform 6 1 1500] []).
  - reflexivity.
  - reflexivity.
  - reflexivity.
  - reflexivity.
  - simpl. lia.
Defined.

Lemma decoder_call_keeps_count_witness :
  exists s',
    Decoding.run Toy.alignment Toy.tokenizer true 0 false (Some (6 # 10))
      (Some (-1)) 1 (Accumulator.initial 1)
      (decoder_call Toy.prompt [Toy.uniform 6 3 1500] (9 # 10)
         Toy.flat_logprobs) = Some (Ok s')
    /\ counted s'
    /\ (Accumulator.has_started s' = true ->
        (length (Accumulator.chunk_logprobs s')
         =? length (Accumulator.chunk_tokens_nosot s'
                    ++ [eot Toy.tokenizer]))%nat = true).
Proof.
  eexists. split; [vm_compute; reflexivity|].
  eapply (decoder_call_keeps_count Toy.alignment Toy.tokenizer true 0 false
            (6 # 10) (Some (-1)) 1 (Accumulator.initial 1) _ Toy.prompt
            [Toy.uniform 6 3 1500] (9 # 10) Toy.flat_logprobs).
  - split; reflexivity.
  - reflexivity.
  - vm_compute. reflexivity.
Defined.

Lemma run_keeps_one_buffer_open_witness :
  exists s,
    Decoding.run Toy.alignment Toy.tokenizer true 0 false None None 1
      (Accumulator.initial 1)
      (Toy.run_single_timestamp ++ [Decoding.Finish]) = Some (Ok s)
    /\ length (Accumulator.timestamped_word_segments s) = 1%nat
    /\ length (Py.but_last (Accumulator.tok_indices s))
       = length (Accumulator.timestamped_word_segments s).
Proof.
  eexists. split; [vm_compute; reflexivity|]. split; [reflexivity|].
  eapply (run_keeps_one_buffer_open Toy.alignment Toy.tokenizer true 0 false
            None 1 1 (Toy.run_single_timestamp ++ [Decoding.Finish])).
  vm_compute. reflexivity.
Defined.

Lemma hook_input_tokens_appends_witness :
  exists s',
    Accumulator.hook_input_tokens Toy.alignment Toy.tokenizer true 0 false
      None None 0
      (Accumulator.mkState [] [[61; 100]%Z]
         [[Toy.uniform 6 1 1500; Toy.uniform 6 1 1500]]
         None None [] [] [] true false 0)
      [0%Z] = Some (Ok s')
    /\ Accumulator.tok_indices s' = [] ++ [[61; 100]%Z ++ [0%Z]]
    /\ Accumulator.timestamped_word_segments s' = []
    /\ Accumulator.tok_attweights s'
       = [[Toy.uniform 6 1 1500; Toy.uniform 6 1 1500]]
    /\ Accumulator.saw_consecutive_timestamps s' = false.
Proof.
  apply (hook_input_tokens_appends Toy.alignment Toy.tokenizer true 0 false
           None None 0
           (Accumulator.mkState [] [[61; 100]%Z]
              [[Toy.uniform 6 1 1500; Toy.uniform 6 1 1500]]
              None None [] [] [] true false 0)
           0 [] [61; 100]%Z).
  - reflexivity.
  - left. simpl. lia.
Defined.

Lemma hook_input_tokens_closes_segment_witness :
  exists s',
    Accumulator.hook_input_tokens Toy.alignment Toy.tokenizer true 0 false
      None None 1
      (Accumulator.mkState [] [[61; 100; 0; 1; 110]%Z]
         [repeat (Toy.uniform 6 1 1500) 5]
         None None [] [] [] true false 0)
      [110%Z] = Some (Ok s')
    /\ Accumulator.saw_consecutive_timestamps s' = true
    /\ length (Accumulator.timestamped_word_segments s') = 1%nat
    /\ Accumulator.tok_indices s'
       = [[100; 0; 1; 110]%Z; [110; 110]%Z].
Proof.
  assert (A : exists aw,
             Py.map_result (fun w => Torch.cat_query (Py.but_last w))
               [repeat (Toy.uniform 6 1 1500) 5] = Ok aw
             /\ exists w ws,
                 Aligner.perform_word_alignment Toy.alignment Toy.tokenizer 1
                   [100; 0; 1; 110]%Z (map Aligner.ATensor aw) true 0 true
                   9 1 None false = Some (Ok (w :: ws))).
  { eexists. split; [vm_compute; reflexivity|].
    do 2 eexists. vm_compute. reflexivity. }
  destruct A as (aw & Hcat & w & ws & Hal).
  destruct (hook_input_tokens_closes_segment Toy.alignment Toy.tokenizer
              true 0 false None None 1
              (Accumulator.mkState [] [[61; 100; 0; 1; 110]%Z]
                 [repeat (Toy.uniform 6 1 1500) 5]
                 None None [] [] [] true false 0)
              110 [] 61 [100; 0; 1; 110]%Z aw (w :: ws))
    as (s' & H1 & H2 & H3 & H4 & _).
  - reflexivity.
  - simpl. lia.
  - simpl. lia.
  - exact Hcat.
  - exact Hal.
  - exists s'. split; [exact H1|]. split; [exact H2|].
    split; [rewrite H3; reflexivity|exact H4].
Defined.

Module StripFacts.
Import Py PyFacts Segmenter SegmenterFacts.

Lemma lstrip_length (s : pystr) : (length (lstrip s) <= length s)%nat.
Proof.
  induction s as [|c s IH]; simpl; [lia|].
  destruct (isspace c); simpl; lia.
Qed.

Lemma lstrip_fixed (s : pystr) :
  lstrip s = s -> s = [] \/ exists c s', s = c :: s' /\ isspace c = false.
Proof.
  destruct s as [|c s]; [auto|]. simpl.
  destruct (isspace c) eqn:E; [|eauto].
  intro H. exfalso. assert (L := lstrip_length s). rewrite H in L.
  simpl in L. lia.
Qed.

Lemma lstrip_idem (s : pystr) : lstrip (lstrip s) = lstrip s.
Proof.
  induction s as [|c s IH]; [reflexivity|]. simpl.
  destruct (isspace c) eqn:E; [exact IH|]. simpl. rewrite E. reflexivity.
Qed.

Lemma rstrip_length (s : pystr) : (length (rstrip s) <= length s)%nat.
Proof.
  unfold rstrip. rewrite length_rev.
  assert (L := lstrip_length (rev s)). rewrite length_rev in L. exact L.
Qed.

Lemma rstrip_idem (s : pystr) : rstrip (rstrip s) = rstrip s.
Proof. unfold rstrip. rewrite rev_involutive, lstrip_idem. reflexivity. Qed.

Lemma lstrip_rstrip (u : pystr) :
  lstrip u = u -> lstrip (rstrip u) = rstrip u.
Proof.
  intro H. destruct (lstrip_fixed u H) as [->|(c & u' & -> & E)];
    [reflexivity|].
  rewrite (rstrip_cons_nonspace c u' E). apply lstrip_nonspace, E.
Qed.

(** [s.strip().strip() == s.strip()] *)
Lemma strip_idem (s : pystr) : strip (strip s) = strip s.
Proof.
  unfold strip. rewrite (lstrip_rstrip (lstrip s) (lstrip_idem s)).
  apply rstrip_idem.
Qed.

(** A stripped string is stripped on both sides. *)
Lemma strip_fixed (s : pystr) :
  strip s = s -> lstrip s = s /\ rstrip s = s.
Proof.
  intro H. unfold strip in H.
  assert (L1 := rstrip_length (lstrip s)). assert (L2 := lstrip_length s).
  rewrite H in L1.
  assert (E : lstrip s = s).
  { destruct (lstrip_suffix s) as [p Hp].
    assert (Hlen : length p = 0%nat).
    { apply (f_equal (@length N)) in Hp. rewrite length_app in Hp. lia. }
    destruct p; [|discriminate]. symmetry. exact Hp. }
  split; [exact E|]. rewrite E in H. exact H.
Qed.

Lemma rstrip_fixed_rev (s : pystr) : rstrip s = s -> lstrip (rev s) = rev s.
Proof.
  unfold rstrip. intro H. apply (f_equal (@rev N)) in H.
  rewrite rev_involutive in H. exact H.
Qed.

(** Gluing two stripped strings gives a stripped string. *)
Lemma strip_glue (a b : pystr) :
  strip a = a -> strip b = b -> strip (a ++ b) = a ++ b.
Proof.
  intros Ha Hb.
  destruct a as [|c a]; [exact Hb|].
  destruct b as [|d b]; [rewrite app_nil_r; exact Ha|].
  destruct (strip_fixed _ Ha) as [La _].
  destruct (strip_fixed _ Hb) as [_ Rb].
  unfold strip.
  assert (E1 : lstrip ((c :: a) ++ d :: b) = (c :: a) ++ d :: b).
  { rewrite lstrip_app_nonempty; rewrite La; [reflexivity|discriminate]. }
  rewrite E1. unfold rstrip. rewrite rev_app_distr.
  apply rstrip_fixed_rev in Rb.
  rewrite lstrip_app_nonempty; rewrite Rb.
  - rewrite <- rev_app_distr. apply rev_involutive.
  - intro H. apply (f_equal (@length N)) in H. rewrite length_rev in H.
    discriminate.
Qed.

Section WithTokenizer.

Variable tokenizer : Tokenizer.

(** The words of the second loop: stripped, and made of the stripped
    sub-words in order. *)
Lemma spaces_loop_words (as_string : bool) (swtl : list (list item))
    (todo : list (pystr * list item)) (i : nat) (words : list pystr)
    (word_tokens : list (list item)) (words' : list pystr)
    (word_tokens' : list (list item)) :
  Forall (fun w => strip w = w) words ->
  spaces_loop tokenizer as_string swtl i words word_tokens todo
  = Ok (words', word_tokens') ->
  Forall (fun w => strip w = w) words'
  /\ concat words' = concat words ++ concat (map (fun p => strip (fst p)) todo).
Proof.
  revert i words word_tokens.
  induction todo as [|[sw swt] rest IH]; intros i words word_tokens HF H.
  - simpl in H. injection H as <- <-. simpl. rewrite app_nil_r. auto.
  - cbn [spaces_loop] in H.
    destruct (x <- first_item swt ;; _) as [special|]; [|discriminate].
    cbn [bind] in H.
    match type of H with
    | bind ?c _ = _ => destruct c as [previous_special|]; [|discriminate]
    end.
    cbn [bind] in H.
    match type of H with
    | bind (if ?b then _ else _) _ = _ => destruct b
    end.
    + cbn [bind] in H. apply IH in H.
      * destruct H as [H1 H2]. split; [exact H1|]. rewrite H2.
        rewrite concat_app. cbn [map fst concat]. rewrite app_nil_r.
        rewrite <- app_assoc. reflexivity.
      * apply Forall_app. split; [exact HF|].
        constructor; [apply strip_idem|constructor].
    + destruct (update_last (fun w => w ++ strip sw) words) as [ws|] eqn:Ew;
        [|discriminate].
      cbn [bind] in H.
      destruct (update_last (fun span => span ++ swt) word_tokens)
        as [wts|]; [|discriminate].
      cbn [bind] in H. apply IH in H.
      * destruct H as [H1 H2]. split; [exact H1|]. rewrite H2.
        rewrite (update_last_concat _ _ _ Ew). cbn [map fst concat].
        rewrite <- app_assoc. reflexivity.
      * destruct words as [|w0 words0]; [discriminate|].
        rewrite update_last_map_last in Ew by discriminate.
        injection Ew as <-.
        apply (map_last_Forall (fun w => strip w = w)
                 (fun w => w ++ strip sw) (w0 :: words0)); [|exact HF].
        intros a Pa. apply strip_glue; [exact Pa|apply strip_idem].
Qed.

End WithTokenizer.

End StripFacts.

Section SpacesExtras.
Import Py Segmenter StripFacts.

(** X23.  Whenever [split_tokens_on_spaces] returns, no word has white
    space at either end, and the words put end to end are the stripped
    sub-words of [split_tokens_on_unicode] in order: the second loop
    only glues sub-words and drops surrounding white space. *)
Theorem split_tokens_on_spaces_words (tokenizer : Tokenizer)
    (tokens : list Z) (as_string remove : bool) (words : list pystr)
    (word_tokens : list (list item)) :
  split_tokens_on_spaces tokenizer tokens as_string remove
  = Ok (words, word_tokens) ->
  Forall (fun w => strip w = w) words
  /\ exists subwords subword_tokens_list,
       split_tokens_on_unicode tokenizer tokens as_string remove false
       = Ok (subwords, subword_tokens_list)
       /\ concat words = concat (map strip subwords).
Proof.
  unfold split_tokens_on_spaces. intro H.
  destruct (split_tokens_on_unicode tokenizer tokens as_string remove false)
    as [[subwords swtl]|] eqn:E; [|discriminate].
  cbn [bind] in H.
  assert (L : length subwords = length swtl).
  { destruct (SegmenterFacts.unicode_loop_total tokenizer as_string remove
                false tokens [] [] [] eq_refl) as (ws & wts & E' & L).
    unfold split_tokens_on_unicode in E. rewrite E' in E.
    injection E as <- <-. exact L. }
  apply (spaces_loop_words tokenizer as_string swtl _ 0 [] [] _ _
           (Forall_nil _)) in H.
  destruct H as [H1 H2]. split; [exact H1|].
  exists subwords, swtl. split; [reflexivity|].
  rewrite H2. cbn [concat app]. f_equal.
  clear -L. revert swtl L.
  induction subwords as [|sw subwords IH]; intros swtl L; [reflexivity|].
  destruct swtl as [|swt swtl]; [discriminate|].
  cbn [combine map fst]. f_equal. apply IH. simpl in L. lia.
Qed.

End SpacesExtras.

Lemma split_tokens_on_spaces_words_witness :
  exists words word_tokens,
    Segmenter.split_tokens_on_spaces Toy.tokenizer
      [100; 0; 2; 5; 6; 1; 3; 101]%Z true false = Ok (words, word_tokens)
    /\ length words = 4%nat
    /\ Forall (fun w => Py.strip w = w) words
    /\ exists subwords subword_tokens_list,
         Segmenter.split_tokens_on_unicode Toy.tokenizer
           [100; 0; 2; 5; 6; 1; 3; 101]%Z true false false
         = Ok (subwords, subword_tokens_list)
         /\ concat words = concat (map Py.strip subwords).
Proof.
  do 2 eexists. split; [vm_compute; reflexivity|]. split; [reflexivity|].
  eapply (split_tokens_on_spaces_words Toy.tokenizer
            [100; 0; 2; 5; 6; 1; 3; 101]%Z true false).
  vm_compute. reflexivity.
Defined.

Section FilterExtras.
Import Accumulator AccumulatorFacts.

(** X24.  The silence filter drops whole segments: when it returns,
    for a start index within the word lists collected so far, either
    nothing is dropped or the word lists and the token lists are both
    cut at that index, the open buffer being kept; in both cases there
    is still one token list more than word lists, and the statistics
    of the window are reset. *)
Theorem filter_window_drops_segments (tokenizer : Tokenizer)
    (no_speech_threshold logprob_threshold : option Q) (s s' : state)
    (i_start : Z) :
  one_open s ->
  (0 <= i_start <= Z.of_nat (length (timestamped_word_segments s)))%Z ->
  filter_window tokenizer no_speech_threshold logprob_threshold s i_start
  = Ok s' ->
  one_open s'
  /\ ((timestamped_word_segments s' = timestamped_word_segments s
       /\ tok_indices s' = tok_indices s)
      \/ exists cur,
           Py.last_item (tok_indices s) = Ok cur
           /\ timestamped_word_segments s'
              = firstn (Z.to_nat i_start) (timestamped_word_segments s)
           /\ tok_indices s'
              = firstn (Z.to_nat i_start) (tok_indices s) ++ [cur])
  /\ chunk_logprobs s' = [] /\ chunk_tokens s' = []
  /\ chunk_tokens_nosot s' = [] /\ no_speech_prob s' = None.
Proof.
  intros O Hi H. unfold filter_window in H.
  assert (Same : forall s0 : state,
             s0 = s ->
             one_open (reset_counters s0)
             /\ ((timestamped_word_segments (reset_counters s0)
                  = timestamped_word_segments s
                  /\ tok_indices (reset_counters s0) = tok_indices s)
                 \/ exists cur,
                      Py.last_item (tok_indices s) = Ok cur
                      /\ timestamped_word_segments (reset_counters s0)
                         = firstn (Z.to_nat i_start)
                             (timestamped_word_segments s)
                      /\ tok_indices (reset_counters s0)
                         = firstn (Z.to_nat i_start) (tok_indices s) ++ [cur])
             /\ chunk_logprobs (reset_counters s0) = []
             /\ chunk_tokens (reset_counters s0) = []
             /\ chunk_tokens_nosot (reset_counters s0) = []
             /\ no_speech_prob (reset_counters s0) = None).
  { intros s0 ->. split; [exact O|]. split; [left; split; reflexivity|].
    simpl. auto. }
  destruct no_speech_threshold as [threshold|].
  2:{ cbn [bind] in H. injection H as <-. apply Same. reflexivity. }
  destruct (no_speech_prob s) as [p|]; [|discriminate]. cbn [bind] in H.
  match type of H with
  | bind (bind ?c _) _ = _ => destruct c as [[should_skip avg]|]
  end; [|discriminate].
  cbn [bind] in H. destruct should_skip.
  2:{ cbn [bind] in H. injection H as <-. apply Same. reflexivity. }
  destruct avg as [avg|]; [|discriminate].
  destruct (Py.last_item (tok_indices s)) as [cur|] eqn:El; [|discriminate].
  cbn [bind] in H. injection H as <-.
  assert (C1 : Py.slice_to i_start (timestamped_word_segments s)
               = firstn (Z.to_nat i_start) (timestamped_word_segments s)).
  { unfold Py.slice_to, Py.clamp_index.
    destruct (i_start <? 0)%Z eqn:E; [apply Z.ltb_lt in E; lia|].
    f_equal. lia. }
  assert (C2 : Py.slice_to i_start (tok_indices s)
               = firstn (Z.to_nat i_start) (tok_indices s)).
  { unfold Py.slice_to, Py.clamp_index.
    destruct (i_start <? 0)%Z eqn:E; [apply Z.ltb_lt in E; lia|].
    f_equal. unfold one_open in O. lia. }
  cbn [reset_counters with_segments with_tok timestamped_word_segments
         tok_indices chunk_logprobs chunk_tokens chunk_tokens_nosot
         no_speech_prob].
  rewrite C1, C2. split; [|split; [right; exists cur; auto|auto]].
  unfold one_open in *.
  cbn [reset_counters with_segments with_tok timestamped_word_segments
         tok_indices].
  rewrite length_app, !length_firstn. simpl. lia.
Qed.

End FilterExtras.

Lemma filter_window_drops_segments_witness :
  exists s',
    Accumulator.filter_window Toy.tokenizer (Some (6 # 10)) (Some (-1))
      (Accumulator.mkState
         [[mkWord (Py.lit "Hello") 0 (1 # 5) None]]
         [[100; 0; 110]%Z; [110; 51]%Z] [[]]
         None (Some (9 # 10)) [Toy.flat_logprobs] [] [] true false 0)
      0 = Ok s'
    /\ Accumulator.timestamped_word_segments s' = []
    /\ Accumulator.tok_indices s' = [[110; 51]%Z]
    /\ one_open s'.
Proof.
  eexists. split; [vm_compute; reflexivity|].
  split; [reflexivity|]. split; [reflexivity|].
  refine (proj1 (filter_window_drops_segments Toy.tokenizer (Some (6 # 10))
                   (Some (-1))
                   (Accumulator.mkState
                      [[mkWord (Py.lit "Hello") 0 (1 # 5) None]]
                      [[100; 0; 110]%Z; [110; 51]%Z] [[]]
                      None (Some (9 # 10)) [Toy.flat_logprobs] [] [] true
                      false 0)
                   _ 0 _ _ _)).
  - reflexivity.
  - simpl. lia.
  - vm_compute. reflexivity.
Defined.

Module AlignerTexts.
Import Aligner AlignerFacts AlignerMore.








End AlignerTexts.

Section AlignerTextExtras.
Import Aligner AlignerFacts AlignerMore AlignerTexts.

Variable alignment :
  tensor -> nat -> Q -> option nat -> result (list (Z * Z)).
Variable tokenizer : Tokenizer.


End AlignerTextExtras.

